(** * LOOS: the XDR word codec (xdr.hpp) and the Amber parmtop reader (amber.cpp)

    A shallow embedding of [loos::internal::XDRReader], [loos::internal::XDRWriter]
    and of the section handlers of [loos::Amber], followed by the properties
    established about them.

    Conventions.
    - C++ [uint] and [int] values are integers of [Z]; every place where the
      source arithmetic can wrap is written with [wrap32].
    - [char] buffers and the object representation of scalars are [list byte],
      in host memory order.
    - [std::vector] is a list; [operator[]] outside the vector is undefined
      behaviour, which the embedding reports as the outcome [UB].
    - A C++ exception is the outcome [Throw e s], carrying the state of the
      object at the moment of the throw. *)

From Stdlib Require Import ZArith Lia Strings.Byte Ascii String List Bool.
From stdpp Require Import base option list strings.
Import ListNotations.

Local Open Scope Z_scope.

(** ** Outcomes of a member function *)

Inductive exn : Type :=
| FileParseError (msg : string) (lineno : Z)
| runtime_error (msg : string)
| logic_error (msg : string)
| XDRDataSizeError.

Inductive outcome (S A : Type) : Type :=
| Ok (a : A) (s : S)
| Throw (e : exn) (s : S)
| UB.

Arguments Ok {S A} a s.
Arguments Throw {S A} e s.
Arguments UB {S A}.

Definition bind {S A B : Type} (m : S -> outcome S A) (k : A -> S -> outcome S B)
  : S -> outcome S B :=
  fun s => match m s with
           | Ok a s' => k a s'
           | Throw e s' => Throw e s'
           | UB => UB
           end.

Definition ret {S A : Type} (a : A) : S -> outcome S A := fun s => Ok a s.
Definition throw {S A : Type} (e : exn) : S -> outcome S A := fun s => Throw e s.
Definition undefined {S A : Type} : S -> outcome S A := fun _ => UB.

Notation "x <- m ;; k" := (bind m (fun x => k))
  (at level 60, m at next level, right associativity).
Notation "m ;;; k" := (bind m (fun _ => k))
  (at level 60, right associativity).

(** [uint] arithmetic is modulo 2^32. *)
Definition wrap32 (z : Z) : Z := z mod 4294967296.

(** Conversions between [uint] and [int] (two's complement). *)
Definition int_of_uint (z : Z) : Z :=
  if z <? 2147483648 then z else z - 4294967296.
Definition uint_of_int (z : Z) : Z := wrap32 z.

(** [for (uint i = start; ...; i++) body] run for a known trip count. *)
Fixpoint for_loop {S : Type} (count : nat) (i : Z)
    (body : Z -> S -> outcome S unit) : S -> outcome S unit :=
  match count with
  | O => ret tt
  | Datatypes.S k => body i ;;; for_loop k (i + 1) body
  end.

(** ** Bytes *)

Definition Z_of_byte (b : byte) : Z := Z.of_N (Byte.to_N b).

Definition byte_of_Z (z : Z) : byte :=
  match Byte.of_N (Z.to_N (z mod 256)) with
  | Some b => b
  | None => x00
  end.

(** Object representation of a [uint] on the host: [le = true] is a
    little-endian host (low-order byte first in memory). *)
Definition uint_bytes_be (n : Z) : list byte :=
  [byte_of_Z (n / 16777216); byte_of_Z (n / 65536); byte_of_Z (n / 256); byte_of_Z n].

Definition uint_bytes (le : bool) (n : Z) : list byte :=
  if le then rev (uint_bytes_be n) else uint_bytes_be n.

Fixpoint Z_of_bytes_be (acc : Z) (bs : list byte) : Z :=
  match bs with
  | [] => acc
  | b :: bs' => Z_of_bytes_be (acc * 256 + Z_of_byte b) bs'
  end.

Definition uint_of_bytes (le : bool) (bs : list byte) : Z :=
  Z_of_bytes_be 0 (if le then rev bs else bs).

Module XDR.

(** *** Streams

    [std::istream::read] on a stream whose failbit is set extracts nothing;
    a read past the end extracts what is left and sets the failbit. *)

Record istream : Type := { in_bytes : list byte; in_failbit : bool }.

Definition istream_read (n : nat) (s : istream) : list byte * istream :=
  if in_failbit s then ([], s)
  else if (n <=? length (in_bytes s))%nat
       then (take n (in_bytes s), {| in_bytes := drop n (in_bytes s); in_failbit := false |})
       else (in_bytes s, {| in_bytes := []; in_failbit := true |}).

(** An output stream onto an unbounded sink: a write succeeds unless the
    stream is already in a failed state, in which case it writes nothing. *)
Record ostream : Type :=
  { out_bytes : list byte; out_failbit : bool; out_badbit : bool }.

Definition out_fail (s : ostream) : bool := out_failbit s || out_badbit s.

Definition ostream_write (bs : list byte) (s : ostream) : ostream :=
  if out_fail s then s
  else {| out_bytes := out_bytes s ++ bs;
          out_failbit := out_failbit s; out_badbit := out_badbit s |}.

(** sizeof(block_type), [block_type] being [unsigned int]. *)
Definition block_size : nat := 4.

(** Modelled from the spec: [loos::swab] of utils.hpp, which is not among the
    sources. The spec has the codec swap the byte order of the datum: the
    object representation, reversed. *)
Definition swab (v : list byte) : list byte := rev v.

(** The byte-order probe of the constructors:
    [int test = 0x1234; *(char* )&test == 0x34]. *)
Definition probe (le : bool) : bool :=
  match uint_bytes le 4660 with
  | b :: _ => Z_of_byte b =? 52
  | [] => false
  end.

(** *** XDRReader *)

Record XDRReader : Type := { rstream : istream; r_need_to_swab : bool }.

Definition XDRReader_new (le : bool) (s : istream) : XDRReader :=
  {| rstream := s; r_need_to_swab := if probe le then true else false |}.

(** [template<typename T> uint read(T* p)], for a type [T] of [sz] bytes.
    [r0] is the indeterminate initial content of the local [result]. The
    stream read asks for sizeof(block_type) bytes and stores those it
    extracts at [&result], an object of [sz] bytes: when it extracts more than
    [sz] bytes the store runs past the object, which is undefined. The value
    returned is the pair of the [uint] result and the bytes left in [*p]. *)
Definition read_scalar (sz : nat) (r0 : list byte)
  : XDRReader -> outcome XDRReader (Z * list byte) :=
  fun rd =>
  if (block_size <? sz)%nat then Throw XDRDataSizeError rd
  else
    let '(got, ist) := istream_read block_size (rstream rd) in
    if (sz <? length got)%nat then UB
    else
      let result := take sz (got ++ drop (length got) r0) in
      let result := if (1 <? sz)%nat && r_need_to_swab rd then swab result else result in
      Ok (Z.b2z (negb (in_failbit ist)), result)
         {| rstream := ist; r_need_to_swab := r_need_to_swab rd |}.

(** [uint read(T& t)] at [T = uint]: the datum seen as an unsigned integer of
    the host. *)
Definition read_uint (le : bool) (r0 : list byte)
  : XDRReader -> outcome XDRReader (Z * Z) :=
  r <- read_scalar 4 r0 ;; ret (fst r, uint_of_bytes le (snd r)).

(** [uint read(char* p, uint n)]: the bytes stored at [p] and the result. *)
Definition read_opaque (n : Z) : XDRReader -> outcome XDRReader (Z * list byte) :=
  fun rd =>
  if n =? 0 then Ok (1, []) rd
  else
    let rndup := n mod Z.of_nat block_size in
    let rndup := if 0 <? rndup then Z.of_nat block_size - rndup else rndup in
    let '(got, ist) := istream_read (Z.to_nat n) (rstream rd) in
    if in_failbit ist
    then Ok (0, got) {| rstream := ist; r_need_to_swab := r_need_to_swab rd |}
    else
      let ist := if negb (rndup =? 0)
                then snd (istream_read (Z.to_nat rndup) ist) else ist in
      Ok (n, got) {| rstream := ist; r_need_to_swab := r_need_to_swab rd |}.

(** [uint read(boost::shared_ptr<char>& p)]. [s0] is the indeterminate
    content of the array [new char[n+1]]; [n+1] is computed in [uint], so for
    [n = UINT_MAX] the array has no element and the store [s[n] = 0] is
    outside it. The result is [None] for the pointer when the length could not
    be read ([p] is left null). *)
Definition read_cstr (le : bool) (r0 s0 : list byte)
  : XDRReader -> outcome XDRReader (Z * option (list byte)) :=
  r <- read_uint le r0 ;;
  if fst r =? 0 then ret (0, None)
  else
    let n := snd r in
    let size := wrap32 (n + 1) in
    i <- read_opaque n ;;
    if size <=? n then undefined
    else
      let s := take (Z.to_nat size) (snd i ++ drop (length (snd i)) s0) in
      let s := <[Z.to_nat n := x00]> s in
      ret (fst i, Some s).

(** The characters of a C string: those before the first NUL. *)
Fixpoint c_str_chars (p : list byte) : list byte :=
  match p with
  | [] => []
  | b :: p' => if Byte.eqb b x00 then [] else b :: c_str_chars p'
  end.

(** [uint read(std::string& s)]: the result and the new value of [s], which is
    [s_old] when the function returns before the assignment. *)
Definition read_string (le : bool) (r0 s0 : list byte) (s_old : list byte)
  : XDRReader -> outcome XDRReader (Z * list byte) :=
  r <- read_cstr le r0 s0 ;;
  let i := int_of_uint (fst r) in
  if i =? 0 then ret (0, s_old)
  else
    match snd r with
    | Some p => ret (uint_of_int i, c_str_chars p)
    | None => undefined
    end.

(** *** XDRWriter *)

Record XDRWriter : Type := { wstream : ostream; w_need_to_swab : bool }.

(** The constructors set [need_to_swab] only when the probe succeeds; the
    member has no initialiser, so on a big-endian host it keeps the
    indeterminate value [garbage]. *)
Definition XDRWriter_new (le : bool) (garbage : bool) (s : ostream) : XDRWriter :=
  {| wstream := s; w_need_to_swab := if probe le then true else garbage |}.

(** [template<typename T> uint write(const T& p)], for a type [T] of [sz]
    bytes. [u0] is the indeterminate initial content of the block [u]; the
    datum overwrites its first [sz] bytes, and the whole block is swapped. *)
Definition write_scalar (sz : nat) (u0 : list byte) (p : list byte)
  : XDRWriter -> outcome XDRWriter Z :=
  fun w =>
  if (block_size <? sz)%nat then Throw XDRDataSizeError w
  else
    let u := take block_size (p ++ drop sz u0) in
    let u := if (1 <? sz)%nat && w_need_to_swab w then swab u else u in
    let os := ostream_write u (wstream w) in
    Ok (Z.b2z (negb (out_badbit os)))
       {| wstream := os; w_need_to_swab := w_need_to_swab w |}.

Definition write_uint (le : bool) (u0 : list byte) (n : Z)
  : XDRWriter -> outcome XDRWriter Z :=
  write_scalar 4 u0 (uint_bytes le n).

(** [uint write(const char* p, const uint n)]. The static [buf] is zeroed on
    every call ([init] is never set). Reading [n] bytes from a buffer that
    holds fewer is undefined. *)
Definition write_opaque (p : list byte) (n : Z) : XDRWriter -> outcome XDRWriter Z :=
  fun w =>
  let buf := repeat x00 block_size in
  let rndup := n mod Z.of_nat block_size in
  let rndup := if 0 <? rndup then Z.of_nat block_size - rndup else rndup in
  if (length p <? Z.to_nat n)%nat then UB
  else
    let os := ostream_write (take (Z.to_nat n) p) (wstream w) in
    let os := if negb (out_fail os)
              then ostream_write (take (Z.to_nat rndup) buf) os else os in
    Ok (if out_fail os then 0 else n)
       {| wstream := os; w_need_to_swab := w_need_to_swab w |}.

(** [strlen]: [None] when no terminator is found in the memory given. *)
Fixpoint strlen (p : list byte) : option nat :=
  match p with
  | [] => None
  | b :: p' => if Byte.eqb b x00 then Some O
               else match strlen p' with
                    | Some k => Some (Datatypes.S k)
                    | None => None
                    end
  end.

(** [uint write(const char* p)]: [uint n = strlen(p)] truncates to 32 bits. *)
Definition write_cstr (le : bool) (u0 : list byte) (p : list byte)
  : XDRWriter -> outcome XDRWriter Z :=
  match strlen p with
  | None => undefined
  | Some len =>
      let n := wrap32 (Z.of_nat len) in
      write_uint le u0 n ;;; write_opaque p n
  end.

(** [uint write(const std::string& s)]: [s.c_str()] is the content of [s]
    followed by a terminator. *)
Definition write_string (le : bool) (u0 : list byte) (s : list byte)
  : XDRWriter -> outcome XDRWriter Z :=
  write_cstr le u0 (s ++ [x00]).

(** The padding the spec gives for an opaque block of [n] bytes. *)
Definition pad (n : Z) : Z := (4 - n mod 4) mod 4.

(** *** Arrays *)

(** [template<typename T> uint read(T* ary, const uint n)]:
    [for (i=0; i<n && read(ary+i); ++i) ;] for [count] more elements. Every
    call stores its datum in [ary[i]], the failing one too; [r0 i] is the
    indeterminate content of the local [result] of call [i]. The value is the
    count [i] returned and the elements stored. *)
Fixpoint read_array_from (count : nat) (sz : nat) (r0 : Z -> list byte) (i : Z)
    (stored : list (list byte))
  : XDRReader -> outcome XDRReader (Z * list (list byte)) :=
  match count with
  | O => ret (i, stored)
  | Datatypes.S k =>
      r <- read_scalar sz (r0 i) ;;
      if fst r =? 0 then ret (i, stored ++ [snd r])
      else read_array_from k sz r0 (i + 1) (stored ++ [snd r])
  end.

Definition read_array (sz : nat) (r0 : Z -> list byte) (n : Z)
  : XDRReader -> outcome XDRReader (Z * list (list byte)) :=
  read_array_from (Z.to_nat n) sz r0 0 [].

(** [template<typename T> uint write(const T* ary, const uint n)]:
    [for (i=0; i<n && write(ary[i]); ++i) ;] over what is left of the array;
    reading an element the array does not have is undefined. *)
Fixpoint write_array_from (ary : list (list byte)) (count : nat) (sz : nat)
    (u0 : Z -> list byte) (i : Z) : XDRWriter -> outcome XDRWriter Z :=
  match count with
  | O => ret i
  | Datatypes.S k =>
      match ary with
      | [] => undefined
      | p :: ary' =>
          r <- write_scalar sz (u0 i) p ;;
          if r =? 0 then ret i else write_array_from ary' k sz u0 (i + 1)
      end
  end.

Definition write_array (ary : list (list byte)) (sz : nat) (u0 : Z -> list byte) (n : Z)
  : XDRWriter -> outcome XDRWriter Z :=
  write_array_from ary (Z.to_nat n) sz u0 0.

(** *** Connecting a writer to a reader *)

(** An empty output stream in the good state. *)
Definition sink : ostream :=
  {| out_bytes := []; out_failbit := false; out_badbit := false |}.

(** The bytes written so far, opened for reading. *)
Definition reopen (os : ostream) : istream :=
  {| in_bytes := out_bytes os; in_failbit := false |}.

(** A block as it travels: swapped when the codec swaps and the datum has
    more than one byte. *)
Definition on_wire (swap : bool) (sz : nat) (block : list byte) : list byte :=
  if (1 <? sz)%nat && swap then swab block else block.

(** A string without an embedded NUL character. *)
Fixpoint nul_free (s : list byte) : bool :=
  match s with
  | [] => true
  | b :: s' => negb (Byte.eqb b x00) && nul_free s'
  end.

End XDR.

(** ** [std::istringstream] formatted extraction

    The part of the stream library that [Amber::parseFormat] relies on:
    [operator>>] for [int] and [char] with the default flags (skipws, decimal),
    [clear()] and [seekg(0)]. An extraction first builds a sentry: it fails
    when the stream is not good, and when skipping white space reaches the end.
    A failed stream does not touch the destination; a failed conversion stores
    0, an out-of-range one the nearest bound. *)

Module ISS.

Record istringstream : Type :=
  { str : string; rest : string; eofbit : bool; failbit : bool }.

Definition open (s : string) : istringstream :=
  {| str := s; rest := s; eofbit := false; failbit := false |}.

Definition good (s : istringstream) : bool := negb (eofbit s) && negb (failbit s).
Definition fail (s : istringstream) : bool := failbit s.

Definition clear (s : istringstream) : istringstream :=
  {| str := str s; rest := rest s; eofbit := false; failbit := false |}.

Definition seekg0 (s : istringstream) : istringstream :=
  if failbit s then s
  else {| str := str s; rest := str s; eofbit := false; failbit := false |}.

Definition isspace (c : ascii) : bool :=
  let n := N_of_ascii c in ((9 <=? n) && (n <=? 13) || (n =? 32))%N.

Definition isdigit (c : ascii) : bool :=
  let n := N_of_ascii c in ((48 <=? n) && (n <=? 57))%N.

Definition digit_value (c : ascii) : Z := Z.of_N (N_of_ascii c) - 48.

Fixpoint skipws (s : string) : string :=
  match s with
  | String c s' => if isspace c then skipws s' else s
  | EmptyString => EmptyString
  end.

Definition sentry (s : istringstream) : bool * istringstream :=
  if negb (good s)
  then (false, {| str := str s; rest := rest s; eofbit := eofbit s; failbit := true |})
  else match skipws (rest s) with
       | EmptyString =>
           (false, {| str := str s; rest := EmptyString; eofbit := true; failbit := true |})
       | r => (true, {| str := str s; rest := r; eofbit := false; failbit := false |})
       end.

(** [is >> c] for a [char]: [c0] is the destination's previous value. *)
Definition get_char (c0 : ascii) (s : istringstream) : ascii * istringstream :=
  match sentry s with
  | (false, s') => (c0, s')
  | (true, s') =>
      match rest s' with
      | String c r =>
          (c, {| str := str s'; rest := r; eofbit := eofbit s'; failbit := failbit s' |})
      | EmptyString => (c0, s')
      end
  end.

(** The longest run of decimal digits: its value, whether it is non-empty,
    and what follows it. *)
Fixpoint digits (acc : Z) (seen : bool) (s : string) : Z * bool * string :=
  match s with
  | String c s' => if isdigit c then digits (acc * 10 + digit_value c) true s'
                   else (acc, seen, s)
  | EmptyString => (acc, seen, EmptyString)
  end.

Definition INT_MAX : Z := 2147483647.
Definition INT_MIN : Z := -2147483648.

(** [is >> v] for an [int]: [v0] is the destination's previous value. *)
Definition get_int (v0 : Z) (s : istringstream) : Z * istringstream :=
  match sentry s with
  | (false, s') => (v0, s')
  | (true, s') =>
      let '(neg, body) :=
        match rest s' with
        | String "-"%char r => (true, r)
        | String "+"%char r => (false, r)
        | r => (false, r)
        end in
      let '(mag, seen, r) := digits 0 false body in
      let at_end := match r with EmptyString => true | _ => false end in
      let v := if neg then - mag else mag in
      if negb seen
      then (0, {| str := str s'; rest := r; eofbit := at_end; failbit := true |})
      else if INT_MAX <? v
      then (INT_MAX, {| str := str s'; rest := r; eofbit := at_end; failbit := true |})
      else if v <? INT_MIN
      then (INT_MIN, {| str := str s'; rest := r; eofbit := at_end; failbit := true |})
      else (v, {| str := str s'; rest := r; eofbit := at_end; failbit := false |})
  end.

(** [boost::tokenizer] with [char_separator<char> sep(delims)]: the input is
    cut at every delimiter, delimiters and empty tokens are dropped. *)
Fixpoint tokens_from (delims : list ascii) (cur : string) (s : string) : list string :=
  let flush := match cur with EmptyString => [] | _ => [String.rev cur] end in
  match s with
  | EmptyString => flush
  | String c s' =>
      if existsb (Ascii.eqb c) delims
      then flush ++ tokens_from delims EmptyString s'
      else tokens_from delims (String c cur) s'
  end.

Definition tokenize (delims : string) (s : string) : list string :=
  tokens_from (list_ascii_of_string delims) EmptyString s.

End ISS.

(** ** The Amber parmtop reader (amber.cpp) *)

Module Parmtop.

(** [Amber::FormatSpec]: the fields assigned by [parseFormat]. *)
Record FormatSpec : Type :=
  { repeat : Z; type : ascii; width : Z; precision : Z }.

(** Modelled from the spec: the atom record of the molecular model
    (class [Atom], not among the sources). The spec gives each atom an
    identity, name, charge, mass, residue id, residue name and its bonded
    neighbours; a neighbour is designated by its position in the atom
    sequence, and entries are kept in insertion order so that duplicates
    would show. *)
Record Atom (double : Type) : Type :=
  { id : Z; name : string; charge : double; mass : double;
    resid : Z; resname : string; bonds : list nat }.

Arguments id {double} _.
Arguments name {double} _.
Arguments charge {double} _.
Arguments mass {double} _.
Arguments resid {double} _.
Arguments resname {double} _.
Arguments bonds {double} _.

(** What the reader takes from the rest of the library: the floating-point
    type, the default-constructed [Atom] and [FormatSpec], the [LineReader]
    cursor ([getNext], [line], [lineNumber]), the [readBlock<T>] template of
    amber.hpp at its four instances, and the extraction of an unsigned count
    from a line ([iss >> std::setw(w) >> n], yielding success and the value
    stored). *)
Class Collaborators : Type :=
  { double : Type;
    new_Atom : Atom double;
    new_FormatSpec : FormatSpec;
    LineReader : Type;
    getNext : LineReader -> bool * LineReader;
    line : LineReader -> string;
    lineNumber : LineReader -> Z;
    readBlock_double : Z -> LineReader -> outcome LineReader (list double);
    readBlock_string : Z -> LineReader -> outcome LineReader (list string);
    readBlock_uint : Z -> LineReader -> outcome LineReader (list Z);
    readBlock_int : Z -> LineReader -> outcome LineReader (list Z);
    extract_uint : Z -> string -> Z -> bool * Z }.

Section Reader.
Context `{C : Collaborators}.

(** The data members of [class Amber] used by the parser. *)
Record Amber : Type :=
  { reader : LineReader;
    atoms : list (Atom double);
    natoms : Z; nbonh : Z; mbona : Z; nres : Z;
    residue_labels : list string;
    residue_pointers : list Z;
    _title : string;
    _amoeba_regular_bond_num_list : Z }.

Definition set_reader (r : LineReader) (a : Amber) : Amber :=
  {| reader := r; atoms := atoms a; natoms := natoms a; nbonh := nbonh a;
     mbona := mbona a; nres := nres a; residue_labels := residue_labels a;
     residue_pointers := residue_pointers a; _title := _title a;
     _amoeba_regular_bond_num_list := _amoeba_regular_bond_num_list a |}.

Definition set_atoms (l : list (Atom double)) (a : Amber) : Amber :=
  {| reader := reader a; atoms := l; natoms := natoms a; nbonh := nbonh a;
     mbona := mbona a; nres := nres a; residue_labels := residue_labels a;
     residue_pointers := residue_pointers a; _title := _title a;
     _amoeba_regular_bond_num_list := _amoeba_regular_bond_num_list a |}.

Definition set_counts (n h m r : Z) (a : Amber) : Amber :=
  {| reader := reader a; atoms := atoms a; natoms := n; nbonh := h;
     mbona := m; nres := r; residue_labels := residue_labels a;
     residue_pointers := residue_pointers a; _title := _title a;
     _amoeba_regular_bond_num_list := _amoeba_regular_bond_num_list a |}.

Definition set_residue_labels (l : list string) (a : Amber) : Amber :=
  {| reader := reader a; atoms := atoms a; natoms := natoms a; nbonh := nbonh a;
     mbona := mbona a; nres := nres a; residue_labels := l;
     residue_pointers := residue_pointers a; _title := _title a;
     _amoeba_regular_bond_num_list := _amoeba_regular_bond_num_list a |}.

Definition set_residue_pointers (l : list Z) (a : Amber) : Amber :=
  {| reader := reader a; atoms := atoms a; natoms := natoms a; nbonh := nbonh a;
     mbona := mbona a; nres := nres a; residue_labels := residue_labels a;
     residue_pointers := l; _title := _title a;
     _amoeba_regular_bond_num_list := _amoeba_regular_bond_num_list a |}.

Definition set_title (t : string) (a : Amber) : Amber :=
  {| reader := reader a; atoms := atoms a; natoms := natoms a; nbonh := nbonh a;
     mbona := mbona a; nres := nres a; residue_labels := residue_labels a;
     residue_pointers := residue_pointers a; _title := t;
     _amoeba_regular_bond_num_list := _amoeba_regular_bond_num_list a |}.

Definition set_amoeba_num (n : Z) (a : Amber) : Amber :=
  {| reader := reader a; atoms := atoms a; natoms := natoms a; nbonh := nbonh a;
     mbona := mbona a; nres := nres a; residue_labels := residue_labels a;
     residue_pointers := residue_pointers a; _title := _title a;
     _amoeba_regular_bond_num_list := n |}.

(** State access in the outcome monad. *)
Definition get : Amber -> outcome Amber Amber := fun a => Ok a a.
Definition modify (f : Amber -> Amber) : Amber -> outcome Amber unit :=
  fun a => Ok tt (f a).

(** [reader.getNext()]. *)
Definition reader_getNext : Amber -> outcome Amber bool :=
  fun a => let '(b, r) := getNext (reader a) in Ok b (set_reader r a).

(** A call of [readBlock<T>(w)]: it works on the cursor only. *)
Definition readBlock {T : Type}
    (rb : Z -> LineReader -> outcome LineReader (list T)) (w : Z)
  : Amber -> outcome Amber (list T) :=
  fun a => match rb w (reader a) with
           | Ok v r => Ok v (set_reader r a)
           | Throw e r => Throw e (set_reader r a)
           | UB => UB
           end.

(** [v[i]] on a vector: undefined outside it. The index is converted to
    [size_t], so a negative [int] is out of range. *)
Definition at_index {T : Type} (v : list T) (i : Z) : option T :=
  if i <? 0 then None else v !! Z.to_nat i.

Definition vec_at {T : Type} (v : list T) (i : Z) : Amber -> outcome Amber T :=
  fun a => match at_index v i with
           | Some x => Ok x a
           | None => UB
           end.

(** [atoms[i]->setter(...)]: an update of the atom at position [i]. *)
Definition update_atom (i : Z) (f : Atom double -> Atom double)
  : Amber -> outcome Amber unit :=
  fun a => match at_index (atoms a) i with
           | Some x => Ok tt (set_atoms (<[Z.to_nat i := f x]> (atoms a)) a)
           | None => UB
           end.

Definition set_id (v : Z) (x : Atom double) : Atom double :=
  {| id := v; name := name x; charge := charge x; mass := mass x;
     resid := resid x; resname := resname x; bonds := bonds x |}.
Definition set_name (v : string) (x : Atom double) : Atom double :=
  {| id := id x; name := v; charge := charge x; mass := mass x;
     resid := resid x; resname := resname x; bonds := bonds x |}.
Definition set_charge (v : double) (x : Atom double) : Atom double :=
  {| id := id x; name := name x; charge := v; mass := mass x;
     resid := resid x; resname := resname x; bonds := bonds x |}.
Definition set_mass (v : double) (x : Atom double) : Atom double :=
  {| id := id x; name := name x; charge := charge x; mass := v;
     resid := resid x; resname := resname x; bonds := bonds x |}.
Definition set_resid (v : Z) (x : Atom double) : Atom double :=
  {| id := id x; name := name x; charge := charge x; mass := mass x;
     resid := v; resname := resname x; bonds := bonds x |}.
Definition set_resname (v : string) (x : Atom double) : Atom double :=
  {| id := id x; name := name x; charge := charge x; mass := mass x;
     resid := resid x; resname := v; bonds := bonds x |}.

(** Modelled from the spec: [Atom::isBoundTo] and [Atom::addBond] (class
    [Atom], not among the sources): the query for an existing bond and the
    addition of a bonded neighbour. *)
Definition isBoundTo (x : Atom double) (other : nat) : bool :=
  existsb (Nat.eqb other) (bonds x).
Definition addBond (other : nat) (x : Atom double) : Atom double :=
  {| id := id x; name := name x; charge := charge x; mass := mass x;
     resid := resid x; resname := resname x; bonds := bonds x ++ [other] |}.

(** *** parseFormat *)

Definition scan : Type := (FormatSpec * ISS.istringstream)%type.

Definition scan_repeat (fs : scan) : scan :=
  let '(v, s) := ISS.get_int (repeat (fst fs)) (snd fs) in
  ({| repeat := v; type := type (fst fs); width := width (fst fs);
      precision := precision (fst fs) |}, s).
Definition scan_type (fs : scan) : scan :=
  let '(v, s) := ISS.get_char (type (fst fs)) (snd fs) in
  ({| repeat := repeat (fst fs); type := v; width := width (fst fs);
      precision := precision (fst fs) |}, s).
Definition scan_width (fs : scan) : scan :=
  let '(v, s) := ISS.get_int (width (fst fs)) (snd fs) in
  ({| repeat := repeat (fst fs); type := type (fst fs); width := v;
      precision := precision (fst fs) |}, s).
(** [>> period]: the character read goes to a local that is never used. *)
Definition scan_period (fs : scan) : scan :=
  (fst fs, snd (ISS.get_char "."%char (snd fs))).
Definition scan_precision (fs : scan) : scan :=
  let '(v, s) := ISS.get_int (precision (fst fs)) (snd fs) in
  ({| repeat := repeat (fst fs); type := type (fst fs); width := width (fst fs);
      precision := v |}, s).

(** [iss.clear(); iss.seekg(0);] *)
Definition rewind (fs : scan) : scan := (fst fs, ISS.seekg0 (ISS.clear (snd fs))).

(** The four grammars, in the order the source tries them. *)
Definition grammar_nXw_d (fs : scan) : scan :=
  scan_precision (scan_period (scan_width (scan_type (scan_repeat fs)))).
Definition grammar_nXw (fs : scan) : scan :=
  scan_width (scan_type (scan_repeat fs)).
Definition grammar_Xw (fs : scan) : scan := scan_width (scan_type fs).
Definition grammar_X (fs : scan) : scan := scan_type fs.

(** The nested attempts of lines 57-74: [None] when the last one fails too. *)
Definition scan_format (fs0 : scan) : option FormatSpec :=
  let fs1 := grammar_nXw_d fs0 in
  if ISS.fail (snd fs1) then
    let fs2 := grammar_nXw (rewind fs1) in
    if ISS.fail (snd fs2) then
      let fs3 := grammar_Xw (rewind fs2) in
      if ISS.fail (snd fs3) then
        let fs4 := grammar_X (rewind fs3) in
        if ISS.fail (snd fs4) then None else Some (fst fs4)
      else Some (fst fs3)
    else Some (fst fs2)
  else Some (fst fs1).

(** [expected_types.find_first_of(c) != npos]. *)
Definition is_expected (expected_types : string) (c : ascii) : bool :=
  existsb (Ascii.eqb c) (list_ascii_of_string expected_types).

Definition parseFormat (expected_types where_ : string)
  : Amber -> outcome Amber FormatSpec :=
  reader_getNext ;;;
  a <- get ;;
  let ln := line (reader a) in
  let lineno := lineNumber (reader a) in
  if negb (String.eqb (substring 0 7 ln) "%FORMAT")
  then throw (FileParseError ("Expected format for " ++ where_) lineno)
  else
    match ISS.tokenize "()" ln with
    | _ :: tok :: _ =>
        match scan_format (new_FormatSpec, ISS.open tok) with
        | None => throw (FileParseError ("Cannot parse format for " ++ where_) lineno)
        | Some fmt =>
            if negb (is_expected expected_types (type fmt))
            then throw (FileParseError ("Invalid format type for " ++ where_) lineno)
            else ret fmt
        end
    | _ => undefined
    end.

(** *** Per-atom sections *)

(** [for (uint i=0; i<v.size(); ++i) atoms[i]->setter(v[i]);] *)
Fixpoint assign_each {T : Type} (setter : T -> Atom double -> Atom double)
    (i : Z) (v : list T) : Amber -> outcome Amber unit :=
  match v with
  | [] => ret tt
  | x :: v' => update_atom i (setter x) ;;; assign_each setter (i + 1) v'
  end.

Definition parseCharges : Amber -> outcome Amber unit :=
  fmt <- parseFormat "EFG" "charges" ;;
  charges <- readBlock readBlock_double (width fmt) ;;
  a <- get ;;
  if negb (length charges =? length (atoms a))%nat
  then throw (FileParseError "Error parsing charges from amber file"
                (lineNumber (reader a)))
  else assign_each set_charge 0 charges.

Definition parseMasses : Amber -> outcome Amber unit :=
  fmt <- parseFormat "EFG" "masses" ;;
  masses <- readBlock readBlock_double (width fmt) ;;
  a <- get ;;
  if negb (length masses =? length (atoms a))%nat
  then throw (FileParseError "Error parsing masses from amber file"
                (lineNumber (reader a)))
  else assign_each set_mass 0 masses.

Definition parseAtomNames : Amber -> outcome Amber unit :=
  fmt <- parseFormat "a" "atom names" ;;
  names <- readBlock readBlock_string (width fmt) ;;
  a <- get ;;
  if negb (Z.of_nat (length names) =? natoms a)
  then throw (FileParseError "Error parsing atom names" (lineNumber (reader a)))
  else assign_each set_name 0 names.

(** *** Residues *)

Definition parseResidueLabels : Amber -> outcome Amber unit :=
  fmt <- parseFormat "a" "residue labels" ;;
  labels <- readBlock readBlock_string (width fmt) ;;
  modify (set_residue_labels labels) ;;;
  a <- get ;;
  if negb (Z.of_nat (length (residue_labels a)) =? nres a)
  then throw (FileParseError "Error parsing residue labels from amber file"
                (lineNumber (reader a)))
  else ret tt.

Definition parseResiduePointers : Amber -> outcome Amber unit :=
  fmt <- parseFormat "I" "residue pointers" ;;
  pointers <- readBlock readBlock_uint (width fmt) ;;
  modify (set_residue_pointers pointers) ;;;
  a <- get ;;
  if negb (Z.of_nat (length (residue_pointers a)) =? nres a)
  then throw (FileParseError "Error parsing residue pointers from amber file"
                (lineNumber (reader a)))
  else ret tt.

(** [++curresid] on an [int]: overflow is undefined. *)
Definition incr_int (v : Z) : Amber -> outcome Amber Z :=
  if v =? ISS.INT_MAX then undefined else ret (v + 1).

(** [atoms[j]->resid(curresid); atoms[j]->resname(curresname);] *)
Definition stamp (curresid : Z) (curresname : string) (j : Z)
  : Amber -> outcome Amber unit :=
  update_atom j (set_resid curresid) ;;; update_atom j (set_resname curresname).

(** The loop of lines 138-145, for [count] more iterations from [i]; it
    yields the final values of [i] and [curresid]. The inner bound
    [residue_pointers[i+1]] is read at the first test of the inner loop. *)
Fixpoint residue_loop (count : nat) (i : Z) (curresid : Z)
  : Amber -> outcome Amber (Z * Z) :=
  match count with
  | O => ret (i, curresid)
  | Datatypes.S k =>
      curresid <- incr_int curresid ;;
      a <- get ;;
      curresname <- vec_at (residue_labels a) i ;;
      lo <- vec_at (residue_pointers a) i ;;
      hi <- vec_at (residue_pointers a) (wrap32 (i + 1)) ;;
      for_loop (Z.to_nat (hi - lo)) lo
        (fun j => stamp curresid curresname (wrap32 (j - 1))) ;;;
      residue_loop k (i + 1) curresid
  end.

Definition assignResidues : Amber -> outcome Amber unit :=
  a <- get ;;
  if negb ((Z.of_nat (length (residue_pointers a)) =? nres a)
           && (Z.of_nat (length (residue_labels a)) =? nres a))
  then throw (runtime_error "Unable to assign residues.")
  else
    ic <- residue_loop (Z.to_nat (wrap32 (nres a - 1))) 0 0 ;;
    let i := fst ic in
    curresid <- incr_int (snd ic) ;;
    curresname <- vec_at (residue_labels a) i ;;
    p <- vec_at (residue_pointers a) i ;;
    let start := wrap32 (p - 1) in
    for_loop (Z.to_nat (natoms a - start)) start
      (fun j => stamp curresid curresname j).

(** *** Bonds *)

(** The body of both bond loops once the two atoms are designated:
    [aatom] and [batom] are pointers into the atom sequence, so the second
    test sees the bond the first may have added. *)
Definition bond_atoms (ia ib : Z) : Amber -> outcome Amber unit :=
  a <- get ;;
  _ <- vec_at (atoms a) ia ;;
  _ <- vec_at (atoms a) ib ;;
  let na := Z.to_nat ia in
  let nb := Z.to_nat ib in
  update_atom ia (fun x => if negb (isBoundTo x nb) then addBond nb x else x) ;;;
  update_atom ib (fun x => if negb (isBoundTo x na) then addBond na x else x).

(** [for (uint i=0; i<bond_list.size(); i += 3)] over what is left of the
    list; [decode] turns a stored index into a position, [None] standing for
    an undefined computation. *)
Fixpoint bond_loop (decode : Z -> option Z) (bond_list : list Z)
  : Amber -> outcome Amber unit :=
  let step (x y : Z) : Amber -> outcome Amber unit :=
    if x =? y then ret tt
    else match decode x, decode y with
         | Some ia, Some ib => bond_atoms ia ib
         | _, _ => undefined
         end in
  match bond_list with
  | [] => ret tt
  | [x] => undefined
  | [x; y] => step x y
  | x :: y :: _ :: more => step x y ;;; bond_loop decode more
  end.

(** [bond_list[i]/3] in [int]: the quotient truncates towards zero. *)
Definition decode_primary (k : Z) : option Z := Some (Z.quot k 3).

(** [bond_list[i]-1] in [int]. *)
Definition decode_amoeba (k : Z) : option Z :=
  if k =? ISS.INT_MIN then None else Some (k - 1).

Definition parseBonds (n : Z) : Amber -> outcome Amber unit :=
  fmt <- parseFormat "I" "bonds" ;;
  bond_list <- readBlock readBlock_int (width fmt) ;;
  a <- get ;;
  if negb (Z.of_nat (length bond_list) =? wrap32 (3 * n))
  then throw (FileParseError "Error parsing bonds in amber file"
                (lineNumber (reader a)))
  else bond_loop decode_primary bond_list.

Definition parseAmoebaRegularBondList (n : Z) : Amber -> outcome Amber unit :=
  fmt <- parseFormat "I" "amoeba_regular_bond_list" ;;
  bond_list <- readBlock readBlock_int (width fmt) ;;
  a <- get ;;
  if negb (Z.of_nat (length bond_list) =? wrap32 (3 * n))
  then throw (FileParseError "Error parsing amoeba bonds in amber file"
                (lineNumber (reader a)))
  else bond_loop decode_amoeba bond_list.

Definition parseAmoebaRegularBondNumList : Amber -> outcome Amber unit :=
  fmt <- parseFormat "I" "amoeba_regular_num_bond_list" ;;
  reader_getNext ;;;
  a <- get ;;
  let '(ok, v) := extract_uint (width fmt) (line (reader a))
                    (_amoeba_regular_bond_num_list a) in
  modify (set_amoeba_num v) ;;;
  if negb ok
  then throw (FileParseError "Error parsing amoeba_regular_bond_num_list"
                (lineNumber (reader a)))
  else ret tt.

(** *** POINTERS and TITLE *)

(** [for (uint i=0; i<natoms; i++) { pa->id(i+1); atoms.push_back(pa); }] *)
Definition push_atom (i : Z) : Amber -> outcome Amber unit :=
  modify (fun a => set_atoms (atoms a ++ [set_id (wrap32 (i + 1)) new_Atom]) a).

Definition parsePointers : Amber -> outcome Amber unit :=
  fmt <- parseFormat "I" "pointers" ;;
  pointers <- readBlock readBlock_uint (width fmt) ;;
  n <- vec_at pointers 0 ;;
  h <- vec_at pointers 2 ;;
  m <- vec_at pointers 3 ;;
  r <- vec_at pointers 11 ;;
  modify (set_counts n h m r) ;;;
  a <- get ;;
  if negb (length (atoms a) =? 0)%nat
  then throw (logic_error
    "Internal error: trying to read in an amber parmtop into a non-empty group!")
  else for_loop (Z.to_nat (natoms a)) 0 push_atom.

Definition parseTitle : Amber -> outcome Amber unit :=
  fmt <- parseFormat "a" "title" ;;
  titles <- readBlock readBlock_string (width fmt) ;;
  modify (fun a => set_title (fold_left String.append titles (_title a)) a).

(** *** The dispatch of [Amber::read] on the tag that follows [%FLAG] *)

Definition dispatch (tag : string) : Amber -> outcome Amber unit :=
  if String.eqb tag "TITLE" then parseTitle
  else if String.eqb tag "POINTERS" then parsePointers
  else if String.eqb tag "ATOM_NAME" then parseAtomNames
  else if String.eqb tag "CHARGE" then parseCharges
  else if String.eqb tag "MASS" then parseMasses
  else if String.eqb tag "RESIDUE_LABEL" then parseResidueLabels
  else if String.eqb tag "RESIDUE_POINTER" then parseResiduePointers
  else if String.eqb tag "BONDS_INC_HYDROGEN" then a <- get ;; parseBonds (nbonh a)
  else if String.eqb tag "BONDS_WITHOUT_HYDROGEN" then a <- get ;; parseBonds (mbona a)
  else if String.eqb tag "AMOEBA_REGULAR_BOND_NUM_LIST" then parseAmoebaRegularBondNumList
  else if String.eqb tag "AMOEBA_REGULAR_BOND_LIST"
       then a <- get ;; parseAmoebaRegularBondList (_amoeba_regular_bond_num_list a)
  else ret tt.

(** *** Predicates and derived operations used to state the properties *)

(** The outcome of the nested attempts, each grammar being run on the token
    from its start with the fields left by the attempts before it. *)
Definition first_match (f0 : FormatSpec) (tok : string) : option FormatSpec :=
  let g1 := grammar_nXw_d (f0, ISS.open tok) in
  let g2 := grammar_nXw (fst g1, ISS.open tok) in
  let g3 := grammar_Xw (fst g2, ISS.open tok) in
  let g4 := grammar_X (fst g3, ISS.open tok) in
  if negb (ISS.fail (snd g1)) then Some (fst g1)
  else if negb (ISS.fail (snd g2)) then Some (fst g2)
  else if negb (ISS.fail (snd g3)) then Some (fst g3)
  else if negb (ISS.fail (snd g4)) then Some (fst g4)
  else None.

Definition keeps {A : Type} (R : Amber -> Amber -> Prop)
    (m : Amber -> outcome Amber A) : Prop :=
  forall a, match m a with
            | Ok _ a' => R a a'
            | Throw _ a' => R a a'
            | UB => True
            end.

(** Only the line cursor differs. *)
Definition only_reader (a a' : Amber) : Prop := a' = set_reader (reader a') a.

(** The atom sequence has as many records, and [natoms] is the same. *)
Definition same_atom_count (a a' : Amber) : Prop :=
  length (atoms a') = length (atoms a) /\ natoms a' = natoms a.

(** [if (!(x->isBoundTo(o))) x->addBond(o);] *)
Definition link (other : nat) (x : Atom double) : Atom double :=
  if negb (isBoundTo x other) then addBond other x else x.

(** The atoms at positions [i] and [j] list each other as neighbours. *)
Definition linked (l : list (Atom double)) (i j : nat) : Prop :=
  exists xi xj, l !! i = Some xi /\ l !! j = Some xj
                /\ isBoundTo xi j = true /\ isBoundTo xj i = true.

(** The number of entries for [j] among the neighbours of the atom at [i]. *)
Definition entries (l : list (Atom double)) (i j : nat) : nat :=
  match l !! i with
  | Some x => count_occ Nat.eq_dec (bonds x) j
  | None => 0%nat
  end.

(** The atom sequence after [bond_atoms]. *)
Definition bonded (na nb : nat) (xa xb : Atom double) (l : list (Atom double))
  : list (Atom double) :=
  <[nb := link na (if decide (na = nb) then link nb xa else xb)]>
    (<[na := link nb xa]> l).

(** The block that holds the given triplets, in order. *)
Definition block_of (ts : list (Z * Z * Z)) : list Z :=
  concat (map (fun t => let '(x, y, z) := t in [x; y; z]) ts).

(** Some triplet of [ts] has two different stored indices that designate,
    through [pos], the positions [i] and [j], in either order. *)
Definition designated (pos : Z -> Z) (ts : list (Z * Z * Z)) (i j : nat) : bool :=
  existsb (fun t => let '(x, y, _) := t in
             negb (x =? y)
             && ((Z.of_nat i =? pos x) && (Z.of_nat j =? pos y)
                 || (Z.of_nat i =? pos y) && (Z.of_nat j =? pos x))) ts.

(** Two atom records that differ in their neighbours at most. *)
Definition bonds_aside (x x' : Atom double) : Prop :=
  id x' = id x /\ name x' = name x /\ charge x' = charge x /\ mass x' = mass x
  /\ resid x' = resid x /\ resname x' = resname x.

(** [x->resid(rid); x->resname(rname);] *)
Definition stamp_atom (rid : Z) (rname : string) (x : Atom double) : Atom double :=
  set_resname rname (set_resid rid x).

(** Residue pointers as the format has them: non-decreasing 1-based
    positions, none beyond one past the last atom. *)
Definition ordered_pointers (p : list Z) (len : nat) : Prop :=
  (forall r s pr ps, (r <= s)%nat -> p !! r = Some pr -> p !! s = Some ps -> pr <= ps)
  /\ (forall r pr, p !! r = Some pr -> 1 <= pr <= Z.of_nat len + 1).

(** *** Bond invariants and the loop of [Amber::read] *)

(** Whenever one atom of the sequence lists another as a neighbour, the
    other lists it too. *)
Definition symmetric_bonds (l : list (Atom double)) : Prop :=
  forall i j xi xj, l !! i = Some xi -> l !! j = Some xj ->
                    isBoundTo xi j = isBoundTo xj i.

(** No atom lists a neighbour twice. *)
Definition duplicate_free (l : list (Atom double)) : Prop :=
  forall i x, l !! i = Some x -> NoDup (bonds x).

(** A symmetric, duplicate-free bond relation stays so. *)
Definition bonds_stay_sound (a a' : Amber) : Prop :=
  symmetric_bonds (atoms a) /\ duplicate_free (atoms a) ->
  symmetric_bonds (atoms a') /\ duplicate_free (atoms a').

(** The separators of the tokenizer of [read]: blank and tab. *)
Definition blank_or_tab : string := String " " (String (ascii_of_nat 9) EmptyString).

(** The body of the loop of [Amber::read] on the line just taken:
    [*toks] on a line without a token, or without a second one after
    [%FLAG], dereferences the end iterator. *)
Definition read_line_body : Amber -> outcome Amber unit :=
  a <- get ;;
  match ISS.tokenize blank_or_tab (line (reader a)) with
  | [] => undefined
  | t0 :: more =>
      if negb (String.eqb t0 "%FLAG") then ret tt
      else match more with
           | [] => undefined
           | tag :: _ => dispatch tag
           end
  end.

(** [while (reader.getNext()) { ... }], for at most [fuel] lines: [None]
    when the lines are not exhausted within [fuel]. *)
Fixpoint read_lines (fuel : nat) (a : Amber) : option (outcome Amber unit) :=
  match fuel with
  | O => None
  | Datatypes.S k =>
      match reader_getNext a with
      | Ok true a1 =>
          match read_line_body a1 with
          | Ok _ a2 => read_lines k a2
          | Throw e s => Some (Throw e s)
          | UB => Some UB
          end
      | Ok false a1 => Some (Ok tt a1)
      | Throw e s => Some (Throw e s)
      | UB => Some UB
      end
  end.

(** [Amber::read] once the stream is attached to the reader. [finish] stands
    for the two calls that end it, [deduceAtomicNumberFromMass] and
    [setGroupConnectivity], which belong to the atomic group and are not among
    the sources. *)
Definition read (finish : Amber -> outcome Amber unit) (fuel : nat) (a : Amber)
  : option (outcome Amber unit) :=
  match read_lines fuel a with
  | Some (Ok _ a1) => Some ((assignResidues ;;; finish) a1)
  | r => r
  end.

End Reader.
End Parmtop.

(** ** A concrete instance of the collaborators

    A list-backed line cursor and a [readBlock] that takes the blank-separated
    fields of the next line; floating-point values are stood for by integers.
    Used to run the reader on concrete files. *)

Module ListReader.

Record cursor : Type := { pending : list string; current : string; lineno : Z }.

Definition open (lines : list string) : cursor :=
  {| pending := lines; current := EmptyString; lineno := 0 |}.

Definition next (r : cursor) : bool * cursor :=
  match pending r with
  | [] => (false, r)
  | l :: ls => (true, {| pending := ls; current := l; lineno := lineno r + 1 |})
  end.

Definition fields (r : cursor) : outcome cursor (list string) :=
  let '(_, r') := next r in Ok (ISS.tokenize " " (current r')) r'.

Definition to_int (s : string) : Z := fst (ISS.get_int 0 (ISS.open s)).

Definition ints (r : cursor) : outcome cursor (list Z) :=
  match fields r with
  | Ok v r' => Ok (map to_int v) r'
  | Throw e r' => Throw e r'
  | UB => UB
  end.

Definition count (s : string) (v0 : Z) : bool * Z :=
  let '(v, st) := ISS.get_int v0 (ISS.open s) in (negb (ISS.fail st), v).

Definition blank_atom : Parmtop.Atom Z :=
  {| Parmtop.id := 0; Parmtop.name := EmptyString; Parmtop.charge := 0;
     Parmtop.mass := 0; Parmtop.resid := 0; Parmtop.resname := EmptyString;
     Parmtop.bonds := [] |}.

Definition blank_format : Parmtop.FormatSpec :=
  {| Parmtop.repeat := 1; Parmtop.type := "?"%char; Parmtop.width := 0;
     Parmtop.precision := 0 |}.

#[export] Instance collaborators : Parmtop.Collaborators :=
  {| Parmtop.double := Z;
     Parmtop.new_Atom := blank_atom;
     Parmtop.new_FormatSpec := blank_format;
     Parmtop.LineReader := cursor;
     Parmtop.getNext := next;
     Parmtop.line := current;
     Parmtop.lineNumber := lineno;
     Parmtop.readBlock_double := fun _ => ints;
     Parmtop.readBlock_string := fun _ => fields;
     Parmtop.readBlock_uint := fun _ => ints;
     Parmtop.readBlock_int := fun _ => ints;
     Parmtop.extract_uint := fun _ => count |}.

(** An [Amber] object before [read]: nothing parsed yet. *)
Definition fresh (lines : list string) : Parmtop.Amber :=
  {| Parmtop.reader := open lines; Parmtop.atoms := []; Parmtop.natoms := 0;
     Parmtop.nbonh := 0; Parmtop.mbona := 0; Parmtop.nres := 0;
     Parmtop.residue_labels := []; Parmtop.residue_pointers := [];
     Parmtop._title := EmptyString;
     Parmtop._amoeba_regular_bond_num_list := 0 |}.

End ListReader.

(** ** Concrete states *)

Module Fixtures.
Import Parmtop.
#[local] Existing Instance ListReader.collaborators.

(** Three atoms without bonds. *)
Definition three_atoms : Amber :=
  {| reader := ListReader.open [];
     atoms := [ListReader.blank_atom; ListReader.blank_atom; ListReader.blank_atom];
     natoms := 3; nbonh := 1; mbona := 0; nres := 1;
     residue_labels := []; residue_pointers := [];
     _title := EmptyString; _amoeba_regular_bond_num_list := 1 |}.

(** Ten atoms in three residues starting at atoms 1, 5 and 9. *)
Definition ten_atoms : Amber :=
  {| reader := ListReader.open [];
     atoms := List.repeat ListReader.blank_atom 10;
     natoms := 10; nbonh := 0; mbona := 0; nres := 3;
     residue_labels := ["ALA"; "GLY"; "SER"]%string;
     residue_pointers := [1; 5; 9];
     _title := EmptyString; _amoeba_regular_bond_num_list := 0 |}.

(** Two atoms declared, one name supplied. *)
Definition one_name_short : Amber :=
  {| reader := ListReader.open ["%FORMAT(20a4)"; "C1"]%string;
     atoms := [ListReader.blank_atom; ListReader.blank_atom];
     natoms := 2; nbonh := 0; mbona := 0; nres := 1;
     residue_labels := []; residue_pointers := [];
     _title := EmptyString; _amoeba_regular_bond_num_list := 0 |}.

Definition two_atom_file : list string :=
  ["%FORMAT(10I8)"; "2 0 1 0 0 0 0 0 0 0 0 1"; "%FORMAT(20a4)"; "C1"]%string.

(** Two atoms and the ATOM_NAME block that names them. *)
Definition two_named : Amber :=
  {| reader := ListReader.open ["%FORMAT(20a4)"; "C1 C2"]%string;
     atoms := [ListReader.blank_atom; ListReader.blank_atom];
     natoms := 2; nbonh := 0; mbona := 0; nres := 1;
     residue_labels := []; residue_pointers := [];
     _title := EmptyString; _amoeba_regular_bond_num_list := 0 |}.

(** Three residues declared, two labels supplied. *)
Definition labels_short : Amber :=
  {| reader := ListReader.open ["%FORMAT(20a4)"; "ALA GLY"]%string;
     atoms := []; natoms := 0; nbonh := 0; mbona := 0; nres := 3;
     residue_labels := []; residue_pointers := [];
     _title := EmptyString; _amoeba_regular_bond_num_list := 0 |}.

(** Three atoms and a bond block joining the first and the last. *)
Definition one_bond : Amber :=
  {| reader := ListReader.open ["%FORMAT(10I8)"; "0 6 1"]%string;
     atoms := [ListReader.blank_atom; ListReader.blank_atom; ListReader.blank_atom];
     natoms := 3; nbonh := 1; mbona := 0; nres := 1;
     residue_labels := []; residue_pointers := [];
     _title := EmptyString; _amoeba_regular_bond_num_list := 0 |}.

(** Three atoms and the same bond block twice: a bond between the first and
    the last atom and a degenerate triplet. *)
Definition bonds_twice : Amber :=
  {| reader := ListReader.open ["%FORMAT(10I8)"; "0 6 1 3 3 1";
                                "%FORMAT(10I8)"; "0 6 1 3 3 1"]%string;
     atoms := [ListReader.blank_atom; ListReader.blank_atom; ListReader.blank_atom];
     natoms := 3; nbonh := 2; mbona := 0; nres := 1;
     residue_labels := []; residue_pointers := [];
     _title := EmptyString; _amoeba_regular_bond_num_list := 2 |}.

(** Six atoms and a bond block with the stored indices 3 and 6. *)
Definition six_atoms : Amber :=
  {| reader := ListReader.open ["%FORMAT(10I8)"; "3 6 1"]%string;
     atoms := List.repeat ListReader.blank_atom 6;
     natoms := 6; nbonh := 1; mbona := 1; nres := 1;
     residue_labels := []; residue_pointers := [];
     _title := EmptyString; _amoeba_regular_bond_num_list := 1 |}.

(** Three atoms and a bond block with the stored indices 3 and 4. *)
Definition stored_3_4 : Amber :=
  {| reader := ListReader.open ["%FORMAT(10I8)"; "3 4 1"]%string;
     atoms := [ListReader.blank_atom; ListReader.blank_atom; ListReader.blank_atom];
     natoms := 3; nbonh := 1; mbona := 0; nres := 1;
     residue_labels := []; residue_pointers := [];
     _title := EmptyString; _amoeba_regular_bond_num_list := 0 |}.

(** One atom already present, and a line that is no format line. *)
Definition garbage_for_pointers : Amber :=
  {| reader := ListReader.open ["garbage"]%string;
     atoms := [ListReader.blank_atom];
     natoms := 1; nbonh := 0; mbona := 0; nres := 1;
     residue_labels := []; residue_pointers := [];
     _title := EmptyString; _amoeba_regular_bond_num_list := 0 |}.

(** Two atoms already present, and a second POINTERS section. *)
Definition pointers_again : Amber :=
  {| reader := ListReader.open two_atom_file;
     atoms := [ListReader.blank_atom; ListReader.blank_atom];
     natoms := 2; nbonh := 0; mbona := 0; nres := 1;
     residue_labels := []; residue_pointers := [];
     _title := EmptyString; _amoeba_regular_bond_num_list := 0 |}.

End Fixtures.

(** * Properties of the XDR codec *)

Module XDRFacts.
Import XDR.

Lemma Z_of_byte_range b : 0 <= Z_of_byte b < 256.
Proof.
  unfold Z_of_byte. pose proof (Byte.to_N_bounded b) as H. lia.
Qed.

Lemma Z_of_byte_of_Z z : Z_of_byte (byte_of_Z z) = z mod 256.
Proof.
  unfold Z_of_byte, byte_of_Z.
  pose proof (Z.mod_pos_bound z 256 ltac:(lia)) as Hb.
  destruct (Byte.of_N (Z.to_N (z mod 256))) as [b|] eqn:E.
  - apply Byte.to_of_N in E. rewrite E. lia.
  - apply Byte.of_N_None_iff in E. lia.
Qed.

Lemma byte_of_Z_of_byte b : byte_of_Z (Z_of_byte b) = b.
Proof.
  unfold byte_of_Z, Z_of_byte.
  pose proof (Byte.to_N_bounded b) as H.
  rewrite Z.mod_small by lia. rewrite N2Z.id, Byte.of_to_N. reflexivity.
Qed.

Lemma uint_of_bytes_be_bytes n :
  0 <= n < 4294967296 -> Z_of_bytes_be 0 (uint_bytes_be n) = n.
Proof.
  intros Hn. unfold uint_bytes_be, Z_of_bytes_be.
  rewrite !Z_of_byte_of_Z.
  Z.to_euclidean_division_equations; lia.
Qed.

Lemma uint_bytes_roundtrip le n :
  0 <= n < 4294967296 -> uint_of_bytes le (uint_bytes le n) = n.
Proof.
  intros Hn. unfold uint_of_bytes, uint_bytes. destruct le.
  - rewrite rev_involutive. by apply uint_of_bytes_be_bytes.
  - by apply uint_of_bytes_be_bytes.
Qed.


Lemma istream_read_enough n bs rest :
  length bs = n ->
  istream_read n {| in_bytes := bs ++ rest; in_failbit := false |}
  = (bs, {| in_bytes := rest; in_failbit := false |}).
Proof.
  intros <-. unfold istream_read. simpl.
  rewrite length_app.
  destruct (Nat.leb_spec (length bs) (length bs + length rest)) as [_|?]; [|lia].
  by rewrite take_app_length, drop_app_length.
Qed.

Lemma istream_read_short n bs :
  (length bs < n)%nat ->
  istream_read n {| in_bytes := bs; in_failbit := false |}
  = (bs, {| in_bytes := []; in_failbit := true |}).
Proof.
  intros H. unfold istream_read. simpl.
  destruct (Nat.leb_spec n (length bs)) as [?|_]; [lia|done].
Qed.

Lemma ostream_write_good bs os :
  out_fail os = false ->
  ostream_write bs os
  = {| out_bytes := out_bytes os ++ bs; out_failbit := out_failbit os;
       out_badbit := out_badbit os |}.
Proof. intros H. unfold ostream_write. by rewrite H. Qed.

Lemma out_fail_false os :
  out_fail os = false -> out_failbit os = false /\ out_badbit os = false.
Proof. unfold out_fail. by intros ?%orb_false_iff. Qed.

Lemma write_scalar_good sz u0 p w :
  (sz <= block_size)%nat -> out_fail (wstream w) = false ->
  write_scalar sz u0 p w
  = Ok 1 {| wstream :=
              {| out_bytes := out_bytes (wstream w)
                   ++ on_wire (w_need_to_swab w) sz (take block_size (p ++ drop sz u0));
                 out_failbit := false; out_badbit := false |};
            w_need_to_swab := w_need_to_swab w |}.
Proof.
  intros Hsz Hok. unfold write_scalar.
  destruct (Nat.ltb_spec block_size sz) as [?|_]; [lia|].
  rewrite ostream_write_good by done.
  destruct (out_fail_false _ Hok) as [-> ->]. reflexivity.
Qed.

Lemma read_scalar_block sz r0 swap bs rest :
  sz = block_size -> length bs = block_size ->
  read_scalar sz r0
    {| rstream := {| in_bytes := bs ++ rest; in_failbit := false |};
       r_need_to_swab := swap |}
  = Ok (1, if (1 <? sz)%nat && swap then swab (take sz bs) else take sz bs)
       {| rstream := {| in_bytes := rest; in_failbit := false |};
          r_need_to_swab := swap |}.
Proof.
  intros Hsz Hbs. unfold read_scalar.
  destruct (Nat.ltb_spec block_size sz) as [?|_]; [lia|].
  cbn [rstream r_need_to_swab].
  rewrite istream_read_enough by done. cbn [in_failbit negb Z.b2z].
  destruct (Nat.ltb_spec sz (length bs)) as [?|_]; [lia|].
  rewrite take_app_le by lia. reflexivity.
Qed.

(** A word is available but the type is smaller: the store overruns. *)
Lemma read_scalar_overrun sz r0 swap bs rest :
  (sz < block_size)%nat -> length bs = block_size ->
  read_scalar sz r0
    {| rstream := {| in_bytes := bs ++ rest; in_failbit := false |};
       r_need_to_swab := swap |}
  = UB.
Proof.
  intros Hsz Hbs. unfold read_scalar.
  destruct (Nat.ltb_spec block_size sz) as [?|_]; [lia|].
  cbn [rstream r_need_to_swab].
  rewrite istream_read_enough by done.
  destruct (Nat.ltb_spec sz (length bs)) as [_|?]; [done | lia].
Qed.

Lemma read_scalar_fails sz r0 rd :
  (sz <= block_size)%nat ->
  in_failbit (rstream rd) = true
  \/ ((length (in_bytes (rstream rd)) < block_size)%nat
      /\ (length (in_bytes (rstream rd)) <= sz)%nat) ->
  exists v rd', read_scalar sz r0 rd = Ok (0, v) rd' /\ in_failbit (rstream rd') = true.
Proof.
  intros Hsz H. unfold read_scalar.
  destruct (Nat.ltb_spec block_size sz) as [?|_]; [lia|].
  destruct rd as [[bs f] swap]. cbn [rstream r_need_to_swab in_bytes in_failbit] in *.
  destruct f.
  - unfold istream_read. cbn [in_failbit length].
    destruct (Nat.ltb_spec sz 0) as [?|_]; [lia|]. cbn. eauto.
  - destruct H as [?|[H H']]; [done|].
    rewrite istream_read_short by done.
    destruct (Nat.ltb_spec sz (length bs)) as [?|_]; [lia|]. cbn. eauto.
Qed.

Lemma swab_involutive v : swab (swab v) = v.
Proof. apply rev_involutive. Qed.

Lemma swab_length v : length (swab v) = length v.
Proof. apply length_rev. Qed.

Lemma scalar_roundtrip_word swap u0 r0 v :
  length v = 4%nat ->
  exists w',
    write_scalar 4 u0 v {| wstream := sink; w_need_to_swab := swap |} = Ok 1 w'
    /\ read_scalar 4 r0 {| rstream := reopen (wstream w'); r_need_to_swab := swap |}
       = Ok (1, v) {| rstream := {| in_bytes := []; in_failbit := false |};
                      r_need_to_swab := swap |}.
Proof.
  intros Hv. eexists. split.
  - apply write_scalar_good; [unfold block_size; lia | done].
  - unfold reopen. simpl.
    rewrite take_app_length' by done.
    rewrite <- (app_nil_r (on_wire _ _ _)).
    rewrite read_scalar_block.
    + unfold on_wire. simpl. destruct swap; simpl.
      * rewrite firstn_all2 by (rewrite swab_length; lia). by rewrite swab_involutive.
      * by rewrite firstn_all2 by lia.
    + reflexivity.
    + unfold on_wire. destruct (_ && _); rewrite ?swab_length; done.
Qed.

(** A type smaller than the word is written as a whole block, and the
    reader then stores that block in the smaller object. *)
Lemma subword_read_after_write_overruns sz swap u0 r0 v :
  (sz < block_size)%nat -> length v = sz -> length u0 = block_size ->
  exists w',
    write_scalar sz u0 v {| wstream := sink; w_need_to_swab := swap |} = Ok 1 w'
    /\ read_scalar sz r0 {| rstream := reopen (wstream w'); r_need_to_swab := swap |}
       = UB.
Proof.
  intros Hsz Hv Hu. eexists. split.
  - apply write_scalar_good; [lia | done].
  - unfold reopen. cbn [wstream out_bytes sink app].
    rewrite <- (app_nil_r (on_wire _ _ _)).
    apply read_scalar_overrun; [done|].
    unfold on_wire. destruct (_ && _); rewrite ?swab_length;
      rewrite length_take, length_app, length_drop; lia.
Qed.

(** C2 (the round trip fails here). With the swap flag on, a two-byte
    scalar does not survive: the writer swaps the whole four-byte block, so
    the datum travels in the last two bytes; the reader stores the four bytes
    at its two-byte [result], which overruns the object, and swaps the two
    bytes the object holds. Whatever the value written, these are the bytes
    the writer's block held beyond the datum. *)
Theorem halfword_roundtrip_lost_when_swapping v0 v1 j0 j1 j2 j3 r0 :
  exists w',
    write_scalar 2 [j0; j1; j2; j3] [v0; v1]
      {| wstream := sink; w_need_to_swab := true |} = Ok 1 w'
    /\ out_bytes (wstream w') = [j3; j2; v1; v0]
    /\ swab (take 2 (out_bytes (wstream w'))) = [j2; j3]
    /\ read_scalar 2 r0 {| rstream := reopen (wstream w'); r_need_to_swab := true |}
       = UB.
Proof.
  eexists. split; [reflexivity|]. split; [reflexivity|]. split; reflexivity.
Qed.

(** The value 0x1234 of a little-endian host, written from a zeroed block,
    travels as 00 00 12 34; the two bytes that reach the reader's object,
    swapped, are 00 00. *)
Example halfword_1234_reads_back_zero :
  exists w',
    write_scalar 2 [x00; x00; x00; x00] [x34; x12]
      {| wstream := sink; w_need_to_swab := true |} = Ok 1 w'
    /\ out_bytes (wstream w') = [x00; x00; x12; x34]
    /\ swab (take 2 (out_bytes (wstream w'))) = [x00; x00].
Proof. eexists. split; [reflexivity|]. split; reflexivity. Qed.

Lemma rndup_pad n :
  (if 0 <? n mod Z.of_nat block_size
   then Z.of_nat block_size - n mod Z.of_nat block_size
   else n mod Z.of_nat block_size) = pad n.
Proof.
  unfold pad, block_size. change (Z.of_nat 4) with 4.
  destruct (Z.ltb_spec 0 (n mod 4)); Z.to_euclidean_division_equations; lia.
Qed.

Lemma pad_range n : 0 <= pad n <= 3.
Proof. unfold pad. Z.to_euclidean_division_equations; lia. Qed.

Lemma take_zero_block k :
  (k <= block_size)%nat -> take k (repeat x00 block_size) = repeat x00 k.
Proof.
  unfold block_size. intros H.
  destruct k as [|[|[|[|[|k]]]]]; try reflexivity. lia.
Qed.

Lemma write_opaque_good p n w :
  0 <= n -> (Z.to_nat n <= length p)%nat -> out_fail (wstream w) = false ->
  write_opaque p n w
  = Ok n {| wstream :=
              {| out_bytes := out_bytes (wstream w) ++ take (Z.to_nat n) p
                                ++ repeat x00 (Z.to_nat (pad n));
                 out_failbit := false; out_badbit := false |};
            w_need_to_swab := w_need_to_swab w |}.
Proof.
  intros Hn Hp Hok. unfold write_opaque. rewrite rndup_pad.
  destruct (Nat.ltb_spec (length p) (Z.to_nat n)) as [?|_]; [lia|].
  destruct (out_fail_false _ Hok) as [Hf Hb].
  rewrite (ostream_write_good _ (wstream w)) by done.
  rewrite ostream_write_good; unfold out_fail; cbn [out_failbit out_badbit out_bytes];
    rewrite Hf, Hb; cbn [orb negb]; [|done].
  rewrite take_zero_block by (pose proof (pad_range n); unfold block_size; lia).
  by rewrite <- app_assoc.
Qed.

Lemma read_opaque_enough n rd :
  0 <= n -> in_failbit (rstream rd) = false ->
  (Z.to_nat (n + pad n) <= length (in_bytes (rstream rd)))%nat ->
  read_opaque n rd
  = Ok (if n =? 0 then 1 else n, take (Z.to_nat n) (in_bytes (rstream rd)))
       {| rstream := {| in_bytes := drop (Z.to_nat (n + pad n)) (in_bytes (rstream rd));
                        in_failbit := false |};
          r_need_to_swab := r_need_to_swab rd |}.
Proof.
  intros Hn Hf Hlen. destruct rd as [[bs f] swap].
  cbn [rstream in_bytes in_failbit r_need_to_swab] in *. subst f.
  unfold read_opaque. rewrite rndup_pad. pose proof (pad_range n) as Hp.
  destruct (Z.eqb_spec n 0) as [->|Hn0]; [reflexivity|].
  cbn [rstream r_need_to_swab].
  rewrite <- (take_drop (Z.to_nat n) bs) at 1.
  rewrite istream_read_enough by (rewrite length_take; lia).
  cbn [in_failbit].
  destruct (Z.eqb_spec (pad n) 0) as [E|E]; cbn [negb].
  - rewrite E, Z.add_0_r. reflexivity.
  - rewrite <- (take_drop (Z.to_nat (pad n)) (drop (Z.to_nat n) bs)) at 1.
    rewrite istream_read_enough by (rewrite length_take, length_drop; lia).
    cbn [snd]. rewrite drop_drop. repeat f_equal. lia.
Qed.

Lemma read_opaque_short n rd :
  0 < n -> in_failbit (rstream rd) = false ->
  (length (in_bytes (rstream rd)) < Z.to_nat n)%nat ->
  read_opaque n rd
  = Ok (0, in_bytes (rstream rd))
       {| rstream := {| in_bytes := []; in_failbit := true |};
          r_need_to_swab := r_need_to_swab rd |}.
Proof.
  intros Hn Hf Hlen. destruct rd as [[bs f] swap].
  cbn [rstream in_bytes in_failbit r_need_to_swab] in *. subst f.
  unfold read_opaque. destruct (Z.eqb_spec n 0) as [?|_]; [lia|].
  cbn [rstream]. rewrite istream_read_short by done. reflexivity.
Qed.

Lemma read_opaque_cut n rd :
  0 < n -> in_failbit (rstream rd) = false ->
  (Z.to_nat n <= length (in_bytes (rstream rd)) < Z.to_nat (n + pad n))%nat ->
  read_opaque n rd
  = Ok (n, take (Z.to_nat n) (in_bytes (rstream rd)))
       {| rstream := {| in_bytes := []; in_failbit := true |};
          r_need_to_swab := r_need_to_swab rd |}.
Proof.
  intros Hn Hf Hlen. destruct rd as [[bs f] swap].
  cbn [rstream in_bytes in_failbit r_need_to_swab] in *. subst f.
  unfold read_opaque. rewrite rndup_pad. pose proof (pad_range n) as Hp.
  destruct (Z.eqb_spec n 0) as [?|_]; [lia|].
  cbn [rstream r_need_to_swab].
  rewrite <- (take_drop (Z.to_nat n) bs) at 1.
  rewrite istream_read_enough by (rewrite length_take; lia).
  cbn [in_failbit].
  destruct (Z.eqb_spec (pad n) 0) as [E|E]; cbn [negb]; [lia|].
  rewrite istream_read_short by (rewrite length_drop; lia).
  reflexivity.
Qed.

Lemma read_opaque_failed n rd :
  0 < n -> in_failbit (rstream rd) = true ->
  read_opaque n rd = Ok (0, []) rd.
Proof.
  intros Hn Hf. destruct rd as [[bs f] swap].
  cbn [rstream in_failbit] in Hf. subst f.
  unfold read_opaque. destruct (Z.eqb_spec n 0) as [?|_]; [lia|]. reflexivity.
Qed.

(** C3, as amended. [pad n] is between 0 and 3. On a good stream, writing
    an opaque block of [n] bytes appends the [n] bytes and [pad n] zero bytes
    and returns [n]. Reading an opaque block of [n] bytes from a stream that
    has not failed: when [n + pad n] bytes are available it consumes exactly
    those and returns [n], or 1 when [n = 0]; when fewer than [n] bytes are
    available ([n > 0]) it returns 0 and leaves the stream failed; when the
    [n] bytes are available but the padding is not complete it returns [n]
    with the [n] bytes, and leaves the stream exhausted and failed. From a
    stream that has failed it returns 0 for [n > 0] and changes nothing. *)
Theorem opaque_padding n :
  0 <= n ->
  0 <= pad n <= 3
  /\ (forall p w,
        (Z.to_nat n <= length p)%nat -> out_fail (wstream w) = false ->
        exists w',
          write_opaque p n w = Ok n w'
          /\ out_bytes (wstream w')
             = out_bytes (wstream w) ++ take (Z.to_nat n) p
                 ++ repeat x00 (Z.to_nat (pad n))
          /\ Z.of_nat (length (out_bytes (wstream w')))
             = Z.of_nat (length (out_bytes (wstream w))) + (n + pad n))
  /\ (forall rd,
        in_failbit (rstream rd) = false ->
        n + pad n <= Z.of_nat (length (in_bytes (rstream rd))) ->
        exists rd',
          read_opaque n rd
          = Ok (if n =? 0 then 1 else n, take (Z.to_nat n) (in_bytes (rstream rd))) rd'
          /\ in_failbit (rstream rd') = false
          /\ in_bytes (rstream rd')
             = drop (Z.to_nat (n + pad n)) (in_bytes (rstream rd))
          /\ Z.of_nat (length (in_bytes (rstream rd')))
             = Z.of_nat (length (in_bytes (rstream rd))) - (n + pad n))
  /\ (forall rd,
        0 < n -> in_failbit (rstream rd) = false ->
        Z.of_nat (length (in_bytes (rstream rd))) < n ->
        exists rd',
          read_opaque n rd = Ok (0, in_bytes (rstream rd)) rd'
          /\ in_failbit (rstream rd') = true)
  /\ (forall rd,
        0 < n -> in_failbit (rstream rd) = false ->
        n <= Z.of_nat (length (in_bytes (rstream rd))) < n + pad n ->
        exists rd',
          read_opaque n rd = Ok (n, take (Z.to_nat n) (in_bytes (rstream rd))) rd'
          /\ in_failbit (rstream rd') = true
          /\ in_bytes (rstream rd') = [])
  /\ (forall rd,
        0 < n -> in_failbit (rstream rd) = true ->
        read_opaque n rd = Ok (0, []) rd).
Proof.
  intros Hn. pose proof (pad_range n) as Hp. split; [done|].
  split; [|split; [|split; [|split]]].
  - intros p w Hlen Hok. eexists. split; [by apply write_opaque_good|].
    cbn [wstream out_bytes]. split; [done|].
    rewrite !length_app, length_take, repeat_length. lia.
  - intros rd Hf Hlen. eexists. split; [apply read_opaque_enough; [done|done|lia]|].
    cbn [rstream in_failbit in_bytes]. split; [done|]. split; [done|].
    rewrite length_drop. lia.
  - intros rd H0 Hf Hlen. eexists.
    split; [apply read_opaque_short; [done|done|lia] | done].
  - intros rd H0 Hf Hlen. eexists.
    split; [apply read_opaque_cut; [done|done|lia] | done].
  - intros rd H0 Hf. by apply read_opaque_failed.
Qed.

Lemma read_opaque_zero_returns_one :
  read_opaque 0 {| rstream := {| in_bytes := []; in_failbit := false |};
                   r_need_to_swab := true |}
  = Ok (1, []) {| rstream := {| in_bytes := []; in_failbit := false |};
                  r_need_to_swab := true |}
  /\ 1 <> 0.
Proof. split; [reflexivity | lia]. Qed.

Lemma strlen_terminated s :
  strlen (s ++ [x00]) = Some (length (c_str_chars s)).
Proof.
  induction s as [|b s IH]; [reflexivity|].
  cbn [app strlen c_str_chars]. destruct (Byte.eqb b x00); [reflexivity|].
  by rewrite IH.
Qed.

Lemma c_str_chars_is_prefix s k :
  take (length (c_str_chars s)) (s ++ k) = c_str_chars s.
Proof.
  induction s as [|b s IH]; [reflexivity|].
  cbn [app c_str_chars]. destruct (Byte.eqb b x00); [reflexivity|].
  cbn [length take]. by rewrite IH.
Qed.

Lemma c_str_chars_length_le s : (length (c_str_chars s) <= length s)%nat.
Proof.
  induction s as [|b s IH]; [done|].
  cbn [c_str_chars]. destruct (Byte.eqb b x00); cbn [length]; lia.
Qed.

Lemma c_str_chars_nul_free s : nul_free s = true -> c_str_chars s = s.
Proof.
  induction s as [|b s IH]; [done|].
  cbn [nul_free c_str_chars]. intros [Hb Hs]%andb_true_iff.
  apply negb_true_iff in Hb. rewrite Hb. by rewrite IH.
Qed.

Lemma nul_free_c_str_chars s : nul_free (c_str_chars s) = true.
Proof.
  induction s as [|b s IH]; [done|].
  cbn [c_str_chars]. destruct (Byte.eqb b x00) eqn:E; [done|].
  cbn [nul_free]. by rewrite E, IH.
Qed.

Lemma c_str_chars_app_nul c k :
  c_str_chars (c ++ x00 :: k) = c_str_chars c.
Proof.
  induction c as [|b c IH]; [done|].
  cbn [app c_str_chars]. destruct (Byte.eqb b x00); [done|]. by rewrite IH.
Qed.

(** What [read_cstr] leaves in the array, seen as a C string. *)
Lemma c_str_chars_buffer c junk :
  c_str_chars (<[length c := x00]> (take (length c + 1) (c ++ junk)))
  = c_str_chars c.
Proof.
  rewrite take_app_add.
  destruct junk as [|j junk].
  - cbn [take]. rewrite app_nil_r.
    by rewrite list_insert_ge by done.
  - replace (take 1 (j :: junk)) with [j] by done.
    rewrite insert_app_r_alt, Nat.sub_diag by done. cbn [insert list_insert].
    by apply c_str_chars_app_nul.
Qed.

Lemma int_uint_roundtrip z :
  0 <= z < 4294967296 -> uint_of_int (int_of_uint z) = z.
Proof.
  intros Hz. unfold uint_of_int, int_of_uint, wrap32.
  destruct (Z.ltb_spec z 2147483648); Z.to_euclidean_division_equations; lia.
Qed.

Lemma int_of_uint_zero z :
  0 <= z < 4294967296 -> (int_of_uint z =? 0) = (z =? 0).
Proof.
  intros Hz. unfold int_of_uint.
  destruct (Z.ltb_spec z 2147483648); [done|].
  destruct (Z.eqb_spec (z - 4294967296) 0), (Z.eqb_spec z 0); lia.
Qed.

Lemma uint_bytes_length le n : length (uint_bytes le n) = 4%nat.
Proof. unfold uint_bytes. destruct le; reflexivity. Qed.

Lemma Z_of_bytes_be_range bs acc :
  0 <= acc -> 0 <= Z_of_bytes_be acc bs < (acc + 1) * 256 ^ Z.of_nat (length bs).
Proof.
  revert acc. induction bs as [|b bs IH]; intros acc Hacc.
  - cbn. lia.
  - cbn [Z_of_bytes_be length]. pose proof (Z_of_byte_range b) as Hb.
    specialize (IH (acc * 256 + Z_of_byte b) ltac:(lia)).
    rewrite Nat2Z.inj_succ, Z.pow_succ_r by lia.
    assert (0 < 256 ^ Z.of_nat (length bs)) by (apply Z.pow_pos_nonneg; lia).
    nia.
Qed.

Lemma uint_of_bytes_range le bs :
  length bs = 4%nat -> 0 <= uint_of_bytes le bs < 4294967296.
Proof.
  intros H. unfold uint_of_bytes.
  pose proof (Z_of_bytes_be_range (if le then rev bs else bs) 0 ltac:(lia)) as R.
  replace (length (if le then rev bs else bs)) with 4%nat in R
    by (destruct le; rewrite ?length_rev; done).
  change ((0 + 1) * 256 ^ Z.of_nat 4) with 4294967296 in R. done.
Qed.

Lemma write_string_good le swap u0 s :
  Z.of_nat (length (c_str_chars s)) < 4294967296 ->
  write_string le u0 s {| wstream := sink; w_need_to_swab := swap |}
  = Ok (Z.of_nat (length (c_str_chars s)))
       {| wstream :=
            {| out_bytes :=
                 on_wire swap 4 (uint_bytes le (Z.of_nat (length (c_str_chars s))))
                 ++ c_str_chars s
                 ++ repeat x00 (Z.to_nat (pad (Z.of_nat (length (c_str_chars s)))));
               out_failbit := false; out_badbit := false |};
          w_need_to_swab := swap |}.
Proof.
  intros Hlen. unfold write_string, write_cstr. rewrite strlen_terminated.
  set (L := length (c_str_chars s)) in *.
  unfold wrap32. rewrite Z.mod_small by lia.
  unfold bind, write_uint. rewrite write_scalar_good; [|unfold block_size; lia|done].
  cbn [wstream out_bytes sink app w_need_to_swab].
  rewrite write_opaque_good; cbn [wstream out_bytes w_need_to_swab].
  - rewrite Nat2Z.id. subst L. rewrite c_str_chars_is_prefix.
    rewrite take_app_length' by (by rewrite uint_bytes_length). reflexivity.
  - lia.
  - rewrite Nat2Z.id, length_app. pose proof (c_str_chars_length_le s). lia.
  - done.
Qed.

Lemma read_uint_block le swap r0 bs rest :
  length bs = 4%nat ->
  read_uint le r0
    {| rstream := {| in_bytes := bs ++ rest; in_failbit := false |};
       r_need_to_swab := swap |}
  = Ok (1, uint_of_bytes le (on_wire swap 4 bs))
       {| rstream := {| in_bytes := rest; in_failbit := false |};
          r_need_to_swab := swap |}.
Proof.
  intros Hbs. unfold read_uint, bind.
  rewrite read_scalar_block by done. unfold ret, on_wire. cbn [fst snd].
  rewrite firstn_all2 by lia. reflexivity.
Qed.

Lemma read_string_enough le swap r0 s0 s_old bs rest :
  length bs = 4%nat ->
  let n := uint_of_bytes le (on_wire swap 4 bs) in
  n <> 4294967295 ->
  n + pad n <= Z.of_nat (length rest) ->
  read_string le r0 s0 s_old
    {| rstream := {| in_bytes := bs ++ rest; in_failbit := false |};
       r_need_to_swab := swap |}
  = Ok (if n =? 0 then 1 else n, c_str_chars (take (Z.to_nat n) rest))
       {| rstream := {| in_bytes := drop (Z.to_nat (n + pad n)) rest;
                        in_failbit := false |};
          r_need_to_swab := swap |}.
Proof.
  intros Hbs n Hmax Hlen.
  assert (0 <= n < 4294967296) as Hn.
  { apply uint_of_bytes_range. unfold on_wire. destruct (_ && _); rewrite ?swab_length; done. }
  pose proof (pad_range n) as Hp.
  unfold read_string, read_cstr, bind. rewrite read_uint_block by done.
  cbn [fst snd]. fold n. change (1 =? 0) with false. cbv beta iota.
  rewrite read_opaque_enough; cbn [rstream in_bytes in_failbit r_need_to_swab];
    [|lia|done|lia].
  unfold wrap32. rewrite Z.mod_small by lia.
  destruct (Z.leb_spec (n + 1) n) as [?|_]; [lia|].
  unfold ret. cbn [fst snd].
  set (i := if n =? 0 then 1 else n).
  assert (0 < i < 4294967296) as Hi by (subst i; destruct (Z.eqb_spec n 0); lia).
  rewrite int_of_uint_zero by lia.
  destruct (Z.eqb_spec i 0) as [?|_]; [lia|].
  rewrite int_uint_roundtrip by lia.
  f_equal. f_equal.
  set (c := take (Z.to_nat n) rest).
  assert (length c = Z.to_nat n) as Hc by (subst c; rewrite length_take; lia).
  (* the array holds the bytes read, then the terminator *)
  rewrite Z2Nat.inj_add, <- Hc by lia.
  change (Z.to_nat 1) with 1%nat.
  apply c_str_chars_buffer.
Qed.

Lemma read_string_short le swap r0 s0 s_old bs rest :
  length bs = 4%nat ->
  let n := uint_of_bytes le (on_wire swap 4 bs) in
  n <> 4294967295 ->
  Z.of_nat (length rest) < n ->
  read_string le r0 s0 s_old
    {| rstream := {| in_bytes := bs ++ rest; in_failbit := false |};
       r_need_to_swab := swap |}
  = Ok (0, s_old)
       {| rstream := {| in_bytes := []; in_failbit := true |};
          r_need_to_swab := swap |}.
Proof.
  intros Hbs n Hmax Hlen.
  assert (0 <= n < 4294967296) as Hn.
  { apply uint_of_bytes_range. unfold on_wire. destruct (_ && _); rewrite ?swab_length; done. }
  unfold read_string, read_cstr, bind. rewrite read_uint_block by done.
  cbn [fst snd]. fold n. change (1 =? 0) with false. cbv beta iota.
  rewrite read_opaque_short; cbn [rstream in_bytes in_failbit r_need_to_swab];
    [|lia|done|lia].
  unfold wrap32. rewrite Z.mod_small by lia.
  destruct (Z.leb_spec (n + 1) n) as [?|_]; [lia|].
  reflexivity.
Qed.

Lemma read_string_no_length le r0 s0 s_old rd :
  in_failbit (rstream rd) = true \/ (length (in_bytes (rstream rd)) < 4)%nat ->
  exists rd', read_string le r0 s0 s_old rd = Ok (0, s_old) rd'.
Proof.
  intros H. unfold read_string, read_cstr, read_uint, bind.
  destruct (read_scalar_fails 4 r0 rd) as (v & rd' & -> & _);
    [unfold block_size; lia
    | destruct H as [H|H]; [by left | right; unfold block_size; lia] |].
  cbn. eauto.
Qed.


Lemma read_opaque_data n rd :
  0 <= n -> in_failbit (rstream rd) = false ->
  (Z.to_nat n <= length (in_bytes (rstream rd)))%nat ->
  exists rd',
    read_opaque n rd
    = Ok (if n =? 0 then 1 else n, take (Z.to_nat n) (in_bytes (rstream rd))) rd'.
Proof.
  intros Hn Hf Hlen. destruct rd as [[bs f] swap].
  cbn [rstream in_bytes in_failbit r_need_to_swab] in *. subst f.
  unfold read_opaque.
  destruct (Z.eqb_spec n 0) as [->|Hn0]; [eexists; reflexivity|].
  cbn [rstream r_need_to_swab].
  pose proof (istream_read_enough (Z.to_nat n) (take (Z.to_nat n) bs)
                (drop (Z.to_nat n) bs)) as E.
  rewrite take_drop in E. rewrite E by (rewrite length_take; lia).
  cbn [in_failbit]. eexists. reflexivity.
Qed.

Lemma read_string_data le swap r0 s0 s_old bs rest :
  length bs = 4%nat ->
  let n := uint_of_bytes le (on_wire swap 4 bs) in
  n <> 4294967295 ->
  n <= Z.of_nat (length rest) ->
  exists rd',
    read_string le r0 s0 s_old
      {| rstream := {| in_bytes := bs ++ rest; in_failbit := false |};
         r_need_to_swab := swap |}
    = Ok (if n =? 0 then 1 else n, c_str_chars (take (Z.to_nat n) rest)) rd'.
Proof.
  intros Hbs n Hmax Hlen.
  assert (0 <= n < 4294967296) as Hn.
  { apply uint_of_bytes_range. unfold on_wire. destruct (_ && _); rewrite ?swab_length; done. }
  unfold read_string, read_cstr, bind. rewrite read_uint_block by done.
  cbn [fst snd]. fold n. change (1 =? 0) with false. cbv beta iota.
  edestruct (read_opaque_data n) as [rd' ->];
    [| |cbn [rstream in_bytes]|]; [lia|done|lia|].
  cbn [rstream in_bytes].
  unfold wrap32. rewrite Z.mod_small by lia.
  destruct (Z.leb_spec (n + 1) n) as [?|_]; [lia|].
  unfold ret. cbn [fst snd].
  set (i := if n =? 0 then 1 else n).
  assert (0 < i < 4294967296) as Hi by (subst i; destruct (Z.eqb_spec n 0); lia).
  rewrite int_of_uint_zero by lia.
  destruct (Z.eqb_spec i 0) as [?|_]; [lia|].
  rewrite int_uint_roundtrip by lia.
  eexists. f_equal. f_equal.
  set (c := take (Z.to_nat n) rest).
  assert (length c = Z.to_nat n) as Hc by (subst c; rewrite length_take; lia).
  rewrite Z2Nat.inj_add, <- Hc by lia.
  change (Z.to_nat 1) with 1%nat.
  apply c_str_chars_buffer.
Qed.

Lemma on_wire_involutive swap sz bs : on_wire swap sz (on_wire swap sz bs) = bs.
Proof. unfold on_wire. destruct (_ && _); [apply swab_involutive | done]. Qed.

Lemma on_wire_length swap sz bs : length (on_wire swap sz bs) = length bs.
Proof. unfold on_wire. destruct (_ && _); [apply swab_length | done]. Qed.

(** C8, as amended: a string without an embedded NUL and shorter than
    UINT_MAX bytes (the empty string included) is read back as written,
    whatever the byte order of the host and the swap flag shared by the writer
    and the reader, the result being the length (1 for the empty string).
    Reading a string yields 0 when the length prefix cannot be read, and, the
    prefix [n] being read (and not UINT_MAX), exactly when fewer than [n]
    bytes follow it. *)
Theorem string_codec :
  (forall le swap u0 r0 s0 s_old s,
     nul_free s = true -> Z.of_nat (length s) < 4294967295 ->
     exists w',
       write_string le u0 s {| wstream := sink; w_need_to_swab := swap |}
       = Ok (Z.of_nat (length s)) w'
       /\ read_string le r0 s0 s_old
            {| rstream := reopen (wstream w'); r_need_to_swab := swap |}
          = Ok (if Z.of_nat (length s) =? 0 then 1 else Z.of_nat (length s), s)
               {| rstream := {| in_bytes := []; in_failbit := false |};
                  r_need_to_swab := swap |})
  /\ (forall le r0 s0 s_old rd,
        in_failbit (rstream rd) = true \/ (length (in_bytes (rstream rd)) < 4)%nat ->
        exists rd', read_string le r0 s0 s_old rd = Ok (0, s_old) rd')
  /\ (forall le swap r0 s0 s_old bs rest,
        length bs = 4%nat ->
        uint_of_bytes le (on_wire swap 4 bs) <> 4294967295 ->
        let rd := {| rstream := {| in_bytes := bs ++ rest; in_failbit := false |};
                     r_need_to_swab := swap |} in
        (Z.of_nat (length rest) < uint_of_bytes le (on_wire swap 4 bs) ->
         exists rd', read_string le r0 s0 s_old rd = Ok (0, s_old) rd')
        /\ (uint_of_bytes le (on_wire swap 4 bs) <= Z.of_nat (length rest) ->
            exists i str rd',
              read_string le r0 s0 s_old rd = Ok (i, str) rd' /\ i <> 0)).
Proof.
  split; [|split].
  - intros le swap u0 r0 s0 s_old s Hnul Hlen.
    pose proof (c_str_chars_nul_free s Hnul) as Hc.
    eexists. split.
    + rewrite <- Hc at 2. apply write_string_good. rewrite Hc. lia.
    + unfold reopen. cbn [wstream out_bytes]. rewrite Hc.
      set (L := Z.of_nat (length s)) in *.
      assert (uint_of_bytes le (on_wire swap 4 (on_wire swap 4 (uint_bytes le L))) = L) as HL.
      { rewrite on_wire_involutive. apply uint_bytes_roundtrip. lia. }
      pose proof (pad_range L) as Hp.
      rewrite read_string_enough;
        rewrite ?on_wire_length, ?uint_bytes_length, ?HL; [|done|lia|].
      * assert (Z.to_nat L = length s) as -> by lia.
        rewrite take_app_length, Hc.
        rewrite drop_ge; [done|].
        rewrite length_app, repeat_length. lia.
      * rewrite length_app, repeat_length. lia.
  - intros le r0 s0 s_old rd H. by apply read_string_no_length.
  - intros le swap r0 s0 s_old bs rest Hbs Hmax rd. split; intros Hlen.
    + eexists. by apply read_string_short.
    + destruct (read_string_data le swap r0 s0 s_old bs rest Hbs Hmax Hlen) as [rd' E].
      do 3 eexists. split; [exact E|].
      destruct (Z.eqb_spec (uint_of_bytes le (on_wire swap 4 bs)) 0); [lia|].
      pose proof (uint_of_bytes_range le (on_wire swap 4 bs)) as R.
      rewrite on_wire_length in R. specialize (R Hbs). lia.
Qed.

Lemma string_codec_witness :
  (exists w',
     write_string true [x00; x00; x00; x00] [x61; x62; x63]
       {| wstream := sink; w_need_to_swab := true |} = Ok 3 w'
     /\ read_string true [] [] []
          {| rstream := reopen (wstream w'); r_need_to_swab := true |}
        = Ok (3, [x61; x62; x63])
             {| rstream := {| in_bytes := []; in_failbit := false |};
                r_need_to_swab := true |})
  /\ (exists rd',
        read_string true [] [] []
          {| rstream := {| in_bytes := [x00; x00; x00; x05; x61];
                           in_failbit := false |};
             r_need_to_swab := true |} = Ok (0, []) rd').
Proof.
  split.
  - apply (proj1 string_codec true true [x00; x00; x00; x00] [] [] []
             [x61; x62; x63]); [reflexivity | simpl; lia].
  - apply (proj1 (proj2 (proj2 string_codec) true true [] [] []
                    [x00; x00; x00; x05] [x61] eq_refl
                    ltac:(vm_compute; discriminate))).
    vm_compute. reflexivity.
Defined.

Lemma string_with_nul_is_truncated :
  exists w' rd',
    write_string true [x00; x00; x00; x00] [x61; x00; x62]
      {| wstream := sink; w_need_to_swab := true |} = Ok 1 w'
    /\ read_string true [] [] []
         {| rstream := reopen (wstream w'); r_need_to_swab := true |}
       = Ok (1, [x61]) rd'
    /\ [x61] <> [x61; x00; x62].
Proof.
  do 2 eexists. split; [cbv; reflexivity|]. split; [cbv; reflexivity | discriminate].
Qed.

Lemma opaque_padding_witness :
  0 <= pad 5 <= 3
  /\ (exists w',
        write_opaque [x61; x62; x63; x64; x65] 5
          {| wstream := sink; w_need_to_swab := true |} = Ok 5 w'
        /\ out_bytes (wstream w')
           = [x61; x62; x63; x64; x65; x00; x00; x00])
  /\ (exists rd',
        read_opaque 5
          {| rstream := {| in_bytes := [x61; x62; x63; x64; x65; x00; x00; x00; x07];
                           in_failbit := false |};
             r_need_to_swab := true |}
        = Ok (5, [x61; x62; x63; x64; x65]) rd'
        /\ in_bytes (rstream rd') = [x07])
  /\ (exists rd',
        read_opaque 5
          {| rstream := {| in_bytes := [x61; x62; x63]; in_failbit := false |};
             r_need_to_swab := true |}
        = Ok (0, [x61; x62; x63]) rd'
        /\ in_failbit (rstream rd') = true)
  /\ (exists rd',
        read_opaque 5
          {| rstream := {| in_bytes := [x61; x62; x63; x64; x65; x00];
                           in_failbit := false |};
             r_need_to_swab := true |}
        = Ok (5, [x61; x62; x63; x64; x65]) rd'
        /\ in_failbit (rstream rd') = true).
Proof.
  destruct (opaque_padding 5 ltac:(lia)) as (Hp & Hw & Hr & Hs & Hc & _).
  split; [exact Hp|]. split; [|split; [|split]].
  - destruct (Hw [x61; x62; x63; x64; x65]
                {| wstream := sink; w_need_to_swab := true |}
                ltac:(simpl; lia) eq_refl) as (w' & E & B & _).
    exists w'. split; [exact E | exact B].
  - destruct (Hr {| rstream := {| in_bytes := [x61; x62; x63; x64; x65; x00; x00; x00; x07];
                                  in_failbit := false |};
                    r_need_to_swab := true |}
                eq_refl ltac:(vm_compute; discriminate)) as (rd' & E & _ & B & _).
    exists rd'. split; [exact E | exact B].
  - destruct (Hs {| rstream := {| in_bytes := [x61; x62; x63]; in_failbit := false |};
                    r_need_to_swab := true |}
                ltac:(lia) eq_refl ltac:(simpl; lia)) as (rd' & E & F).
    exists rd'. split; [exact E | exact F].
  - destruct (Hc {| rstream := {| in_bytes := [x61; x62; x63; x64; x65; x00];
                                  in_failbit := false |};
                    r_need_to_swab := true |}
                ltac:(lia) eq_refl ltac:(vm_compute; split; [discriminate | reflexivity]))
      as (rd' & E & F & _).
    exists rd'. split; [exact E | exact F].
Defined.

(** ** Further properties of the codec *)

(** X1. For a scalar of 1 to 4 bytes, writing it and reading it back through
    a writer and a reader with the same swap flag returns it for every value
    and every content of the writer's block exactly when the type has four
    bytes: the read of a smaller type stores the four-byte block in the
    smaller object, which is undefined. *)
Theorem scalar_roundtrip_iff (sz : nat) (swap : bool) :
  (1 <= sz <= block_size)%nat ->
  (forall u0 r0 v,
     length v = sz -> length u0 = block_size ->
     exists w' rd',
       write_scalar sz u0 v {| wstream := sink; w_need_to_swab := swap |} = Ok 1 w'
       /\ read_scalar sz r0 {| rstream := reopen (wstream w'); r_need_to_swab := swap |}
          = Ok (1, v) rd')
  <-> sz = 4%nat.
Proof.
  intros Hsz. split.
  - intros H. destruct (decide (sz = 4%nat)) as [|Hne]; [done|]. exfalso.
    assert (sz < block_size)%nat as Hlt by (unfold block_size in *; lia).
    destruct (H (List.repeat x00 block_size) [] (List.repeat x00 sz))
      as (w' & rd' & E1 & E2); [apply repeat_length | apply repeat_length |].
    destruct (subword_read_after_write_overruns sz swap
                (List.repeat x00 block_size) [] (List.repeat x00 sz))
      as (w'' & E1' & E2'); [done | apply repeat_length | apply repeat_length |].
    rewrite E1 in E1'. injection E1' as <-. rewrite E2 in E2'. discriminate.
  - intros -> u0 r0 v Hv Hu.
    destruct (scalar_roundtrip_word swap u0 r0 v Hv) as (w' & E1 & E2). eauto.
Qed.

Lemma scalar_roundtrip_iff_witness :
  exists w' rd',
    write_scalar 4 [x00; x00; x00; x00] [x01; x02; x03; x04]
      {| wstream := sink; w_need_to_swab := true |} = Ok 1 w'
    /\ read_scalar 4 [] {| rstream := reopen (wstream w'); r_need_to_swab := true |}
       = Ok (1, [x01; x02; x03; x04]) rd'.
Proof.
  apply (proj2 (scalar_roundtrip_iff 4 true ltac:(unfold block_size; lia))
           eq_refl
           [x00; x00; x00; x00] [] [x01; x02; x03; x04] eq_refl eq_refl).
Defined.

(** X2. The reader's constructor sets the swap flag exactly on a
    little-endian host. The writer's constructors set it on a little-endian
    host and otherwise leave the member as it was: uninitialised. *)
Theorem constructors_set_the_swap_flag (le : bool) :
  (forall s, r_need_to_swab (XDRReader_new le s) = le)
  /\ (forall garbage s,
        w_need_to_swab (XDRWriter_new le garbage s) = if le then true else garbage).
Proof. destruct le; split; reflexivity. Qed.

Lemma on_wire_host_order le n : on_wire le 4 (uint_bytes le n) = uint_bytes_be n.
Proof. destruct le; [apply rev_involutive | reflexivity]. Qed.

(** X3. With the swap flag the byte-order probe gives, the bytes a string
    puts on the wire are the same on both kinds of host: the length most
    significant byte first, the characters, and zero bytes up to a multiple
    of four. *)
Theorem string_wire_format_is_host_independent (le : bool) u0 s :
  nul_free s = true -> Z.of_nat (length s) < 4294967296 ->
  write_string le u0 s {| wstream := sink; w_need_to_swab := le |}
  = Ok (Z.of_nat (length s))
       {| wstream :=
            {| out_bytes := uint_bytes_be (Z.of_nat (length s)) ++ s
                              ++ repeat x00 (Z.to_nat (pad (Z.of_nat (length s))));
               out_failbit := false; out_badbit := false |};
          w_need_to_swab := le |}.
Proof.
  intros Hnul Hlen. pose proof (c_str_chars_nul_free s Hnul) as Hc.
  pose proof (write_string_good le le u0 s) as E. rewrite Hc in E.
  rewrite E by done. by rewrite on_wire_host_order.
Qed.

Lemma string_wire_format_is_host_independent_witness :
  write_string true [x00; x00; x00; x00] [x61; x62; x63]
    {| wstream := sink; w_need_to_swab := true |}
  = Ok 3 {| wstream :=
              {| out_bytes := [x00; x00; x00; x03; x61; x62; x63; x00];
                 out_failbit := false; out_badbit := false |};
            w_need_to_swab := true |}.
Proof.
  apply (string_wire_format_is_host_independent true [x00; x00; x00; x00]
           [x61; x62; x63]); [reflexivity | simpl; lia].
Defined.

(** X4. A scalar read from a stream that has failed, or that holds fewer
    than four bytes and no more than the type has, returns 0 and leaves the
    stream failed; every later read returns 0 as well and changes nothing. *)
Theorem failed_read_is_sticky (sz : nat) r0 rd :
  (sz <= block_size)%nat ->
  in_failbit (rstream rd) = true
  \/ ((length (in_bytes (rstream rd)) < block_size)%nat
      /\ (length (in_bytes (rstream rd)) <= sz)%nat) ->
  exists v rd',
    read_scalar sz r0 rd = Ok (0, v) rd'
    /\ in_failbit (rstream rd') = true
    /\ forall r1, exists v', read_scalar sz r1 rd' = Ok (0, v') rd'.
Proof.
  intros Hsz H.
  destruct (read_scalar_fails sz r0 rd Hsz H) as (v & rd' & E & F).
  exists v, rd'. split; [done|]. split; [done|].
  intros r1.
  destruct (read_scalar_fails sz r1 rd' Hsz (or_introl F)) as (v' & rd'' & E' & _).
  exists v'. rewrite E'. f_equal.
  revert E'. unfold read_scalar.
  destruct (Nat.ltb_spec block_size sz) as [?|_]; [lia|].
  destruct rd' as [[bs f] swap]. cbn [rstream in_failbit r_need_to_swab] in *. subst f.
  unfold istream_read. cbn [in_failbit length].
  destruct (Nat.ltb_spec sz 0) as [?|_]; [lia|].
  intros E'. by injection E' as _ <-.
Qed.

Lemma failed_read_is_sticky_witness :
  (exists v rd',
     read_scalar 4 [x00; x00; x00; x00]
       {| rstream := {| in_bytes := [x01; x02]; in_failbit := false |};
          r_need_to_swab := false |} = Ok (0, v) rd'
     /\ in_failbit (rstream rd') = true)
  /\ (exists v rd',
        read_scalar 2 [x00; x00]
          {| rstream := {| in_bytes := [x01]; in_failbit := false |};
             r_need_to_swab := true |} = Ok (0, v) rd'
        /\ in_failbit (rstream rd') = true).
Proof.
  split.
  - destruct (failed_read_is_sticky 4 [x00; x00; x00; x00]
                {| rstream := {| in_bytes := [x01; x02]; in_failbit := false |};
                   r_need_to_swab := false |}
                ltac:(unfold block_size; lia)
                ltac:(right; unfold block_size; simpl; lia)) as (v & rd' & E & F & _).
    exists v, rd'. split; [exact E | exact F].
  - destruct (failed_read_is_sticky 2 [x00; x00]
                {| rstream := {| in_bytes := [x01]; in_failbit := false |};
                   r_need_to_swab := true |}
                ltac:(unfold block_size; lia)
                ltac:(right; unfold block_size; simpl; lia)) as (v & rd' & E & F & _).
    exists v, rd'. split; [exact E | exact F].
Defined.

(** X5. On a stream whose failbit is set (and badbit is not) nothing is
    written; the scalar writer nevertheless returns 1, since it tests [bad()],
    whereas the opaque writer returns 0. *)
Theorem writes_on_a_failed_stream (w : XDRWriter) :
  out_failbit (wstream w) = true -> out_badbit (wstream w) = false ->
  (forall sz u0 p, (sz <= block_size)%nat -> write_scalar sz u0 p w = Ok 1 w)
  /\ (forall p n, (Z.to_nat n <= length p)%nat -> write_opaque p n w = Ok 0 w).
Proof.
  intros Hf Hb. destruct w as [[bs f b] swap].
  cbn [wstream out_failbit out_badbit] in *. subst f b. split.
  - intros sz u0 p Hsz. unfold write_scalar.
    destruct (Nat.ltb_spec block_size sz) as [?|_]; [lia|]. reflexivity.
  - intros p n Hn. unfold write_opaque.
    destruct (Nat.ltb_spec (length p) (Z.to_nat n)) as [?|_]; [lia|]. reflexivity.
Qed.

Lemma writes_on_a_failed_stream_witness :
  write_scalar 4 [x00; x00; x00; x00] [x01; x02; x03; x04]
    {| wstream := {| out_bytes := []; out_failbit := true; out_badbit := false |};
       w_need_to_swab := false |}
  = Ok 1 {| wstream := {| out_bytes := []; out_failbit := true; out_badbit := false |};
            w_need_to_swab := false |}.
Proof.
  apply (proj1 (writes_on_a_failed_stream
                  {| wstream := {| out_bytes := []; out_failbit := true;
                                   out_badbit := false |};
                     w_need_to_swab := false |} eq_refl eq_refl)).
  unfold block_size. lia.
Defined.

Lemma write_array_words swap u0 : forall elems i pre,
  Forall (fun v => length v = 4%nat) elems ->
  write_array_from elems (length elems) 4 u0 i
    {| wstream := {| out_bytes := pre; out_failbit := false; out_badbit := false |};
       w_need_to_swab := swap |}
  = Ok (i + Z.of_nat (length elems))
       {| wstream := {| out_bytes := pre ++ concat (map (on_wire swap 4) elems);
                        out_failbit := false; out_badbit := false |};
          w_need_to_swab := swap |}.
Proof.
  induction elems as [|v elems IH]; intros i pre Hall.
  - cbn. unfold ret. by rewrite Z.add_0_r, app_nil_r.
  - inversion Hall as [|? ? Hv Hrest]; subst.
    cbn [write_array_from length]. unfold bind.
    rewrite write_scalar_good
      by first [unfold block_size; lia | reflexivity].
    cbn [wstream out_bytes w_need_to_swab]. change (1 =? 0) with false. cbv iota.
    rewrite take_app_length' by done.
    rewrite IH by done. cbn [map concat]. rewrite <- app_assoc.
    f_equal. lia.
Qed.

Lemma read_array_words swap r0 : forall elems i stored rest,
  Forall (fun v => length v = 4%nat) elems ->
  read_array_from (length elems) 4 r0 i stored
    {| rstream := {| in_bytes := concat (map (on_wire swap 4) elems) ++ rest;
                     in_failbit := false |};
       r_need_to_swab := swap |}
  = Ok (i + Z.of_nat (length elems), stored ++ elems)
       {| rstream := {| in_bytes := rest; in_failbit := false |};
          r_need_to_swab := swap |}.
Proof.
  induction elems as [|v elems IH]; intros i stored rest Hall.
  - cbn. unfold ret. by rewrite Z.add_0_r, app_nil_r.
  - inversion Hall as [|? ? Hv Hrest]; subst.
    cbn [read_array_from length map concat]. unfold bind.
    rewrite <- app_assoc.
    rewrite read_scalar_block
      by first [unfold block_size; lia | by rewrite on_wire_length].
    cbn [fst snd]. change (1 =? 0) with false. cbv iota.
    rewrite firstn_all2 by (rewrite on_wire_length; lia).
    fold (on_wire swap 4 (on_wire swap 4 v)). rewrite on_wire_involutive.
    rewrite IH by done. rewrite <- app_assoc. cbn [app].
    do 2 f_equal. lia.
Qed.

(** X6. An array of four-byte elements written with the array writer
    occupies four bytes per element and is read back unchanged by the array
    reader, both returning the number of elements. *)
Theorem word_array_roundtrip (swap : bool) u0 r0 (elems : list (list byte)) :
  Forall (fun v => length v = 4%nat) elems ->
  exists w',
    write_array elems 4 u0 (Z.of_nat (length elems))
      {| wstream := sink; w_need_to_swab := swap |}
    = Ok (Z.of_nat (length elems)) w'
    /\ Z.of_nat (length (out_bytes (wstream w'))) = 4 * Z.of_nat (length elems)
    /\ read_array 4 r0 (Z.of_nat (length elems))
         {| rstream := reopen (wstream w'); r_need_to_swab := swap |}
       = Ok (Z.of_nat (length elems), elems)
            {| rstream := {| in_bytes := []; in_failbit := false |};
               r_need_to_swab := swap |}.
Proof.
  intros Hall. unfold write_array, read_array. rewrite Nat2Z.id.
  eexists. split; [|split].
  - unfold sink. rewrite write_array_words by done. reflexivity.
  - cbn [wstream out_bytes app].
    clear -Hall. induction Hall as [|v l Hv _ IH]; [done|].
    cbn [map concat length]. rewrite length_app, on_wire_length, Hv. lia.
  - unfold reopen. cbn [wstream out_bytes app].
    rewrite <- (app_nil_r (concat _)).
    rewrite read_array_words by done. reflexivity.
Qed.

Lemma word_array_roundtrip_witness :
  exists w',
    write_array [[x01; x02; x03; x04]; [x05; x06; x07; x08]] 4
      (fun _ => [x00; x00; x00; x00]) 2
      {| wstream := sink; w_need_to_swab := true |} = Ok 2 w'
    /\ read_array 4 (fun _ => []) 2
         {| rstream := reopen (wstream w'); r_need_to_swab := true |}
       = Ok (2, [[x01; x02; x03; x04]; [x05; x06; x07; x08]])
            {| rstream := {| in_bytes := []; in_failbit := false |};
               r_need_to_swab := true |}.
Proof.
  destruct (word_array_roundtrip true (fun _ => [x00; x00; x00; x00]) (fun _ => [])
              [[x01; x02; x03; x04]; [x05; x06; x07; x08]]
              ltac:(repeat constructor)) as (w' & E1 & _ & E2).
  exists w'. split; [exact E1 | exact E2].
Defined.

(** X7. When the stream holds fewer complete words than the array reader
    is asked for, it returns the number of words that were there, having
    stored them, and leaves the stream failed. *)
Theorem array_read_stops_at_the_first_short_read (swap : bool) r0
    (elems : list (list byte)) (tail : list byte) (n : Z) :
  Forall (fun v => length v = 4%nat) elems ->
  (length tail < 4)%nat ->
  Z.of_nat (length elems) < n ->
  exists stored rd',
    read_array 4 r0 n
      {| rstream := {| in_bytes := concat elems ++ tail; in_failbit := false |};
         r_need_to_swab := swap |}
    = Ok (Z.of_nat (length elems), stored) rd'
    /\ take (length elems) stored = map (on_wire swap 4) elems
    /\ in_failbit (rstream rd') = true.
Proof.
  intros Hall Htail Hn. unfold read_array.
  replace (Z.to_nat n) with (length elems + S (Z.to_nat n - S (length elems)))%nat by lia.
  set (more := (Z.to_nat n - S (length elems))%nat). clearbody more.
  assert (forall l i stored,
            Forall (fun v => length v = 4%nat) l ->
            exists last rd',
              read_array_from (length l + S more) 4 r0 i stored
                {| rstream := {| in_bytes := concat l ++ tail; in_failbit := false |};
                   r_need_to_swab := swap |}
              = Ok (i + Z.of_nat (length l),
                    stored ++ map (on_wire swap 4) l ++ [last]) rd'
              /\ in_failbit (rstream rd') = true) as H.
  { induction l as [|v l IH]; intros i stored Hl.
    - cbn [length Nat.add read_array_from concat app map]. unfold bind.
      destruct (read_scalar_fails 4 (r0 i)
                  {| rstream := {| in_bytes := tail; in_failbit := false |};
                     r_need_to_swab := swap |}) as (v & rd' & -> & F);
        [unfold block_size; lia | right; cbn; unfold block_size; lia |].
      cbn [fst snd]. change (0 =? 0) with true. cbv iota. unfold ret.
      exists v, rd'. by rewrite Z.add_0_r.
    - inversion Hl as [|? ? Hv Hrest]; subst.
      cbn [length Nat.add read_array_from concat map]. unfold bind.
      rewrite <- app_assoc.
      rewrite read_scalar_block by first [unfold block_size; lia | done].
      cbn [fst snd]. change (1 =? 0) with false. cbv iota.
      rewrite firstn_all2 by lia. fold (on_wire swap 4 v).
      destruct (IH (i + 1) (stored ++ [on_wire swap 4 v]) Hrest) as (last & rd' & E & F).
      rewrite E. exists last, rd'. split; [|done].
      rewrite <- app_assoc. cbn [app]. do 2 f_equal. lia. }
  destruct (H elems 0 [] Hall) as (last & rd' & E & F).
  rewrite E. cbn [app]. do 2 eexists. split; [reflexivity|]. split; [|done].
  rewrite take_app_length'; [done | by rewrite length_map].
Qed.

Lemma array_read_stops_at_the_first_short_read_witness :
  exists stored rd',
    read_array 4 (fun _ => [x00; x00; x00; x00]) 3
      {| rstream := {| in_bytes := concat [[x01; x02; x03; x04]] ++ [x05; x06];
                       in_failbit := false |};
         r_need_to_swab := false |}
    = Ok (1, stored) rd'.
Proof.
  destruct (array_read_stops_at_the_first_short_read false
              (fun _ => [x00; x00; x00; x00]) [[x01; x02; x03; x04]] [x05; x06] 3
              ltac:(repeat constructor) ltac:(simpl; lia) ltac:(simpl; lia))
    as (stored & rd' & E & _).
  exists stored, rd'. exact E.
Defined.

End XDRFacts.

(** * Properties of the parmtop reader *)


Module ISSFacts.
Import ISS.

Lemma sentry_str s : str (snd (sentry s)) = str s.
Proof.
  unfold sentry. destruct (negb (good s)); [reflexivity|].
  destruct (skipws (rest s)); reflexivity.
Qed.

Lemma get_char_str c0 s : str (snd (get_char c0 s)) = str s.
Proof.
  unfold get_char. pose proof (sentry_str s) as H.
  destruct (sentry s) as [[] s']; cbn [snd] in *; [|done].
  destruct (rest s'); done.
Qed.

Lemma get_int_str v0 s : str (snd (get_int v0 s)) = str s.
Proof.
  unfold get_int. pose proof (sentry_str s) as H.
  destruct (sentry s) as [[] s']; cbn [snd] in *; [|done].
  destruct (match rest s' with
            | String "-"%char r => (true, r)
            | String "+"%char r => (false, r)
            | r => (false, r)
            end) as [neg body].
  destruct (digits 0 false body) as [[mag seen] r].
  destruct (negb seen); [done|].
  destruct (INT_MAX <? _); [done|]. destruct (_ <? INT_MIN); done.
Qed.

Lemma seekg0_clear s : seekg0 (clear s) = open (str s).
Proof. reflexivity. Qed.

End ISSFacts.

Module ParmtopFacts.
Import Parmtop.
Import Fixtures.

Section Facts.
Context `{C : Collaborators}.

Lemma scan_repeat_str fs : ISS.str (snd (scan_repeat fs)) = ISS.str (snd fs).
Proof.
  unfold scan_repeat. pose proof (ISSFacts.get_int_str (repeat (fst fs)) (snd fs)).
  by destruct (ISS.get_int _ _).
Qed.
Lemma scan_type_str fs : ISS.str (snd (scan_type fs)) = ISS.str (snd fs).
Proof.
  unfold scan_type. pose proof (ISSFacts.get_char_str (type (fst fs)) (snd fs)).
  by destruct (ISS.get_char _ _).
Qed.
Lemma scan_width_str fs : ISS.str (snd (scan_width fs)) = ISS.str (snd fs).
Proof.
  unfold scan_width. pose proof (ISSFacts.get_int_str (width (fst fs)) (snd fs)).
  by destruct (ISS.get_int _ _).
Qed.
Lemma scan_period_str fs : ISS.str (snd (scan_period fs)) = ISS.str (snd fs).
Proof. apply ISSFacts.get_char_str. Qed.
Lemma scan_precision_str fs : ISS.str (snd (scan_precision fs)) = ISS.str (snd fs).
Proof.
  unfold scan_precision. pose proof (ISSFacts.get_int_str (precision (fst fs)) (snd fs)).
  by destruct (ISS.get_int _ _).
Qed.

Lemma rewind_fresh fs : rewind fs = (fst fs, ISS.open (ISS.str (snd fs))).
Proof. reflexivity. Qed.

Lemma grammar_nXw_d_str fs : ISS.str (snd (grammar_nXw_d fs)) = ISS.str (snd fs).
Proof.
  unfold grammar_nXw_d.
  by rewrite scan_precision_str, scan_period_str, scan_width_str, scan_type_str,
    scan_repeat_str.
Qed.
Lemma grammar_nXw_str fs : ISS.str (snd (grammar_nXw fs)) = ISS.str (snd fs).
Proof.
  unfold grammar_nXw. by rewrite scan_width_str, scan_type_str, scan_repeat_str.
Qed.
Lemma grammar_Xw_str fs : ISS.str (snd (grammar_Xw fs)) = ISS.str (snd fs).
Proof. unfold grammar_Xw. by rewrite scan_width_str, scan_type_str. Qed.

Lemma scan_format_first_match f0 tok :
  scan_format (f0, ISS.open tok) = first_match f0 tok.
Proof.
  unfold scan_format, first_match.
  set (g1 := grammar_nXw_d (f0, ISS.open tok)).
  assert (ISS.str g1.2 = tok) as H1 by (subst g1; by rewrite grammar_nXw_d_str).
  rewrite (rewind_fresh g1), H1.
  set (g2 := grammar_nXw (g1.1, ISS.open tok)).
  assert (ISS.str g2.2 = tok) as H2 by (subst g2; by rewrite grammar_nXw_str).
  rewrite (rewind_fresh g2), H2.
  set (g3 := grammar_Xw (g2.1, ISS.open tok)).
  assert (ISS.str g3.2 = tok) as H3 by (subst g3; by rewrite grammar_Xw_str).
  rewrite (rewind_fresh g3), H3.
  destruct (ISS.fail g1.2), (ISS.fail g2.2), (ISS.fail g3.2); try reflexivity.
  cbn [negb]. destruct (ISS.fail _); reflexivity.
Qed.

Lemma scan_format_20I8 f0 :
  scan_format (f0, ISS.open "20I8")
  = Some {| repeat := 20; type := "I"; width := 8; precision := precision f0 |}.
Proof. reflexivity. Qed.

Lemma scan_format_5E16_8 f0 :
  scan_format (f0, ISS.open "5E16.8")
  = Some {| repeat := 5; type := "E"; width := 16; precision := 8 |}.
Proof. reflexivity. Qed.

Lemma scan_format_a4 f0 :
  scan_format (f0, ISS.open "a4")
  = Some {| repeat := 0; type := "a"; width := 4; precision := precision f0 |}.
Proof. reflexivity. Qed.

Lemma scan_format_a f0 :
  scan_format (f0, ISS.open "a")
  = Some {| repeat := 0; type := "a"; width := width f0; precision := precision f0 |}.
Proof. reflexivity. Qed.

Lemma scan_format_blank f0 : scan_format (f0, ISS.open " ") = None.
Proof. reflexivity. Qed.

Lemma is_expected_spec expected_types c :
  is_expected expected_types c = true
  <-> In c (list_ascii_of_string expected_types).
Proof.
  unfold is_expected. rewrite existsb_exists. split.
  - intros (x & Hin & E). apply Ascii.eqb_eq in E. by subst x.
  - intros Hin. exists c. split; [done | apply Ascii.eqb_refl].
Qed.

Lemma parseFormat_tagged expected_types where_ (a : Amber) :
  let rd := snd (getNext (reader a)) in
  let a1 := set_reader rd a in
  substring 0 7 (line rd) = "%FORMAT"%string ->
  parseFormat expected_types where_ a
  = match ISS.tokenize "()" (line rd) with
    | _ :: tok :: _ =>
        match scan_format (new_FormatSpec, ISS.open tok) with
        | None => Throw (FileParseError ("Cannot parse format for " ++ where_)
                           (lineNumber rd)) a1
        | Some fmt =>
            if is_expected expected_types (type fmt)
            then Ok fmt a1
            else Throw (FileParseError ("Invalid format type for " ++ where_)
                          (lineNumber rd)) a1
        end
    | _ => UB
    end.
Proof.
  intros rd a1 Htag.
  unfold parseFormat, bind, reader_getNext, get. subst a1 rd.
  destruct (getNext (reader a)) as [b r]. cbn [snd reader set_reader] in *.
  rewrite Htag. rewrite String.eqb_refl. cbn [negb].
  destruct (ISS.tokenize "()" (line r)) as [|t0 [|tok more]]; [done..|].
  destruct (scan_format _) as [fmt|]; [|reflexivity].
  destruct (is_expected _ _); reflexivity.
Qed.

(** C4. [parseFormat] tries the grammars nXw.d, nXw, Xw and X in that order,
    each on the whole token between the parentheses, and keeps the fields of
    the first that parses: [(5E16.8)] gives repeat 5, type E, width 16,
    precision 8 by the first, [(20I8)] repeat 20, type I, width 8 by the
    second, [(a4)] type a, width 4 by the third and [(a)] type a by the
    fourth, the failed extraction of the repeat count having stored 0. A
    line that does not carry the %FORMAT tag, or on which no grammar parses,
    is refused with a parse error naming the section; a type outside the
    expected set (the characters of [expected_types]) is refused with the
    invalid-format-type error naming the section. A tagged line without text
    between parentheses is not refused:
    the token after the tag is read where there is none, which is
    undefined. *)
Theorem parseFormat_grammars (expected_types where_ : string) (a : Amber) :
  let rd := snd (getNext (reader a)) in
  let a1 := set_reader rd a in
  (line rd = "%FORMAT(20I8)"%string -> is_expected expected_types "I" = true ->
   parseFormat expected_types where_ a
   = Ok {| repeat := 20; type := "I"; width := 8;
           precision := precision new_FormatSpec |} a1)
  /\ (line rd = "%FORMAT(5E16.8)"%string -> is_expected expected_types "E" = true ->
      parseFormat expected_types where_ a
      = Ok {| repeat := 5; type := "E"; width := 16; precision := 8 |} a1)
  /\ (line rd = "%FORMAT(a4)"%string -> is_expected expected_types "a" = true ->
      parseFormat expected_types where_ a
      = Ok {| repeat := 0; type := "a"; width := 4;
              precision := precision new_FormatSpec |} a1)
  /\ (line rd = "%FORMAT(a)"%string -> is_expected expected_types "a" = true ->
      parseFormat expected_types where_ a
      = Ok {| repeat := 0; type := "a"; width := width new_FormatSpec;
              precision := precision new_FormatSpec |} a1)
  /\ (line rd = "%FORMAT( )"%string ->
      parseFormat expected_types where_ a
      = Throw (FileParseError ("Cannot parse format for " ++ where_)
                 (lineNumber rd)) a1)
  /\ (line rd = "%FORMAT(5E16.8)"%string -> is_expected expected_types "E" = false ->
      parseFormat expected_types where_ a
      = Throw (FileParseError ("Invalid format type for " ++ where_)
                 (lineNumber rd)) a1)
  /\ (substring 0 7 (line rd) <> "%FORMAT"%string ->
      parseFormat expected_types where_ a
      = Throw (FileParseError ("Expected format for " ++ where_) (lineNumber rd)) a1)
  /\ (forall t0 tok more,
        substring 0 7 (line rd) = "%FORMAT"%string ->
        ISS.tokenize "()" (line rd) = t0 :: tok :: more ->
        match first_match new_FormatSpec tok with
        | None =>
            parseFormat expected_types where_ a
            = Throw (FileParseError ("Cannot parse format for " ++ where_)
                       (lineNumber rd)) a1
        | Some fmt =>
            if is_expected expected_types (type fmt)
            then parseFormat expected_types where_ a = Ok fmt a1
            else parseFormat expected_types where_ a
                 = Throw (FileParseError ("Invalid format type for " ++ where_)
                            (lineNumber rd)) a1
        end)
  /\ (substring 0 7 (line rd) = "%FORMAT"%string ->
      (length (ISS.tokenize "()" (line rd)) < 2)%nat ->
      parseFormat expected_types where_ a = UB)
  /\ (line rd = "%FORMAT"%string \/ line rd = "%FORMAT()"%string
      \/ line rd = "%FORMAT 20I8"%string ->
      parseFormat expected_types where_ a = UB)
  /\ (forall c, is_expected expected_types c = true
                <-> In c (list_ascii_of_string expected_types)).
Proof.
  intros rd a1.
  pose proof (parseFormat_tagged expected_types where_ a) as Hgen.
  cbv zeta in Hgen. fold rd in Hgen. fold a1 in Hgen.
  repeat apply conj; try (intros c; apply is_expected_spec).
  - intros Hl He. rewrite Hgen by (by rewrite Hl). rewrite Hl.
    change (ISS.tokenize "()" "%FORMAT(20I8)") with ["%FORMAT"; "20I8"]%string. cbv beta iota.
    rewrite scan_format_20I8. cbn [type]. by rewrite He.
  - intros Hl He. rewrite Hgen by (by rewrite Hl). rewrite Hl.
    change (ISS.tokenize "()" "%FORMAT(5E16.8)") with ["%FORMAT"; "5E16.8"]%string. cbv beta iota.
    rewrite scan_format_5E16_8. cbn [type]. by rewrite He.
  - intros Hl He. rewrite Hgen by (by rewrite Hl). rewrite Hl.
    change (ISS.tokenize "()" "%FORMAT(a4)") with ["%FORMAT"; "a4"]%string. cbv beta iota.
    rewrite scan_format_a4. cbn [type]. by rewrite He.
  - intros Hl He. rewrite Hgen by (by rewrite Hl). rewrite Hl.
    change (ISS.tokenize "()" "%FORMAT(a)") with ["%FORMAT"; "a"]%string. cbv beta iota.
    rewrite scan_format_a. cbn [type]. by rewrite He.
  - intros Hl. rewrite Hgen by (by rewrite Hl). rewrite Hl.
    change (ISS.tokenize "()" "%FORMAT( )") with ["%FORMAT"; " "]%string. cbv beta iota.
    by rewrite scan_format_blank.
  - intros Hl He. rewrite Hgen by (by rewrite Hl). rewrite Hl.
    change (ISS.tokenize "()" "%FORMAT(5E16.8)") with ["%FORMAT"; "5E16.8"]%string. cbv beta iota.
    rewrite scan_format_5E16_8. cbn [type]. by rewrite He.
  - intros Htag.
    unfold parseFormat, bind, reader_getNext, get. subst a1 rd.
    destruct (getNext (reader a)) as [b r]. cbn [snd reader set_reader] in *.
    apply String.eqb_neq in Htag. rewrite Htag. reflexivity.
  - intros t0 tok more Htag Htok.
    rewrite (Hgen Htag), Htok, scan_format_first_match.
    destruct (first_match _ _) as [fmt|]; [|reflexivity].
    destruct (is_expected _ _); reflexivity.
  - intros Htag Hlen. rewrite (Hgen Htag).
    destruct (ISS.tokenize "()" (line rd)) as [|t0 [|tok more]]; [done..|].
    cbn [length] in Hlen. lia.
  - intros [Hl|[Hl|Hl]]; rewrite Hgen by (by rewrite Hl); by rewrite Hl.
Qed.


(** *** What a handler leaves unchanged *)

Section Keeps.
Context (R : Amber -> Amber -> Prop).
Hypothesis R_refl : forall a, R a a.
Hypothesis R_trans : forall a b c, R a b -> R b c -> R a c.

Lemma keeps_ret {A} (x : A) : keeps R (ret x).
Proof. intros a. apply R_refl. Qed.

Lemma keeps_throw {A} e : keeps R (@throw Amber A e).
Proof. intros a. apply R_refl. Qed.

Lemma keeps_undefined {A} : keeps R (@undefined Amber A).
Proof. intros a. exact I. Qed.

Lemma keeps_get : keeps R get.
Proof. intros a. apply R_refl. Qed.

Lemma keeps_vec_at {T} (v : list T) i : keeps R (vec_at v i).
Proof. intros a. unfold vec_at. destruct (at_index v i); [apply R_refl | exact I]. Qed.

Lemma keeps_bind {A B} (m : Amber -> outcome Amber A) (k : A -> Amber -> outcome Amber B) :
  keeps R m -> (forall x, keeps R (k x)) -> keeps R (bind m k).
Proof.
  intros Hm Hk a. unfold bind. specialize (Hm a).
  destruct (m a) as [x a1|e a1|]; [|done..].
  specialize (Hk x a1). destruct (k x a1); eauto.
Qed.

Lemma keeps_modify f : (forall a, R a (f a)) -> keeps R (modify f).
Proof. intros H a. apply H. Qed.

Lemma keeps_for_loop count i body :
  (forall j, keeps R (body j)) -> keeps R (for_loop count i body).
Proof.
  intros Hb. revert i. induction count as [|k IH]; intros i; cbn [for_loop].
  - apply keeps_ret.
  - apply keeps_bind; [apply Hb | intros _; apply IH].
Qed.

End Keeps.

Lemma keeps_weaken {A} (R R' : Amber -> Amber -> Prop) (m : Amber -> outcome Amber A) :
  (forall a a', R a a' -> R' a a') -> keeps R m -> keeps R' m.
Proof. intros H Hm a. specialize (Hm a). destruct (m a); eauto. Qed.

Lemma only_reader_refl a : only_reader a a.
Proof. by destruct a. Qed.

Lemma only_reader_trans a b c : only_reader a b -> only_reader b c -> only_reader a c.
Proof. unfold only_reader. intros -> ->. reflexivity. Qed.

Lemma only_reader_set r a : only_reader a (set_reader r a).
Proof. reflexivity. Qed.

Lemma same_atom_count_refl a : same_atom_count a a.
Proof. by split. Qed.

Lemma same_atom_count_trans a b c :
  same_atom_count a b -> same_atom_count b c -> same_atom_count a c.
Proof. unfold same_atom_count. intros [-> ->] [-> ->]. done. Qed.

Lemma only_reader_same_atom_count a a' : only_reader a a' -> same_atom_count a a'.
Proof. intros ->. by split. Qed.

Lemma atoms_only_reader a a' : only_reader a a' -> atoms a' = atoms a.
Proof. by intros ->. Qed.

Create HintDb frame.
#[local] Hint Resolve only_reader_refl only_reader_trans only_reader_set
  same_atom_count_refl same_atom_count_trans only_reader_same_atom_count : frame.

(** Goals of the form [keeps R m], by the structure of [m]. *)
Ltac frame_step :=
  lazymatch goal with
  | |- keeps _ (bind _ _) => apply keeps_bind
  | |- keeps _ (ret _) => apply keeps_ret
  | |- keeps _ (throw _) => apply keeps_throw
  | |- keeps _ undefined => apply keeps_undefined
  | |- keeps _ get => apply keeps_get
  | |- keeps _ (vec_at _ _) => apply keeps_vec_at
  | |- keeps _ (for_loop _ _ _) => apply keeps_for_loop
  | |- keeps _ (if ?b then _ else _) => destruct b
  | |- keeps _ (match ?x with _ => _ end) => destruct x
  | |- keeps _ (let _ := _ in _) => cbv zeta
  | |- forall _, _ => intro
  | |- _ => solve [eauto with frame]
  end.
Ltac frame := repeat frame_step.

Lemma keeps_reader_getNext : keeps only_reader reader_getNext.
Proof.
  intros a. unfold reader_getNext. destruct (getNext (reader a)). apply only_reader_set.
Qed.

Lemma keeps_readBlock {T} (rb : Z -> LineReader -> outcome LineReader (list T)) w :
  keeps only_reader (readBlock rb w).
Proof.
  intros a. unfold readBlock. destruct (rb w (reader a)); try apply only_reader_set. exact I.
Qed.

Lemma keeps_parseFormat expected_types where_ :
  keeps only_reader (parseFormat expected_types where_).
Proof.
  unfold parseFormat. pose proof keeps_reader_getNext. frame.
Qed.

Lemma keeps_count_parseFormat expected_types where_ :
  keeps same_atom_count (parseFormat expected_types where_).
Proof.
  eapply keeps_weaken; [apply only_reader_same_atom_count | apply keeps_parseFormat].
Qed.

Lemma keeps_count_readBlock {T} (rb : Z -> LineReader -> outcome LineReader (list T)) w :
  keeps same_atom_count (readBlock rb w).
Proof.
  eapply keeps_weaken; [apply only_reader_same_atom_count | apply keeps_readBlock].
Qed.

Lemma keeps_count_reader_getNext : keeps same_atom_count reader_getNext.
Proof.
  eapply keeps_weaken; [apply only_reader_same_atom_count | apply keeps_reader_getNext].
Qed.

Lemma keeps_count_update_atom i f : keeps same_atom_count (update_atom i f).
Proof.
  intros a. unfold update_atom. destruct (at_index (atoms a) i); [|exact I].
  split; [apply length_insert | reflexivity].
Qed.

#[local] Hint Resolve keeps_count_parseFormat keeps_count_readBlock
  keeps_count_reader_getNext keeps_count_update_atom : frame.

Lemma keeps_count_assign_each {T} (setter : T -> Atom double -> Atom double) i v :
  keeps same_atom_count (assign_each setter i v).
Proof.
  revert i. induction v as [|x v IH]; intros i; cbn [assign_each]; frame.
Qed.

Lemma keeps_count_stamp rid rname j : keeps same_atom_count (stamp rid rname j).
Proof. unfold stamp. frame. Qed.

#[local] Hint Resolve keeps_count_assign_each keeps_count_stamp : frame.

Lemma keeps_count_incr_int v : keeps same_atom_count (incr_int v).
Proof. unfold incr_int. frame. Qed.

#[local] Hint Resolve keeps_count_incr_int : frame.

Lemma keeps_count_residue_loop count i rid :
  keeps same_atom_count (residue_loop count i rid).
Proof.
  revert i rid. induction count as [|k IH]; intros i rid; cbn [residue_loop]; frame.
Qed.

#[local] Hint Resolve keeps_count_residue_loop : frame.

Lemma keeps_count_assignResidues : keeps same_atom_count assignResidues.
Proof. unfold assignResidues. frame. Qed.

Lemma keeps_count_bond_atoms ia ib : keeps same_atom_count (bond_atoms ia ib).
Proof. unfold bond_atoms. frame. Qed.

#[local] Hint Resolve keeps_count_bond_atoms : frame.

Lemma keeps_count_bond_loop decode l : keeps same_atom_count (bond_loop decode l).
Proof.
  assert (forall x y, keeps same_atom_count
            (if x =? y then ret tt
             else match decode x, decode y with
                  | Some ia, Some ib => bond_atoms ia ib
                  | _, _ => undefined
                  end)) as Hstep by (intros; frame).
  assert (forall n l, (length l <= n)%nat ->
            keeps same_atom_count (bond_loop decode l)) as Hn.
  { induction n as [|n IH]; intros l' Hl;
      destruct l' as [|x [|y [|z more]]]; cbn [bond_loop length] in *;
      try lia; try (by frame); try apply Hstep.
    apply keeps_bind; [eauto with frame | apply Hstep |].
    intros _. apply IH. lia. }
  by apply (Hn (length l)).
Qed.

#[local] Hint Resolve keeps_count_bond_loop : frame.

Lemma keeps_count_modify f :
  (forall a, atoms (f a) = atoms a /\ natoms (f a) = natoms a) ->
  keeps same_atom_count (modify f).
Proof. intros H a. destruct (H a) as [E1 E2]. split; [by rewrite E1 | done]. Qed.

Lemma keeps_count_handlers :
  keeps same_atom_count parseTitle
  /\ keeps same_atom_count parseAtomNames
  /\ keeps same_atom_count parseCharges
  /\ keeps same_atom_count parseMasses
  /\ keeps same_atom_count parseResidueLabels
  /\ keeps same_atom_count parseResiduePointers
  /\ (forall n, keeps same_atom_count (parseBonds n))
  /\ keeps same_atom_count parseAmoebaRegularBondNumList
  /\ (forall n, keeps same_atom_count (parseAmoebaRegularBondList n)).
Proof.
  pose proof keeps_count_modify as Hm.
  repeat split;
    unfold parseTitle, parseAtomNames, parseCharges, parseMasses, parseResidueLabels,
      parseResiduePointers, parseBonds, parseAmoebaRegularBondNumList,
      parseAmoebaRegularBondList;
    frame.
Qed.


Lemma parseFormat_only_reader expected_types where_ a fmt a1 :
  parseFormat expected_types where_ a = Ok fmt a1 -> a1 = set_reader (reader a1) a.
Proof.
  intros H. pose proof (keeps_parseFormat expected_types where_ a) as K.
  by rewrite H in K.
Qed.

Lemma size_check_throws {T} (rb : Z -> LineReader -> outcome LineReader (list T))
    (where_ expected_types msg : string) (count : list T -> Amber -> bool)
    (k : list T -> Amber -> outcome Amber unit) a fmt a1 v r2 :
  parseFormat expected_types where_ a = Ok fmt a1 ->
  rb (width fmt) (reader a1) = Ok v r2 ->
  count v (set_reader r2 a) = false ->
  (fmt <- parseFormat expected_types where_ ;;
   v <- readBlock rb (width fmt) ;;
   s <- get ;;
   if negb (count v s)
   then throw (FileParseError msg (lineNumber (reader s)))
   else k v) a
  = Throw (FileParseError msg (lineNumber r2)) (set_reader r2 a).
Proof.
  intros H1 H2 H3. unfold bind at 1. rewrite H1.
  rewrite (parseFormat_only_reader _ _ _ _ _ H1) in *.
  unfold bind at 1. unfold readBlock. cbn [reader set_reader] in *. rewrite H2.
  unfold bind, get. cbn [set_reader reader] in *.
  change (set_reader r2 (set_reader (reader a1) a)) with (set_reader r2 a).
  rewrite H3. reflexivity.
Qed.

(** C7. When the block read for ATOM_NAME, CHARGE or MASS does not have as
    many elements as there are atoms, the handler throws its parse error with
    the atom records as they were (only the line cursor has moved); and no
    handler other than that of POINTERS, nor [assignResidues], changes the
    number of atom records or [natoms]. *)
Theorem section_size_enforced (a : Amber) :
  (forall fmt a1 names r2,
     parseFormat "a" "atom names" a = Ok fmt a1 ->
     readBlock_string (width fmt) (reader a1) = Ok names r2 ->
     Z.of_nat (length names) <> natoms a ->
     parseAtomNames a
     = Throw (FileParseError "Error parsing atom names" (lineNumber r2))
         (set_reader r2 a))
  /\ (forall fmt a1 charges r2,
        parseFormat "EFG" "charges" a = Ok fmt a1 ->
        readBlock_double (width fmt) (reader a1) = Ok charges r2 ->
        length charges <> length (atoms a) ->
        parseCharges a
        = Throw (FileParseError "Error parsing charges from amber file"
                   (lineNumber r2)) (set_reader r2 a))
  /\ (forall fmt a1 masses r2,
        parseFormat "EFG" "masses" a = Ok fmt a1 ->
        readBlock_double (width fmt) (reader a1) = Ok masses r2 ->
        length masses <> length (atoms a) ->
        parseMasses a
        = Throw (FileParseError "Error parsing masses from amber file"
                   (lineNumber r2)) (set_reader r2 a))
  /\ (forall tag, tag <> "POINTERS"%string ->
        match dispatch tag a with
        | Ok _ a' | Throw _ a' =>
            length (atoms a') = length (atoms a) /\ natoms a' = natoms a
        | UB => True
        end)
  /\ match assignResidues a with
     | Ok _ a' | Throw _ a' =>
         length (atoms a') = length (atoms a) /\ natoms a' = natoms a
     | UB => True
     end.
Proof.
  split; [|split; [|split; [|split]]].
  - intros fmt a1 names r2 H1 H2 H3.
    apply (size_check_throws readBlock_string "atom names" "a"
             "Error parsing atom names"
             (fun v s => Z.of_nat (length v) =? natoms s)
             (fun v => assign_each set_name 0 v) a fmt a1 names r2 H1 H2).
    cbn [natoms set_reader]. by apply Z.eqb_neq.
  - intros fmt a1 charges r2 H1 H2 H3.
    apply (size_check_throws readBlock_double "charges" "EFG"
             "Error parsing charges from amber file"
             (fun v s => (length v =? length (atoms s))%nat)
             (fun v => assign_each set_charge 0 v) a fmt a1 charges r2 H1 H2).
    cbn [atoms set_reader]. by apply Nat.eqb_neq.
  - intros fmt a1 masses r2 H1 H2 H3.
    apply (size_check_throws readBlock_double "masses" "EFG"
             "Error parsing masses from amber file"
             (fun v s => (length v =? length (atoms s))%nat)
             (fun v => assign_each set_mass 0 v) a fmt a1 masses r2 H1 H2).
    cbn [atoms set_reader]. by apply Nat.eqb_neq.
  - intros tag Htag.
    destruct keeps_count_handlers as (K1 & K2 & K3 & K4 & K5 & K6 & K7 & K8 & K9).
    assert (keeps same_atom_count (dispatch tag)) as K.
    { unfold dispatch.
      destruct (String.eqb_spec tag "POINTERS") as [?|_]; [done|].
      repeat match goal with
             | |- keeps _ (if ?b then _ else _) => destruct b
             end; frame. }
    exact (K a).
  - exact (keeps_count_assignResidues a).
Qed.

(** The atoms appended by the loop of [parsePointers]. *)
Lemma push_atoms_run k : forall i a,
  exists l,
    for_loop k i push_atom a = Ok tt (set_atoms (atoms a ++ l) a)
    /\ length l = k
    /\ forall j, (j < k)%nat ->
         l !! j = Some (set_id (wrap32 (i + Z.of_nat j + 1)) new_Atom).
Proof.
  induction k as [|k IH]; intros i a.
  - exists []. cbn [for_loop]. unfold ret. rewrite app_nil_r.
    split; [by destruct a|]. split; [done|]. intros j Hj. lia.
  - cbn [for_loop]. unfold bind at 1. unfold push_atom at 1, modify.
    destruct (IH (i + 1) (set_atoms (atoms a ++ [set_id (wrap32 (i + 1)) new_Atom]) a))
      as (l & E & Hlen & Hl).
    exists (set_id (wrap32 (i + 1)) new_Atom :: l).
    rewrite E. cbn [atoms set_atoms]. rewrite <- app_assoc. cbn [app].
    split; [reflexivity|]. split; [cbn [length]; lia|].
    intros [|j] Hj; cbn [lookup list_lookup].
    + do 3 f_equal. lia.
    + rewrite Hl by lia. do 3 f_equal. lia.
Qed.

(** C9, as amended. With the format line and the pointer block read,
    [parsePointers] throws a logic error when the atom sequence is not empty,
    leaving it as it was; on an empty sequence it appends [natoms]
    default-constructed atoms, the one at position [i] with id [i+1] and
    otherwise as constructed, the counts being the entries 0, 2, 3 and 11
    of the block. When the format line is refused, the error of
    [parseFormat] is thrown, the sequence as it was. Whatever the reading
    steps do, a non-empty sequence is never extended or altered. *)
Theorem parsePointers_builds_atoms (a : Amber) fmt a1 pointers r2 n h m r :
  parseFormat "I" "pointers" a = Ok fmt a1 ->
  readBlock_uint (width fmt) (reader a1) = Ok pointers r2 ->
  at_index pointers 0 = Some n -> at_index pointers 2 = Some h ->
  at_index pointers 3 = Some m -> at_index pointers 11 = Some r ->
  0 <= n < 4294967296 ->
  (atoms a <> [] ->
   parsePointers a
   = Throw (logic_error
       "Internal error: trying to read in an amber parmtop into a non-empty group!")
       (set_counts n h m r (set_reader r2 a)))
  /\ (atoms a = [] ->
      exists a',
        parsePointers a = Ok tt a'
        /\ natoms a' = n /\ nbonh a' = h /\ mbona a' = m /\ nres a' = r
        /\ reader a' = r2
        /\ length (atoms a') = Z.to_nat n
        /\ forall i, (i < Z.to_nat n)%nat ->
             exists x,
               atoms a' !! i = Some x
               /\ id x = Z.of_nat i + 1
               /\ name x = name new_Atom /\ charge x = charge new_Atom
               /\ mass x = mass new_Atom /\ resid x = resid new_Atom
               /\ resname x = resname new_Atom /\ bonds x = bonds new_Atom)
  /\ (forall b e b1,
        parseFormat "I" "pointers" b = Throw e b1 ->
        parsePointers b = Throw e b1 /\ atoms b1 = atoms b)
  /\ (forall b,
        match parsePointers b with
        | Ok _ _ => atoms b = []
        | Throw _ b' => atoms b' = atoms b
        | UB => True
        end).
Proof.
  intros H1 H2 P0 P2 P3 P11 Hn.
  assert (parsePointers a
          = (s <- get ;;
             if negb (length (atoms s) =? 0)%nat
             then throw (logic_error
               "Internal error: trying to read in an amber parmtop into a non-empty group!")
             else for_loop (Z.to_nat (natoms s)) 0 push_atom)
              (set_counts n h m r (set_reader r2 a))) as E.
  { unfold parsePointers. unfold bind at 1. rewrite H1.
    rewrite (parseFormat_only_reader _ _ _ _ _ H1) in *.
    unfold bind at 1. unfold readBlock. cbn [reader set_reader] in *. rewrite H2.
    unfold bind at 1, vec_at at 1. rewrite P0.
    unfold bind at 1, vec_at at 1. rewrite P2.
    unfold bind at 1, vec_at at 1. rewrite P3.
    unfold bind at 1, vec_at at 1. rewrite P11.
    unfold bind at 1, modify. reflexivity. }
  split; [|split; [|split]].
  - intros Hne. rewrite E. unfold bind, get. cbn [atoms set_counts set_reader].
    destruct (atoms a); [done|]. reflexivity.
  - intros Hempty. rewrite E. unfold bind, get. cbn [atoms natoms set_counts set_reader].
    rewrite Hempty. cbn [length Nat.eqb negb].
    destruct (push_atoms_run (Z.to_nat n) 0 (set_counts n h m r (set_reader r2 a)))
      as (l & El & Hlen & Hl).
    eexists. split; [exact El|]. cbn [atoms natoms set_atoms set_counts set_reader].
    rewrite Hempty. cbn [app nbonh mbona nres reader].
    do 6 (split; [done|]).
    intros i Hi. eexists. split; [by apply Hl|]. cbn [id name charge mass resid
      resname bonds set_id].
    split; [|done]. unfold wrap32. rewrite Z.mod_small by lia. lia.
  - intros b e b1 Hb. split.
    + unfold parsePointers. unfold bind at 1. by rewrite Hb.
    + pose proof (keeps_parseFormat "I" "pointers" b) as K. rewrite Hb in K.
      by apply atoms_only_reader.
  - intros b. unfold parsePointers.
    pose proof (keeps_parseFormat "I" "pointers" b) as K1.
    unfold bind at 1. destruct (parseFormat "I" "pointers" b) as [f b1|e b1|];
      cbv beta iota; [|by apply atoms_only_reader|done].
    apply atoms_only_reader in K1.
    pose proof (keeps_readBlock readBlock_uint (width f) b1) as K2.
    unfold bind at 1. destruct (readBlock readBlock_uint (width f) b1) as [v b2|e b2|];
      cbv beta iota; [|apply atoms_only_reader in K2; congruence|done].
    apply atoms_only_reader in K2.
    assert (atoms b2 = atoms b) as Hb by congruence.
    unfold bind at 1, vec_at at 1. destruct (at_index v 0); [|done].
    unfold bind at 1, vec_at at 1. destruct (at_index v 2); [|done].
    unfold bind at 1, vec_at at 1. destruct (at_index v 3); [|done].
    unfold bind at 1, vec_at at 1. destruct (at_index v 11); [|done].
    unfold bind at 1, modify. unfold bind at 1, get.
    cbn [atoms set_counts]. rewrite Hb.
    destruct (atoms b) as [|x l] eqn:Eb; cbn [length Nat.eqb negb].
    + match goal with
      | |- context [for_loop ?k ?i push_atom ?s] =>
          destruct (push_atoms_run k i s) as (l & -> & _)
      end.
      done.
    + unfold throw. cbn [atoms set_counts]. by rewrite Hb.
Qed.


(** *** Bonds *)

Lemma isBoundTo_count x o :
  isBoundTo x o = true <-> (0 < count_occ Nat.eq_dec (bonds x) o)%nat.
Proof.
  unfold isBoundTo. rewrite existsb_exists.
  change (0 < count_occ Nat.eq_dec (bonds x) o)%nat
    with (count_occ Nat.eq_dec (bonds x) o > 0)%nat.
  rewrite <- count_occ_In. split.
  - intros (y & Hy & ->%Nat.eqb_eq). done.
  - intros H. exists o. split; [done | apply Nat.eqb_refl].
Qed.

Lemma isBoundTo_link o x : isBoundTo (link o x) o = true.
Proof.
  unfold link. destruct (isBoundTo x o) eqn:E; cbn [negb]; [done|].
  unfold isBoundTo, addBond. cbn [bonds]. rewrite existsb_app. cbn.
  rewrite Nat.eqb_refl. by rewrite orb_true_r.
Qed.

Lemma link_bound o x : isBoundTo x o = true -> link o x = x.
Proof. intros H. unfold link. by rewrite H. Qed.

Lemma isBoundTo_link_mono o o' x :
  isBoundTo x o' = true -> isBoundTo (link o x) o' = true.
Proof.
  intros H. unfold link. destruct (negb _); [|done].
  unfold isBoundTo, addBond in *. cbn [bonds]. rewrite existsb_app, H. done.
Qed.

Lemma count_link o x :
  count_occ Nat.eq_dec (bonds (link o x)) o
  = Nat.max 1 (count_occ Nat.eq_dec (bonds x) o).
Proof.
  unfold link. destruct (isBoundTo x o) eqn:E; cbn [negb].
  - apply isBoundTo_count in E. lia.
  - assert (count_occ Nat.eq_dec (bonds x) o = 0%nat) as E0.
    { destruct (count_occ Nat.eq_dec (bonds x) o) eqn:Ec; [done|].
      assert (isBoundTo x o = true) by (apply isBoundTo_count; lia). congruence. }
    unfold addBond. cbn [bonds]. rewrite count_occ_app, E0. cbn.
    destruct (Nat.eq_dec o o); [done | congruence].
Qed.

Lemma count_link_other o o' x :
  o <> o' ->
  count_occ Nat.eq_dec (bonds (link o x)) o' = count_occ Nat.eq_dec (bonds x) o'.
Proof.
  intros H. unfold link. destruct (negb _); [|done].
  unfold addBond. cbn [bonds]. rewrite count_occ_app. cbn.
  destruct (Nat.eq_dec o o'); [done | lia].
Qed.

Lemma at_index_nonneg {T} (v : list T) i :
  0 <= i -> at_index v i = v !! Z.to_nat i.
Proof. intros H. unfold at_index. destruct (Z.ltb_spec i 0); [lia | done]. Qed.

Lemma at_index_in_range {T} (v : list T) i :
  0 <= i < Z.of_nat (length v) -> exists x, v !! Z.to_nat i = Some x.
Proof. intros H. apply lookup_lt_is_Some_2. lia. Qed.

Lemma update_atom_run i f a x :
  0 <= i -> atoms a !! Z.to_nat i = Some x ->
  update_atom i f a = Ok tt (set_atoms (<[Z.to_nat i := f x]> (atoms a)) a).
Proof. intros Hi Hx. unfold update_atom. by rewrite at_index_nonneg, Hx by done. Qed.

Lemma bond_atoms_run ia ib a xa xb :
  0 <= ia -> 0 <= ib ->
  atoms a !! Z.to_nat ia = Some xa -> atoms a !! Z.to_nat ib = Some xb ->
  bond_atoms ia ib a
  = Ok tt (set_atoms (bonded (Z.to_nat ia) (Z.to_nat ib) xa xb (atoms a)) a).
Proof.
  intros Ha Hb Hxa Hxb. unfold bond_atoms, bind, get, vec_at.
  rewrite !at_index_nonneg, Hxa, Hxb by done.
  change (fun x : Atom double =>
            if negb (isBoundTo x (Z.to_nat ib)) then addBond (Z.to_nat ib) x else x)
    with (link (Z.to_nat ib)).
  change (fun x : Atom double =>
            if negb (isBoundTo x (Z.to_nat ia)) then addBond (Z.to_nat ia) x else x)
    with (link (Z.to_nat ia)).
  rewrite (update_atom_run ia _ a xa) by done.
  rewrite (update_atom_run ib _ _
             (if decide (Z.to_nat ia = Z.to_nat ib) then link (Z.to_nat ib) xa else xb)).
  - reflexivity.
  - done.
  - cbn [atoms set_atoms]. destruct (decide (Z.to_nat ia = Z.to_nat ib)) as [E|E].
    + rewrite E. apply list_lookup_insert_eq. rewrite <- E.
      by eapply lookup_lt_Some.
    + by rewrite list_lookup_insert_ne.
Qed.

Lemma bonded_lookup_b na nb xa xb l :
  l !! na = Some xa -> l !! nb = Some xb ->
  bonded na nb xa xb l !! nb
  = Some (link na (if decide (na = nb) then link nb xa else xb)).
Proof.
  intros Ha Hb. unfold bonded. apply list_lookup_insert_eq.
  rewrite length_insert. by eapply lookup_lt_Some.
Qed.

Lemma bonded_lookup_a na nb xa xb l :
  l !! na = Some xa -> l !! nb = Some xb ->
  bonded na nb xa xb l !! na
  = Some (if decide (na = nb) then link na (link nb xa) else link nb xa).
Proof.
  intros Ha Hb. pose proof (bonded_lookup_b na nb xa xb l Ha Hb) as Lb.
  destruct (decide (na = nb)) as [E|E].
  - subst na. exact Lb.
  - unfold bonded. rewrite list_lookup_insert_ne by done.
    apply list_lookup_insert_eq. by eapply lookup_lt_Some.
Qed.

Lemma bonded_lookup_other na nb xa xb l j :
  j <> na -> j <> nb -> bonded na nb xa xb l !! j = l !! j.
Proof. intros H1 H2. unfold bonded. by rewrite !list_lookup_insert_ne. Qed.

Lemma bonded_length na nb xa xb l : length (bonded na nb xa xb l) = length l.
Proof. unfold bonded. by rewrite !length_insert. Qed.

Lemma set_atoms_set_atoms l l' a : set_atoms l (set_atoms l' a) = set_atoms l a.
Proof. reflexivity. Qed.



(** *** Residues *)

Lemma set_atoms_same a : set_atoms (atoms a) a = a.
Proof. by destruct a. Qed.

Lemma stamp_run rid rname j a x :
  0 <= j -> atoms a !! Z.to_nat j = Some x ->
  stamp rid rname j a
  = Ok tt (set_atoms (<[Z.to_nat j := stamp_atom rid rname x]> (atoms a)) a).
Proof.
  intros Hj Hx. unfold stamp, bind.
  rewrite (update_atom_run j _ a x) by done.
  rewrite (update_atom_run j _ _ (set_resid rid x)).
  - cbn [atoms set_atoms]. by rewrite list_insert_insert_eq.
  - done.
  - cbn [atoms set_atoms]. apply list_lookup_insert_eq. by eapply lookup_lt_Some.
Qed.

(** A stamping loop whose index expression is the loop variable less [off]. *)
Lemma stamp_loop (f : Z -> Z) (off : Z) rid rname count : forall lo a,
  (forall j, lo <= j < lo + Z.of_nat count -> f j = j - off) ->
  0 <= lo - off ->
  lo - off + Z.of_nat count <= Z.of_nat (length (atoms a)) ->
  exists l,
    for_loop count lo (fun j => stamp rid rname (f j)) a = Ok tt (set_atoms l a)
    /\ length l = length (atoms a)
    /\ forall k,
         l !! k = if (lo - off <=? Z.of_nat k) && (Z.of_nat k <? lo - off + Z.of_nat count)
                  then stamp_atom rid rname <$> atoms a !! k
                  else atoms a !! k.
Proof.
  induction count as [|count IH]; intros lo a Hf H0 Hlen.
  - exists (atoms a). cbn [for_loop]. unfold ret. rewrite set_atoms_same.
    split; [done|]. split; [done|]. intros k.
    destruct (Z.leb_spec (lo - off) (Z.of_nat k)), (Z.ltb_spec (Z.of_nat k) (lo - off + Z.of_nat 0));
      try done; lia.
  - cbn [for_loop]. unfold bind at 1. rewrite Hf by lia.
    destruct (at_index_in_range (atoms a) (lo - off)) as [x Hx]; [lia|].
    rewrite (stamp_run rid rname (lo - off) a x) by done.
    set (a1 := set_atoms (<[Z.to_nat (lo - off) := stamp_atom rid rname x]> (atoms a)) a).
    destruct (IH (lo + 1) a1) as (l & E & Hl & Hk).
    { intros j Hj. apply Hf. lia. }
    { lia. }
    { subst a1. cbn [atoms set_atoms]. rewrite length_insert. lia. }
    exists l. rewrite E. subst a1. cbn [atoms set_atoms] in *.
    rewrite length_insert in Hl.
    split; [done|]. split; [done|]. intros k. rewrite Hk.
    destruct (decide (k = Z.to_nat (lo - off))) as [->|Hne].
    + rewrite list_lookup_insert_eq by (by eapply lookup_lt_Some).
      rewrite Hx.
      destruct (Z.leb_spec (lo + 1 - off) (Z.of_nat (Z.to_nat (lo - off))));
        destruct (Z.leb_spec (lo - off) (Z.of_nat (Z.to_nat (lo - off))));
        destruct (Z.ltb_spec (Z.of_nat (Z.to_nat (lo - off))) (lo - off + Z.of_nat (S count)));
        cbn [andb fmap option_fmap option_map]; try done; lia.
    + rewrite list_lookup_insert_ne by done.
      destruct (Z.leb_spec (lo + 1 - off) (Z.of_nat k));
        destruct (Z.ltb_spec (Z.of_nat k) (lo + 1 - off + Z.of_nat count));
        destruct (Z.leb_spec (lo - off) (Z.of_nat k));
        destruct (Z.ltb_spec (Z.of_nat k) (lo - off + Z.of_nat (S count)));
        cbn [andb]; try done; lia.
Qed.


Lemma vec_at_run {T} (v : list T) i x (a : Amber) :
  0 <= i -> v !! Z.to_nat i = Some x -> vec_at v i a = Ok x a.
Proof. intros Hi Hx. unfold vec_at. by rewrite at_index_nonneg, Hx. Qed.

Lemma residue_loop_run count : forall i a,
  0 <= i ->
  i + Z.of_nat count + 1 = Z.of_nat (length (residue_pointers a)) ->
  length (residue_labels a) = length (residue_pointers a) ->
  Z.of_nat (length (residue_pointers a)) < 2147483648 ->
  Z.of_nat (length (atoms a)) < 4294967296 ->
  ordered_pointers (residue_pointers a) (length (atoms a)) ->
  exists l,
    residue_loop count i i a
    = Ok (i + Z.of_nat count, i + Z.of_nat count) (set_atoms l a)
    /\ length l = length (atoms a)
    /\ forall k,
         (forall r pr pr' name,
            i <= Z.of_nat r < i + Z.of_nat count ->
            residue_pointers a !! r = Some pr ->
            residue_pointers a !! S r = Some pr' ->
            residue_labels a !! r = Some name ->
            pr <= Z.of_nat k + 1 < pr' ->
            l !! k = stamp_atom (Z.of_nat r + 1) name <$> atoms a !! k)
         /\ (forall pi pe,
               residue_pointers a !! Z.to_nat i = Some pi ->
               residue_pointers a !! Z.to_nat (i + Z.of_nat count) = Some pe ->
               Z.of_nat k + 1 < pi \/ pe <= Z.of_nat k + 1 ->
               l !! k = atoms a !! k).
Proof.
  induction count as [|count IH]; intros i a Hi Hcount Hlab Hn Hlen [Hmono Hbound].
  - exists (atoms a). cbn [residue_loop]. unfold ret.
    rewrite set_atoms_same, Z.add_0_r. split; [done|]. split; [done|].
    intros k. split; [intros; lia | done].
  - destruct (lookup_lt_is_Some_2 (residue_pointers a) (Z.to_nat i)) as [lo Hlo]; [lia|].
    destruct (lookup_lt_is_Some_2 (residue_pointers a) (S (Z.to_nat i))) as [hi Hhi]; [lia|].
    destruct (lookup_lt_is_Some_2 (residue_labels a) (Z.to_nat i)) as [name Hname]; [lia|].
    pose proof (Hbound _ _ Hlo) as Blo. pose proof (Hbound _ _ Hhi) as Bhi.
    pose proof (Hmono _ _ _ _ (Nat.le_succ_diag_r _) Hlo Hhi) as Mlohi.
    cbn [residue_loop]. unfold bind at 1. unfold incr_int, ISS.INT_MAX.
    destruct (Z.eqb_spec i 2147483647) as [?|_]; [lia|]. unfold ret at 1.
    unfold bind at 1. unfold get at 1.
    unfold bind at 1. rewrite (vec_at_run _ i name) by done.
    unfold bind at 1. rewrite (vec_at_run _ i lo) by done.
    unfold bind at 1. unfold wrap32 at 1. rewrite (Z.mod_small (i + 1)) by lia.
    rewrite (vec_at_run _ (i + 1) hi)
      by (first [lia | replace (Z.to_nat (i + 1)) with (S (Z.to_nat i)) by lia; done]).
    unfold bind at 1.
    destruct (stamp_loop (fun j => wrap32 (j - 1)) 1 (i + 1) name (Z.to_nat (hi - lo)) lo a)
      as (l1 & E1 & Hl1 & Hk1).
    { intros j Hj. unfold wrap32. apply Z.mod_small. lia. }
    { lia. }
    { lia. }
    rewrite E1.
    set (a1 := set_atoms l1 a).
    destruct (IH (i + 1) a1) as (l & E & Hl & Hk).
    { lia. }
    { subst a1. cbn [residue_pointers set_atoms]. lia. }
    { by subst a1. }
    { by subst a1. }
    { subst a1. cbn [atoms set_atoms]. lia. }
    { subst a1. cbn [atoms set_atoms residue_pointers]. rewrite Hl1. by split. }
    exists l. rewrite E. subst a1. cbn [atoms set_atoms residue_pointers residue_labels] in *.
    split; [do 2 f_equal; lia|]. split; [congruence|].
    intros k. destruct (Hk k) as [Hstamp Hsame].
    assert (Z.to_nat (i + 1) = S (Z.to_nat i)) as Ei1 by lia.
    rewrite Ei1 in Hsame.
    assert (forall q, (q < lo \/ hi <= q) ->
              ((lo - 1 <=? q - 1) && (q - 1 <? lo - 1 + Z.of_nat (Z.to_nat (hi - lo))) = false))
      as Hout.
    { intros q Hq. destruct (Z.leb_spec (lo - 1) (q - 1)); [|done].
      destruct (Z.ltb_spec (q - 1) (lo - 1 + Z.of_nat (Z.to_nat (hi - lo)))); [lia | done]. }
    split.
    + intros r pr pr' rname Hr Hpr Hpr' Hrname Hin.
      destruct (decide (Z.of_nat r = i)) as [Er|Er].
      * (* the residue of this iteration *)
        assert (r = Z.to_nat i) as -> by lia.
        assert (pr = lo) as -> by congruence.
        assert (pr' = hi) as -> by congruence.
        assert (rname = name) as -> by congruence.
        destruct (lookup_lt_is_Some_2 (residue_pointers a)
                    (Z.to_nat (i + 1 + Z.of_nat count))) as [pe Hpe]; [lia|].
        rewrite (Hsame hi pe Hhi Hpe) by lia.
        rewrite Hk1.
        destruct (Z.leb_spec (lo - 1) (Z.of_nat k));
          destruct (Z.ltb_spec (Z.of_nat k) (lo - 1 + Z.of_nat (Z.to_nat (hi - lo))));
          cbn [andb]; try lia.
        do 2 f_equal. lia.
      * (* a later residue *)
        rewrite (Hstamp r pr pr' rname) by (done || lia).
        rewrite Hk1.
        pose proof (Hmono (S (Z.to_nat i)) r hi pr ltac:(lia) Hhi Hpr) as M.
        replace (Z.of_nat k) with (Z.of_nat k + 1 - 1) at 1 2 by lia.
        by rewrite Hout by lia.
    + intros pi pe Hpi Hpe Hk'.
      assert (pi = lo) as -> by congruence.
      replace (i + Z.of_nat (S count)) with (i + 1 + Z.of_nat count) in Hpe by lia.
      pose proof (Hmono (S (Z.to_nat i)) (Z.to_nat (i + 1 + Z.of_nat count)) hi pe
                    ltac:(lia) Hhi Hpe) as M.
      rewrite (Hsame hi pe Hhi Hpe) by lia.
      rewrite Hk1.
      replace (Z.of_nat k) with (Z.of_nat k + 1 - 1) at 1 2 by lia.
      by rewrite Hout by lia.
Qed.


Lemma assignResidues_ten (a : Amber) x0 x1 x2 x3 x4 x5 x6 x7 x8 x9 l0 l1 l2 :
  atoms a = [x0; x1; x2; x3; x4; x5; x6; x7; x8; x9] ->
  natoms a = 10 -> nres a = 3 ->
  residue_labels a = [l0; l1; l2] -> residue_pointers a = [1; 5; 9] ->
  assignResidues a
  = Ok tt (set_atoms
             [stamp_atom 1 l0 x0; stamp_atom 1 l0 x1; stamp_atom 1 l0 x2;
              stamp_atom 1 l0 x3; stamp_atom 2 l1 x4; stamp_atom 2 l1 x5;
              stamp_atom 2 l1 x6; stamp_atom 2 l1 x7; stamp_atom 3 l2 x8;
              stamp_atom 3 l2 x9] a).
Proof.
  intros Ha Hn Hr Hl Hp. destruct a as [rd ats n h m r labs ptrs t am].
  cbn [atoms natoms nres residue_labels residue_pointers] in *. subst.
  reflexivity.
Qed.

(** C1, as amended. With one label and one pointer per residue, the pointers
    non-decreasing 1-based positions, [assignResidues] gives every atom whose
    1-based position lies in [pointer[r], pointer[r+1]) the residue id [r+1]
    and the name [label[r]], for the residues before the last; every atom
    from [pointer[n-1]] to the end of the atom sequence gets the id [n] and
    the last label; atoms before the first pointer are left alone. For ten
    atoms and pointers [1, 5, 9]: atoms 1-4 get id 1 and the first label,
    atoms 5-8 id 2 and the second, atoms 9-10 id 3 and the third. *)
Theorem assignResidues_stamps (a : Amber) :
  (1 <= nres a < 2147483648 ->
   Z.of_nat (length (residue_pointers a)) = nres a ->
   Z.of_nat (length (residue_labels a)) = nres a ->
   natoms a = Z.of_nat (length (atoms a)) ->
   Z.of_nat (length (atoms a)) < 4294967296 ->
   ordered_pointers (residue_pointers a) (length (atoms a)) ->
   exists a',
     assignResidues a = Ok tt a'
     /\ a' = set_atoms (atoms a') a
     /\ length (atoms a') = length (atoms a)
     /\ forall k x0, atoms a !! k = Some x0 ->
          (forall r pr pr' name,
             residue_pointers a !! r = Some pr ->
             residue_pointers a !! S r = Some pr' ->
             residue_labels a !! r = Some name ->
             pr <= Z.of_nat k + 1 < pr' ->
             atoms a' !! k = Some (stamp_atom (Z.of_nat r + 1) name x0))
          /\ (forall pl name,
                residue_pointers a !! Z.to_nat (nres a - 1) = Some pl ->
                residue_labels a !! Z.to_nat (nres a - 1) = Some name ->
                pl <= Z.of_nat k + 1 ->
                atoms a' !! k = Some (stamp_atom (nres a) name x0))
          /\ (forall p0,
                residue_pointers a !! 0%nat = Some p0 ->
                Z.of_nat k + 1 < p0 ->
                atoms a' !! k = Some x0))
  /\ (forall x0 x1 x2 x3 x4 x5 x6 x7 x8 x9 l0 l1 l2,
        atoms a = [x0; x1; x2; x3; x4; x5; x6; x7; x8; x9] ->
        natoms a = 10 -> nres a = 3 ->
        residue_labels a = [l0; l1; l2] -> residue_pointers a = [1; 5; 9] ->
        assignResidues a
        = Ok tt (set_atoms
                   [stamp_atom 1 l0 x0; stamp_atom 1 l0 x1; stamp_atom 1 l0 x2;
                    stamp_atom 1 l0 x3; stamp_atom 2 l1 x4; stamp_atom 2 l1 x5;
                    stamp_atom 2 l1 x6; stamp_atom 2 l1 x7; stamp_atom 3 l2 x8;
                    stamp_atom 3 l2 x9] a)).
Proof.
  split; [|apply assignResidues_ten].
  intros Hn Hp Hlab Hnat Hlen Hord. pose proof Hord as [Hmono Hbound].
  set (n := nres a) in *.
  destruct (lookup_lt_is_Some_2 (residue_pointers a) (Z.to_nat (n - 1))) as [pl Hpl]; [lia|].
  destruct (lookup_lt_is_Some_2 (residue_labels a) (Z.to_nat (n - 1))) as [lname Hlname]; [lia|].
  destruct (lookup_lt_is_Some_2 (residue_pointers a) 0) as [p0 Hp0]; [lia|].
  pose proof (Hbound _ _ Hpl) as Bpl.
  destruct (residue_loop_run (Z.to_nat (n - 1)) 0 a) as (l1 & E1 & Hl1 & Hk1);
    [lia | lia | lia | lia | lia | done |].
  rewrite Z.add_0_l, Z2Nat.id in E1 by lia.
  destruct (stamp_loop (fun j => j) 0 n lname (Z.to_nat (natoms a - (pl - 1))) (pl - 1)
              (set_atoms l1 a)) as (l2 & E2 & Hl2 & Hk2).
  { intros; lia. }
  { lia. }
  { cbn [atoms set_atoms]. lia. }
  cbn [atoms set_atoms] in *.
  exists (set_atoms l2 a). split; [|split; [done|split; [cbn [atoms set_atoms]; congruence|]]].
  - unfold assignResidues. unfold bind at 1. unfold get at 1.
    fold n. rewrite Hp, Hlab, Z.eqb_refl. cbn [andb negb].
    unfold bind at 1. unfold wrap32 at 1. rewrite (Z.mod_small (n - 1)) by lia.
    rewrite E1. cbn [fst snd].
    unfold bind at 1. unfold incr_int, ISS.INT_MAX.
    destruct (Z.eqb_spec (n - 1) 2147483647) as [?|_]; [lia|]. unfold ret at 1.
    replace (n - 1 + 1) with n by lia.
    unfold bind at 1. rewrite (vec_at_run _ (n - 1) lname) by (lia || done).
    unfold bind at 1. rewrite (vec_at_run _ (n - 1) pl) by (lia || done).
    unfold wrap32. rewrite (Z.mod_small (pl - 1)) by lia.
    exact E2.
  - cbn [atoms set_atoms]. intros k x0 Hx0.
    pose proof (lookup_lt_Some _ _ _ Hx0) as Hk.
    destruct (Hk1 k) as [Hstamp Hsame].
    rewrite Z.add_0_l, Z2Nat.id in Hsame by lia.
    change (Z.to_nat 0) with 0%nat in Hsame.
    assert (forall q, q < pl ->
              (pl - 1 - 0 <=? q - 1) && (q - 1 <? pl - 1 - 0
                 + Z.of_nat (Z.to_nat (natoms a - (pl - 1)))) = false) as Hbelow.
    { intros q Hq. destruct (Z.leb_spec (pl - 1 - 0) (q - 1)); [lia | done]. }
    split; [|split].
    + intros r pr pr' rname Hpr Hpr' Hrname Hin.
      pose proof (lookup_lt_Some _ _ _ Hpr') as Hr.
      pose proof (Hmono (S r) (Z.to_nat (n - 1)) pr' pl ltac:(lia) Hpr' Hpl) as M.
      rewrite Hk2. replace (Z.of_nat k) with (Z.of_nat k + 1 - 1) at 1 2 by lia.
      rewrite Hbelow by lia.
      rewrite (Hstamp r pr pr' rname) by (done || lia). by rewrite Hx0.
    + intros pl' name' Hpl' Hname' Hge.
      assert (pl' = pl) as -> by congruence.
      assert (name' = lname) as -> by congruence.
      rewrite Hk2.
      destruct (Z.leb_spec (pl - 1 - 0) (Z.of_nat k)); [|lia].
      destruct (Z.ltb_spec (Z.of_nat k)
                  (pl - 1 - 0 + Z.of_nat (Z.to_nat (natoms a - (pl - 1))))); [|lia].
      cbn [andb]. rewrite (Hsame p0 pl Hp0 Hpl) by lia. by rewrite Hx0.
    + intros p0' Hp0' Hlt. assert (p0' = p0) as -> by congruence.
      pose proof (Hmono 0%nat (Z.to_nat (n - 1)) p0 pl ltac:(lia) Hp0 Hpl) as M.
      rewrite Hk2. replace (Z.of_nat k) with (Z.of_nat k + 1 - 1) at 1 2 by lia.
      rewrite Hbelow by lia.
      rewrite (Hsame p0 pl Hp0 Hpl) by lia. done.
Qed.

Lemma assignResidues_without_residue (a : Amber) :
  nres a = 0 -> residue_labels a = [] -> residue_pointers a = [] ->
  assignResidues a = UB.
Proof.
  intros Hn Hl Hp.
  unfold assignResidues, bind, get. rewrite Hn, Hl, Hp.
  change (Z.of_nat (length []) =? 0) with true. cbn [andb negb].
  change (wrap32 (0 - 1)) with 4294967295.
  destruct (Z.to_nat 4294967295) as [|k] eqn:Ek; [lia|].
  cbn [residue_loop]. unfold bind, incr_int, get, ret.
  change (0 =? ISS.INT_MAX) with false. cbv beta iota.
  rewrite Hl. reflexivity.
Qed.

(** C10. With no residue declared and empty label and pointer arrays, the
    size check of [assignResidues] passes (nothing is thrown), the loop bound
    [nres-1] wraps to 4294967295, and the first iteration indexes the empty
    label array: the behaviour is undefined. *)
Theorem assignResidues_zero_residues (a : Amber) :
  nres a = 0 -> residue_labels a = [] -> residue_pointers a = [] ->
  wrap32 (nres a - 1) = 4294967295
  /\ (forall e a', assignResidues a <> Throw e a')
  /\ assignResidues a = UB.
Proof.
  intros Hn Hl Hp.
  pose proof (assignResidues_without_residue a Hn Hl Hp) as E.
  split; [by rewrite Hn|]. split; [|exact E].
  intros e a'. rewrite E. discriminate.
Qed.

(** ** Further properties of the reader *)

(** X8. Whether it returns or throws, [parseFormat] changes nothing of the
    object but the line cursor. *)
Theorem parseFormat_moves_only_the_cursor (expected_types where_ : string) (a : Amber) :
  match parseFormat expected_types where_ a with
  | Ok _ a' | Throw _ a' => a' = set_reader (reader a') a
  | UB => True
  end.
Proof. exact (keeps_parseFormat expected_types where_ a). Qed.

Lemma assign_each_run {T} (setter : T -> Atom double -> Atom double) :
  forall (v : list T) i a,
    0 <= i ->
    i + Z.of_nat (length v) <= Z.of_nat (length (atoms a)) ->
    exists l,
      assign_each setter i v a = Ok tt (set_atoms l a)
      /\ length l = length (atoms a)
      /\ forall k,
           (forall x, (Z.to_nat i <= k)%nat -> v !! (k - Z.to_nat i)%nat = Some x ->
                      l !! k = setter x <$> atoms a !! k)
           /\ ((k < Z.to_nat i)%nat -> l !! k = atoms a !! k).
Proof.
  induction v as [|y v IH]; intros i a Hi Hlen.
  - exists (atoms a). cbn [assign_each]. unfold ret. rewrite set_atoms_same.
    split; [done|]. split; [done|]. intros k. split; [|done].
    intros x _ Hx. by rewrite lookup_nil in Hx.
  - cbn [length] in Hlen. cbn [assign_each]. unfold bind.
    destruct (at_index_in_range (atoms a) i) as [xi Hxi]; [lia|].
    rewrite (update_atom_run i _ a xi) by done.
    set (a1 := set_atoms (<[Z.to_nat i := setter y xi]> (atoms a)) a).
    destruct (IH (i + 1) a1) as (l & E & Hl & Hk).
    { lia. }
    { subst a1. cbn [atoms set_atoms]. rewrite length_insert. lia. }
    rewrite E. subst a1. cbn [atoms set_atoms] in *. rewrite length_insert in Hl.
    exists l. split; [done|]. split; [done|]. intros k.
    destruct (Hk k) as [Hin Hbelow].
    replace (Z.to_nat (i + 1)) with (S (Z.to_nat i)) in * by lia.
    split.
    + intros x Hik Hx.
      destruct (decide (k = Z.to_nat i)) as [->|Hne].
      * rewrite Nat.sub_diag in Hx. cbn in Hx. injection Hx as ->.
        rewrite Hbelow by lia.
        rewrite list_lookup_insert_eq by (by eapply lookup_lt_Some).
        by rewrite Hxi.
      * replace (k - Z.to_nat i)%nat with (S (k - S (Z.to_nat i))) in Hx by lia.
        cbn in Hx. rewrite (Hin x) by (lia || done).
        by rewrite list_lookup_insert_ne.
    + intros Hk'. rewrite Hbelow by lia. by rewrite list_lookup_insert_ne by lia.
Qed.

Lemma per_atom_section {T} (rb : Z -> LineReader -> outcome LineReader (list T))
    (setter : T -> Atom double -> Atom double)
    (where_ expected_types msg : string) (count : list T -> Amber -> bool)
    a fmt a1 v r2 :
  parseFormat expected_types where_ a = Ok fmt a1 ->
  rb (width fmt) (reader a1) = Ok v r2 ->
  count v (set_reader r2 a) = true ->
  length v = length (atoms a) ->
  exists a',
    (fmt <- parseFormat expected_types where_ ;;
     v <- readBlock rb (width fmt) ;;
     s <- get ;;
     if negb (count v s)
     then throw (FileParseError msg (lineNumber (reader s)))
     else assign_each setter 0 v) a = Ok tt a'
    /\ a' = set_atoms (atoms a') (set_reader r2 a)
    /\ length (atoms a') = length (atoms a)
    /\ forall k y x, v !! k = Some y -> atoms a !! k = Some x ->
         atoms a' !! k = Some (setter y x).
Proof.
  intros H1 H2 H3 H4. unfold bind at 1. rewrite H1.
  rewrite (parseFormat_only_reader _ _ _ _ _ H1) in *.
  unfold bind at 1. unfold readBlock. cbn [reader set_reader] in *. rewrite H2.
  unfold bind, get. cbn [set_reader reader] in *.
  change (set_reader r2 (set_reader (reader a1) a)) with (set_reader r2 a).
  rewrite H3. cbn [negb].
  destruct (assign_each_run setter v 0 (set_reader r2 a)) as (l & E & Hl & Hk);
    [lia | cbn [atoms set_reader]; lia |].
  rewrite E. cbn [atoms set_reader set_atoms] in *.
  eexists. split; [reflexivity|]. cbn [atoms set_atoms]. split; [done|]. split; [done|].
  intros k y x Hy Hx. destruct (Hk k) as [Hin _].
  rewrite (Hin y) by (lia || by rewrite Nat.sub_0_r). by rewrite Hx.
Qed.

(** X9. When the block read has one element per atom, ATOM_NAME, CHARGE
    and MASS set the name, charge or mass of the atom at each position to
    the element at that position, change no other attribute, and keep the
    number of atoms. *)
Theorem per_atom_sections_assign (a : Amber) :
  (forall fmt a1 names r2,
     parseFormat "a" "atom names" a = Ok fmt a1 ->
     readBlock_string (width fmt) (reader a1) = Ok names r2 ->
     Z.of_nat (length names) = natoms a ->
     length names = length (atoms a) ->
     exists a',
       parseAtomNames a = Ok tt a'
       /\ a' = set_atoms (atoms a') (set_reader r2 a)
       /\ length (atoms a') = length (atoms a)
       /\ forall k y x, names !! k = Some y -> atoms a !! k = Some x ->
            exists x',
              atoms a' !! k = Some x'
              /\ name x' = y
              /\ id x' = id x /\ charge x' = charge x /\ mass x' = mass x
              /\ resid x' = resid x /\ resname x' = resname x
              /\ bonds x' = bonds x)
  /\ (forall fmt a1 charges r2,
        parseFormat "EFG" "charges" a = Ok fmt a1 ->
        readBlock_double (width fmt) (reader a1) = Ok charges r2 ->
        length charges = length (atoms a) ->
        exists a',
          parseCharges a = Ok tt a'
          /\ a' = set_atoms (atoms a') (set_reader r2 a)
          /\ length (atoms a') = length (atoms a)
          /\ forall k y x, charges !! k = Some y -> atoms a !! k = Some x ->
               exists x',
                 atoms a' !! k = Some x'
                 /\ charge x' = y
                 /\ id x' = id x /\ name x' = name x /\ mass x' = mass x
                 /\ resid x' = resid x /\ resname x' = resname x
                 /\ bonds x' = bonds x)
  /\ (forall fmt a1 masses r2,
        parseFormat "EFG" "masses" a = Ok fmt a1 ->
        readBlock_double (width fmt) (reader a1) = Ok masses r2 ->
        length masses = length (atoms a) ->
        exists a',
          parseMasses a = Ok tt a'
          /\ a' = set_atoms (atoms a') (set_reader r2 a)
          /\ length (atoms a') = length (atoms a)
          /\ forall k y x, masses !! k = Some y -> atoms a !! k = Some x ->
               exists x',
                 atoms a' !! k = Some x'
                 /\ mass x' = y
                 /\ id x' = id x /\ name x' = name x /\ charge x' = charge x
                 /\ resid x' = resid x /\ resname x' = resname x
                 /\ bonds x' = bonds x).
Proof.
  split; [|split].
  - intros fmt a1 names r2 H1 H2 H3 H4.
    destruct (per_atom_section readBlock_string set_name "atom names" "a"
                "Error parsing atom names"
                (fun v s => Z.of_nat (length v) =? natoms s) a fmt a1 names r2 H1 H2)
      as (a' & E & Ea & Hl & Hk); [|done|].
    { cbn [natoms set_reader]. by apply Z.eqb_eq. }
    exists a'. split; [exact E|]. split; [done|]. split; [done|].
    intros k y x Hy Hx. exists (set_name y x).
    split; [by apply (Hk k y x) | by repeat split].
  - intros fmt a1 charges r2 H1 H2 H3.
    destruct (per_atom_section readBlock_double set_charge "charges" "EFG"
                "Error parsing charges from amber file"
                (fun v s => (length v =? length (atoms s))%nat) a fmt a1 charges r2 H1 H2)
      as (a' & E & Ea & Hl & Hk); [|done|].
    { cbn [atoms set_reader]. by apply Nat.eqb_eq. }
    exists a'. split; [exact E|]. split; [done|]. split; [done|].
    intros k y x Hy Hx. exists (set_charge y x).
    split; [by apply (Hk k y x) | by repeat split].
  - intros fmt a1 masses r2 H1 H2 H3.
    destruct (per_atom_section readBlock_double set_mass "masses" "EFG"
                "Error parsing masses from amber file"
                (fun v s => (length v =? length (atoms s))%nat) a fmt a1 masses r2 H1 H2)
      as (a' & E & Ea & Hl & Hk); [|done|].
    { cbn [atoms set_reader]. by apply Nat.eqb_eq. }
    exists a'. split; [exact E|]. split; [done|]. split; [done|].
    intros k y x Hy Hx. exists (set_mass y x).
    split; [by apply (Hk k y x) | by repeat split].
Qed.

(** X10. RESIDUE_LABEL and RESIDUE_POINTER store the block they read in
    the object before comparing its size with the residue count: on a
    mismatch the parse error is thrown with the block already stored. *)
Theorem residue_sections_store_before_checking (a : Amber) :
  (forall fmt a1 labels r2,
     parseFormat "a" "residue labels" a = Ok fmt a1 ->
     readBlock_string (width fmt) (reader a1) = Ok labels r2 ->
     parseResidueLabels a
     = (if Z.of_nat (length labels) =? nres a
        then Ok tt
        else Throw (FileParseError "Error parsing residue labels from amber file"
                      (lineNumber r2)))
         (set_residue_labels labels (set_reader r2 a)))
  /\ (forall fmt a1 pointers r2,
        parseFormat "I" "residue pointers" a = Ok fmt a1 ->
        readBlock_uint (width fmt) (reader a1) = Ok pointers r2 ->
        parseResiduePointers a
        = (if Z.of_nat (length pointers) =? nres a
           then Ok tt
           else Throw (FileParseError "Error parsing residue pointers from amber file"
                         (lineNumber r2)))
            (set_residue_pointers pointers (set_reader r2 a))).
Proof.
  split.
  - intros fmt a1 labels r2 H1 H2. unfold parseResidueLabels.
    unfold bind at 1. rewrite H1.
    rewrite (parseFormat_only_reader _ _ _ _ _ H1) in *.
    unfold bind at 1. unfold readBlock. cbn [reader set_reader] in *. rewrite H2.
    unfold bind, modify, get.
    cbn [set_reader reader residue_labels set_residue_labels nres].
    change (set_reader r2 (set_reader (reader a1) a)) with (set_reader r2 a).
    by destruct (Z.of_nat (length labels) =? nres a).
  - intros fmt a1 pointers r2 H1 H2. unfold parseResiduePointers.
    unfold bind at 1. rewrite H1.
    rewrite (parseFormat_only_reader _ _ _ _ _ H1) in *.
    unfold bind at 1. unfold readBlock. cbn [reader set_reader] in *. rewrite H2.
    unfold bind, modify, get.
    cbn [set_reader reader residue_pointers set_residue_pointers nres].
    change (set_reader r2 (set_reader (reader a1) a)) with (set_reader r2 a).
    by destruct (Z.of_nat (length pointers) =? nres a).
Qed.

Lemma isBoundTo_link_eq o o' x :
  isBoundTo (link o x) o' = isBoundTo x o' || Nat.eqb o' o.
Proof.
  unfold link. destruct (isBoundTo x o) eqn:E; cbn [negb].
  - destruct (Nat.eqb_spec o' o) as [->|_]; [by rewrite E | by rewrite orb_false_r].
  - unfold isBoundTo, addBond. cbn [bonds]. rewrite existsb_app. cbn.
    by rewrite orb_false_r.
Qed.

Lemma NoDup_link o x : NoDup (bonds x) -> NoDup (bonds (link o x)).
Proof.
  intros H. unfold link. destruct (isBoundTo x o) eqn:E; cbn [negb]; [done|].
  unfold addBond. cbn [bonds]. apply NoDup_app. split; [done|]. split.
  - intros y Hy Hin. apply list_elem_of_singleton in Hin. subst y.
    assert (isBoundTo x o = true); [|congruence].
    unfold isBoundTo. apply existsb_exists. exists o.
    split; [by apply list_elem_of_In | apply Nat.eqb_refl].
  - apply NoDup_singleton.
Qed.

Lemma bonded_lookup na nb xa xb l k :
  l !! na = Some xa -> l !! nb = Some xb ->
  bonded na nb xa xb l !! k
  = (fun x => if decide (k = nb)
              then link na (if decide (k = na) then link nb x else x)
              else if decide (k = na) then link nb x else x) <$> l !! k.
Proof.
  intros Ha Hb. destruct (decide (k = nb)) as [->|Hnb].
  - rewrite (bonded_lookup_b _ _ _ _ _ Ha Hb), Hb. cbn.
    destruct (decide (na = nb)) as [E|E], (decide (nb = na)) as [E'|E'];
      congruence.
  - destruct (decide (k = na)) as [->|Hna].
    + rewrite (bonded_lookup_a _ _ _ _ _ Ha Hb), Ha. cbn.
      destruct (decide (na = nb)); [done | done].
    + rewrite bonded_lookup_other by done. by destruct (l !! k).
Qed.

Lemma bonded_sound na nb xa xb l :
  l !! na = Some xa -> l !! nb = Some xb ->
  symmetric_bonds l /\ duplicate_free l ->
  symmetric_bonds (bonded na nb xa xb l) /\ duplicate_free (bonded na nb xa xb l).
Proof.
  intros Ha Hb [Hs Hd]. split.
  - intros i j yi yj Hi Hj.
    rewrite (bonded_lookup _ _ _ _ _ _ Ha Hb) in Hi.
    rewrite (bonded_lookup _ _ _ _ _ _ Ha Hb) in Hj.
    destruct (l !! i) as [xi|] eqn:Ei; [|done].
    destruct (l !! j) as [xj|] eqn:Ej; [|done].
    cbn in Hi, Hj. injection Hi as <-. injection Hj as <-.
    pose proof (Hs i j xi xj Ei Ej) as Hij.
    destruct (decide (i = nb)), (decide (i = na)), (decide (j = nb)), (decide (j = na));
      subst; rewrite ?isBoundTo_link_eq, ?Nat.eqb_refl, ?Hij,
        ?orb_true_r; try reflexivity;
      repeat match goal with
             | H : ?x <> ?y |- context [Nat.eqb ?x ?y] =>
                 rewrite (proj2 (Nat.eqb_neq x y) H)
             | H : ?y <> ?x |- context [Nat.eqb ?x ?y] =>
                 rewrite (proj2 (Nat.eqb_neq x y) (not_eq_sym H))
             end;
      rewrite ?orb_false_r; try reflexivity; try congruence.
  - intros i y Hi. rewrite (bonded_lookup _ _ _ _ _ _ Ha Hb) in Hi.
    destruct (l !! i) as [xi|] eqn:Ei; [|done]. cbn in Hi. injection Hi as <-.
    pose proof (Hd i xi Ei).
    destruct (decide (i = nb)), (decide (i = na));
      repeat apply NoDup_link; done.
Qed.

Lemma bonds_stay_sound_refl a : bonds_stay_sound a a.
Proof. by intros H. Qed.

Lemma bonds_stay_sound_trans a b c :
  bonds_stay_sound a b -> bonds_stay_sound b c -> bonds_stay_sound a c.
Proof. unfold bonds_stay_sound. tauto. Qed.

Lemma only_reader_bonds_stay_sound a a' : only_reader a a' -> bonds_stay_sound a a'.
Proof. intros -> H. exact H. Qed.

Lemma keeps_sound_bond_atoms ia ib : keeps bonds_stay_sound (bond_atoms ia ib).
Proof.
  intros a.
  destruct (at_index (atoms a) ia) as [xa|] eqn:Ea; cycle 1.
  { unfold bond_atoms, bind, get, vec_at. by rewrite Ea. }
  destruct (at_index (atoms a) ib) as [xb|] eqn:Eb; cycle 1.
  { unfold bond_atoms, bind, get, vec_at. by rewrite Ea, Eb. }
  unfold at_index in Ea, Eb.
  destruct (Z.ltb_spec ia 0); [done|]. destruct (Z.ltb_spec ib 0); [done|].
  rewrite (bond_atoms_run ia ib a xa xb) by done.
  intros Hsound. cbn [atoms set_atoms]. by apply bonded_sound.
Qed.

Lemma keeps_bond_loop (R : Amber -> Amber -> Prop) decode :
  (forall a, R a a) -> (forall a b c, R a b -> R b c -> R a c) ->
  (forall ia ib, keeps R (bond_atoms ia ib)) ->
  forall l, keeps R (bond_loop decode l).
Proof.
  intros Hrefl Htrans Hb.
  assert (forall x y, keeps R
            (if x =? y then ret tt
             else match decode x, decode y with
                  | Some ia, Some ib => bond_atoms ia ib
                  | _, _ => undefined
                  end)) as Hstep.
  { intros x y. destruct (x =? y); [by apply keeps_ret|].
    destruct (decode x), (decode y); try apply keeps_undefined. apply Hb. }
  assert (forall n l, (length l <= n)%nat -> keeps R (bond_loop decode l)) as Hn.
  { induction n as [|n IH]; intros l' Hl;
      destruct l' as [|x [|y [|z more]]]; cbn [bond_loop length] in *;
      try lia; try (by apply keeps_ret); try apply keeps_undefined; try apply Hstep.
    apply keeps_bind; [done | apply Hstep |].
    intros _. apply IH. lia. }
  intros l. by apply (Hn (length l)).
Qed.

Lemma block_of_cons x y z ts : block_of ((x, y, z) :: ts) = x :: y :: z :: block_of ts.
Proof. reflexivity. Qed.

Lemma block_of_length ts : length (block_of ts) = (3 * length ts)%nat.
Proof.
  induction ts as [|[[x y] z] ts IH]; [done|].
  rewrite block_of_cons. cbn [length]. lia.
Qed.

Lemma bond_loop_cons decode x y z l a :
  bond_loop decode (x :: y :: z :: l) a
  = match (if x =? y then Ok tt a
           else match decode x, decode y with
                | Some ia, Some ib => bond_atoms ia ib a
                | _, _ => UB
                end) with
    | Ok _ a1 => bond_loop decode l a1
    | Throw e a1 => Throw e a1
    | UB => UB
    end.
Proof.
  cbn [bond_loop]. unfold bind, ret, undefined.
  destruct (x =? y); [done|].
  destruct (decode x), (decode y); done.
Qed.

Lemma bond_loop_pairs decode ts ts' a :
  map fst ts = map fst ts' ->
  bond_loop decode (block_of ts) a = bond_loop decode (block_of ts') a.
Proof.
  revert ts' a. induction ts as [|[[x y] z] ts IH]; intros [|[[x' y'] z'] ts'] a H;
    try discriminate; [done|].
  cbn [map fst] in H. injection H as -> -> H.
  rewrite !block_of_cons, !bond_loop_cons.
  destruct (if x' =? y' then _ else _) as [[] a1|e a1|]; [|done..].
  by apply IH.
Qed.

Lemma bonds_aside_refl x : bonds_aside x x.
Proof. by repeat split. Qed.

Lemma bonds_aside_trans x y z : bonds_aside x y -> bonds_aside y z -> bonds_aside x z.
Proof. unfold bonds_aside. intuition congruence. Qed.

Lemma bonds_aside_link o x : bonds_aside x (link o x).
Proof. unfold link. destruct (negb _); by repeat split. Qed.

Lemma count_link_at o x j :
  count_occ Nat.eq_dec (bonds (link o x)) j
  = if Nat.eqb j o then Nat.max 1 (count_occ Nat.eq_dec (bonds x) j)
    else count_occ Nat.eq_dec (bonds x) j.
Proof.
  destruct (Nat.eqb_spec j o) as [->|H].
  - apply count_link.
  - apply count_link_other. congruence.
Qed.

Lemma bonded_atom na nb xa xb l i x0 :
  l !! na = Some xa -> l !! nb = Some xb -> l !! i = Some x0 ->
  exists x1,
    bonded na nb xa xb l !! i = Some x1
    /\ bonds_aside x0 x1
    /\ (i <> na -> i <> nb -> x1 = x0)
    /\ forall j, count_occ Nat.eq_dec (bonds x1) j
         = if (Nat.eqb i na && Nat.eqb j nb) || (Nat.eqb i nb && Nat.eqb j na)
           then Nat.max 1 (count_occ Nat.eq_dec (bonds x0) j)
           else count_occ Nat.eq_dec (bonds x0) j.
Proof.
  intros Ha Hb Hi. rewrite (bonded_lookup _ _ _ _ _ _ Ha Hb), Hi. cbn [fmap option_fmap option_map].
  eexists. split; [reflexivity|].
  destruct (decide (i = nb)) as [->|Hnb], (decide (_ = na)) as [Ena|Hna];
    try subst na.
  - split; [eapply bonds_aside_trans; apply bonds_aside_link|].
    split; [done|].
    intros j. rewrite !count_link_at, Nat.eqb_refl. cbn [andb].
    destruct (Nat.eqb j nb); cbn [orb]; lia.
  - split; [apply bonds_aside_link|]. split; [done|].
    intros j. rewrite count_link_at, Nat.eqb_refl.
    rewrite (proj2 (Nat.eqb_neq nb na)) by done. done.
  - split; [apply bonds_aside_link|]. split; [done|].
    intros j. rewrite count_link_at, Nat.eqb_refl.
    rewrite (proj2 (Nat.eqb_neq i nb)) by done. cbn [andb orb].
    by rewrite orb_false_r.
  - split; [apply bonds_aside_refl|]. split; [done|].
    intros j. rewrite (proj2 (Nat.eqb_neq i nb)), (proj2 (Nat.eqb_neq i na)) by done.
    done.
Qed.

Lemma designated_cons pos x y z ts i j :
  designated pos ((x, y, z) :: ts) i j
  = negb (x =? y)
    && ((Z.of_nat i =? pos x) && (Z.of_nat j =? pos y)
        || (Z.of_nat i =? pos y) && (Z.of_nat j =? pos x))
    || designated pos ts i j.
Proof. reflexivity. Qed.

Lemma eqb_to_nat i k : 0 <= k -> Nat.eqb i (Z.to_nat k) = (Z.of_nat i =? k).
Proof.
  intros H. destruct (Nat.eqb_spec i (Z.to_nat k)), (Z.eqb_spec (Z.of_nat i) k); lia.
Qed.

Lemma bond_loop_block decode pos ts : forall a,
  (forall x y z, In (x, y, z) ts -> x <> y ->
     decode x = Some (pos x) /\ decode y = Some (pos y)
     /\ 0 <= pos x < Z.of_nat (length (atoms a))
     /\ 0 <= pos y < Z.of_nat (length (atoms a))) ->
  exists l',
    (forall r, bond_loop decode (block_of ts) (set_reader r a)
               = Ok tt (set_atoms l' (set_reader r a)))
    /\ length l' = length (atoms a)
    /\ forall i x, atoms a !! i = Some x ->
         exists x', l' !! i = Some x' /\ bonds_aside x x'
           /\ ((forall j, designated pos ts i j = false) -> x' = x)
           /\ forall j, count_occ Nat.eq_dec (bonds x') j
                = if designated pos ts i j
                  then Nat.max 1 (count_occ Nat.eq_dec (bonds x) j)
                  else count_occ Nat.eq_dec (bonds x) j.
Proof.
  induction ts as [|[[x y] z] ts IH]; intros a H.
  - exists (atoms a). split; [intros r; by destruct a|]. split; [done|].
    intros i x0 Hi. exists x0. split; [done|]. split; [apply bonds_aside_refl|].
    split; done.
  - rewrite block_of_cons. setoid_rewrite bond_loop_cons.
    destruct (Z.eqb_spec x y) as [E|E].
    + destruct (IH a) as (l' & E1 & Hl & Hat).
      { intros x' y' z' Hin. apply (H x' y' z'). by right. }
      exists l'. split; [done|]. split; [done|].
      intros i x0 Hi. destruct (Hat i x0 Hi) as (x' & L & A & U & Cn).
      assert (forall j, designated pos ((x, y, z) :: ts) i j = designated pos ts i j) as D.
      { intros j. rewrite designated_cons.
        destruct (Z.eqb_spec x y); [|done]. done. }
      exists x'. split; [done|]. split; [done|]. split.
      * intros F. apply U. intros j. rewrite <- D. apply F.
      * intros j. rewrite D. apply Cn.
    + destruct (H x y z (or_introl eq_refl) E) as (Dx & Dy & Rx & Ry).
      rewrite Dx, Dy.
      destruct (at_index_in_range (atoms a) (pos x) Rx) as [xa Ha].
      destruct (at_index_in_range (atoms a) (pos y) Ry) as [xb Hb].
      set (l1 := bonded (Z.to_nat (pos x)) (Z.to_nat (pos y)) xa xb (atoms a)).
      destruct (IH (set_atoms l1 a)) as (l' & E1 & Hl & Hat).
      { intros x' y' z' Hin Hne. cbn [atoms set_atoms]. subst l1.
        rewrite bonded_length. apply (H x' y' z'); [by right | done]. }
      exists l'. split.
      { intros r. rewrite (bond_atoms_run _ _ (set_reader r a) xa xb) by (done || lia).
        apply (E1 r). }
      cbn [atoms set_atoms] in *. split; [subst l1; by rewrite Hl, bonded_length|].
      intros i x0 Hi.
      destruct (bonded_atom _ _ _ _ _ i x0 Ha Hb Hi) as (x1 & L1 & A1 & U1 & C1).
      destruct (Hat i x1 L1) as (x' & L & A & U & Cn).
      exists x'. split; [done|]. split; [by eapply bonds_aside_trans|]. split.
      * intros F.
        assert (forall j, designated pos ts i j = false) as F'.
        { intros j. specialize (F j). rewrite designated_cons in F.
          by apply orb_false_elim in F as [_ ?]. }
        rewrite (U F'). apply U1.
        -- intros ->. specialize (F (Z.to_nat (pos y))).
           rewrite designated_cons, !Z2Nat.id, !Z.eqb_refl in F by lia.
           destruct (Z.eqb_spec x y); [done|]. discriminate F.
        -- intros ->. specialize (F (Z.to_nat (pos x))).
           rewrite designated_cons, !Z2Nat.id, !Z.eqb_refl in F by lia.
           destruct (Z.eqb_spec x y); [done|]. cbn in F.
           rewrite orb_true_r in F. discriminate F.
      * intros j. rewrite Cn, C1, designated_cons.
        rewrite !eqb_to_nat by lia.
        destruct (Z.eqb_spec x y); [done|]. cbn [negb andb].
        destruct (_ || _), (designated pos ts i j); cbn [orb]; lia.
Qed.

Lemma designated_range pos ts i j (len : nat) :
  (forall x y z, In (x, y, z) ts -> x <> y ->
     0 <= pos x < Z.of_nat len /\ 0 <= pos y < Z.of_nat len) ->
  designated pos ts i j = true -> (i < len)%nat /\ (j < len)%nat.
Proof.
  intros H D. unfold designated in D. apply existsb_exists in D.
  destruct D as ([[x y] z] & Hin & D).
  destruct (Z.eqb_spec x y) as [|Hne]; [done|]. cbn [negb andb] in D.
  destruct (H x y z Hin Hne) as [Hx Hy].
  apply orb_prop in D as [D|D]; apply andb_prop in D as [D1 D2];
    apply Z.eqb_eq in D1, D2; lia.
Qed.

(** Every pair a block designates is linked already: the block adds nothing. *)
Lemma bond_loop_again decode pos ts : forall a,
  (forall x y z, In (x, y, z) ts -> x <> y ->
     decode x = Some (pos x) /\ decode y = Some (pos y)
     /\ 0 <= pos x /\ 0 <= pos y
     /\ linked (atoms a) (Z.to_nat (pos x)) (Z.to_nat (pos y))) ->
  bond_loop decode (block_of ts) a = Ok tt a.
Proof.
  induction ts as [|[[x y] z] ts IH]; intros a H; [done|].
  rewrite block_of_cons, bond_loop_cons.
  destruct (Z.eqb_spec x y) as [E|E].
  - apply IH. intros x' y' z' Hin. apply (H x' y' z'). by right.
  - destruct (H x y z (or_introl eq_refl) E) as (Dx & Dy & Rx & Ry & Hl).
    rewrite Dx, Dy.
    destruct Hl as (xa & xb & Ha & Hb & Bab & Bba).
    rewrite (bond_atoms_run _ _ a xa xb) by done.
    assert (bonded (Z.to_nat (pos x)) (Z.to_nat (pos y)) xa xb (atoms a) = atoms a) as ->.
    { unfold bonded. rewrite (link_bound _ _ Bab).
      destruct (decide (_ = _)) as [Eq|Ne].
      - rewrite (link_bound (Z.to_nat (pos x)) xa).
        + rewrite <- Eq. by rewrite !(list_insert_id _ _ _ Ha).
        + rewrite Eq. exact Bab.
      - rewrite (link_bound _ _ Bba), (list_insert_id _ _ _ Ha).
        by rewrite (list_insert_id _ _ _ Hb). }
    rewrite set_atoms_same. apply IH.
    intros x' y' z' Hin. apply (H x' y' z'). by right.
Qed.

Lemma designated_in pos ts x y z :
  In (x, y, z) ts -> x <> y -> 0 <= pos x -> 0 <= pos y ->
  designated pos ts (Z.to_nat (pos x)) (Z.to_nat (pos y)) = true
  /\ designated pos ts (Z.to_nat (pos y)) (Z.to_nat (pos x)) = true.
Proof.
  intros Hin Hne Hx Hy. unfold designated. rewrite !existsb_exists.
  split; exists (x, y, z); (split; [done|]);
    rewrite !Z2Nat.id by done; rewrite !Z.eqb_refl;
    destruct (Z.eqb_spec x y); try done; cbn; by rewrite ?orb_true_r.
Qed.

Lemma designated_sym pos ts i j : designated pos ts i j = designated pos ts j i.
Proof.
  unfold designated. induction ts as [|[[x y] z] ts IH]; [done|].
  cbn [existsb]. rewrite IH. f_equal. f_equal.
  rewrite orb_comm. f_equal; apply andb_comm.
Qed.

Lemma parseBonds_run n a fmt a1 l r2 :
  parseFormat "I" "bonds" a = Ok fmt a1 ->
  readBlock_int (width fmt) (reader a1) = Ok l r2 ->
  Z.of_nat (length l) = wrap32 (3 * n) ->
  parseBonds n a = bond_loop decode_primary l (set_reader r2 a).
Proof.
  intros H1 H2 H3. unfold parseBonds.
  unfold bind at 1. rewrite H1.
  rewrite (parseFormat_only_reader _ _ _ _ _ H1) in *.
  unfold bind at 1. unfold readBlock. cbn [reader set_reader] in *. rewrite H2.
  unfold bind at 1. unfold get.
  rewrite H3, Z.eqb_refl. reflexivity.
Qed.

Lemma parseAmoebaRegularBondList_run n a fmt a1 l r2 :
  parseFormat "I" "amoeba_regular_bond_list" a = Ok fmt a1 ->
  readBlock_int (width fmt) (reader a1) = Ok l r2 ->
  Z.of_nat (length l) = wrap32 (3 * n) ->
  parseAmoebaRegularBondList n a = bond_loop decode_amoeba l (set_reader r2 a).
Proof.
  intros H1 H2 H3. unfold parseAmoebaRegularBondList.
  unfold bind at 1. rewrite H1.
  rewrite (parseFormat_only_reader _ _ _ _ _ H1) in *.
  unfold bind at 1. unfold readBlock. cbn [reader set_reader] in *. rewrite H2.
  unfold bind at 1. unfold get.
  rewrite H3, Z.eqb_refl. reflexivity.
Qed.

Lemma block_size_checked ts :
  3 * Z.of_nat (length ts) < 2 ^ 32 ->
  Z.of_nat (length (block_of ts)) = wrap32 (3 * Z.of_nat (length ts)).
Proof.
  intros H. rewrite block_of_length. unfold wrap32.
  rewrite Z.mod_small by lia. lia.
Qed.

Lemma decode_amoeba_position k : 0 <= k - 1 -> decode_amoeba k = Some (k - 1).
Proof.
  intros Hk. unfold decode_amoeba, ISS.INT_MIN.
  destruct (Z.eqb_spec k (-2147483648)); [lia | done].
Qed.

(** What the loop of a bond handler does with a block, whatever the line
    cursor is. *)
Lemma bond_block_read decode pos ts (a : Amber) :
  (forall k, 0 <= pos k -> decode k = Some (pos k)) ->
  (forall x y z, In (x, y, z) ts -> x <> y ->
     0 <= pos x < Z.of_nat (length (atoms a))
     /\ 0 <= pos y < Z.of_nat (length (atoms a))) ->
  exists l',
    (forall r, bond_loop decode (block_of ts) (set_reader r a)
               = Ok tt (set_atoms l' (set_reader r a)))
    /\ length l' = length (atoms a)
    /\ (forall i x, atoms a !! i = Some x ->
          exists x', l' !! i = Some x' /\ bonds_aside x x')
    /\ (forall i, (forall j, designated pos ts i j = false) ->
          l' !! i = atoms a !! i)
    /\ (forall x y z, In (x, y, z) ts -> x <> y ->
          linked l' (Z.to_nat (pos x)) (Z.to_nat (pos y)))
    /\ (forall i j, entries l' i j
          = if designated pos ts i j then Nat.max 1 (entries (atoms a) i j)
            else entries (atoms a) i j)
    /\ (forall b, atoms b = l' -> bond_loop decode (block_of ts) b = Ok tt b).
Proof.
  intros Hd Hr.
  destruct (bond_loop_block decode pos ts a) as (l' & E & Hl & Hat).
  { intros x y z Hin Hne. destruct (Hr x y z Hin Hne) as [Hx Hy].
    split; [apply Hd; lia|]. split; [apply Hd; lia | done]. }
  assert (forall i j, entries l' i j
            = if designated pos ts i j then Nat.max 1 (entries (atoms a) i j)
              else entries (atoms a) i j) as Hent.
  { intros i j. unfold entries.
    destruct (atoms a !! i) as [x|] eqn:Ei.
    - destruct (Hat i x Ei) as (x' & -> & _ & _ & Cn). apply Cn.
    - assert (l' !! i = None) as ->.
      { apply lookup_ge_None. rewrite Hl. by apply lookup_ge_None. }
      destruct (designated pos ts i j) eqn:D; [|done].
      apply (designated_range pos ts i j (length (atoms a)) Hr) in D.
      apply lookup_ge_None in Ei. lia. }
  assert (forall x y z, In (x, y, z) ts -> x <> y ->
            linked l' (Z.to_nat (pos x)) (Z.to_nat (pos y))) as Hlk.
  { intros x y z Hin Hne. destruct (Hr x y z Hin Hne) as [Hx Hy].
    destruct (designated_in pos ts x y z Hin Hne) as [D1 D2]; [lia | lia |].
    pose proof (Hent (Z.to_nat (pos x)) (Z.to_nat (pos y))) as E1.
    pose proof (Hent (Z.to_nat (pos y)) (Z.to_nat (pos x))) as E2.
    rewrite D1 in E1. rewrite D2 in E2. unfold entries in E1, E2. unfold linked.
    destruct (l' !! Z.to_nat (pos x)) as [xa|] eqn:La; [|lia].
    destruct (l' !! Z.to_nat (pos y)) as [xb|] eqn:Lb; [|lia].
    exists xa, xb. split; [done|]. split; [done|].
    split; apply isBoundTo_count; lia. }
  exists l'. split; [done|]. split; [done|]. split.
  { intros i x Hi. destruct (Hat i x Hi) as (x' & L & A & _). by exists x'. }
  split.
  { intros i F. destruct (atoms a !! i) as [x|] eqn:Ei.
    - destruct (Hat i x Ei) as (x' & L & _ & U & _). by rewrite L, (U F).
    - apply lookup_ge_None. rewrite Hl. by apply lookup_ge_None. }
  split; [done|]. split; [done|].
  intros b Hb. apply (bond_loop_again decode pos).
  intros x y z Hin Hne. destruct (Hr x y z Hin Hne) as [Hx Hy].
  split; [apply Hd; lia|]. split; [apply Hd; lia|].
  split; [lia|]. split; [lia|]. rewrite Hb. by apply (Hlk x y z).
Qed.

(** C5. Each of the two bond handlers, on a block of triplets whose
    non-degenerate triplets designate atoms of the sequence: returns; changes
    nothing of an atom but its neighbours; leaves the atoms as they were
    when every triplet has its two indices equal; makes the two atoms of
    every other triplet neighbours of each other; leaves, for every pair of
    positions, one entry where the block designates the pair and there was
    none, and otherwise the entries there were; when the same block is
    read again into the resulting atoms, changes nothing but the line
    cursor; and makes no atom a neighbour of itself when different stored
    indices designate different atoms. *)
Theorem bond_decoding_idempotent
    (handler : Z -> Amber -> outcome Amber unit) (where_ : string) (pos : Z -> Z)
    (ts : list (Z * Z * Z)) (a : Amber) (fmt : FormatSpec) (a1 : Amber)
    (r2 : LineReader) :
  In (handler, where_, pos)
     [(parseBonds, "bonds"%string, fun k => Z.quot k 3);
      (parseAmoebaRegularBondList, "amoeba_regular_bond_list"%string,
       fun k => k - 1)] ->
  parseFormat "I" where_ a = Ok fmt a1 ->
  readBlock_int (width fmt) (reader a1) = Ok (block_of ts) r2 ->
  3 * Z.of_nat (length ts) < 2 ^ 32 ->
  (forall x y z, In (x, y, z) ts -> x <> y ->
     0 <= pos x < Z.of_nat (length (atoms a))
     /\ 0 <= pos y < Z.of_nat (length (atoms a))) ->
  exists a',
    handler (Z.of_nat (length ts)) a = Ok tt a'
    /\ a' = set_atoms (atoms a') (set_reader r2 a)
    /\ length (atoms a') = length (atoms a)
    /\ (forall i x, atoms a !! i = Some x ->
          exists x', atoms a' !! i = Some x' /\ bonds_aside x x')
    /\ ((forall x y z, In (x, y, z) ts -> x = y) -> atoms a' = atoms a)
    /\ (forall x y z, In (x, y, z) ts -> x <> y ->
          linked (atoms a') (Z.to_nat (pos x)) (Z.to_nat (pos y)))
    /\ (forall i j, entries (atoms a') i j
          = if designated pos ts i j then Nat.max 1 (entries (atoms a) i j)
            else entries (atoms a) i j)
    /\ (forall x y z, In (x, y, z) ts -> x <> y ->
          (entries (atoms a) (Z.to_nat (pos x)) (Z.to_nat (pos y)) <= 1)%nat ->
          (entries (atoms a) (Z.to_nat (pos y)) (Z.to_nat (pos x)) <= 1)%nat ->
          entries (atoms a') (Z.to_nat (pos x)) (Z.to_nat (pos y)) = 1%nat
          /\ entries (atoms a') (Z.to_nat (pos y)) (Z.to_nat (pos x)) = 1%nat)
    /\ (forall b fmt' b1 r3,
          atoms b = atoms a' ->
          parseFormat "I" where_ b = Ok fmt' b1 ->
          readBlock_int (width fmt') (reader b1) = Ok (block_of ts) r3 ->
          handler (Z.of_nat (length ts)) b = Ok tt (set_reader r3 b))
    /\ ((forall x y z, In (x, y, z) ts -> x <> y -> pos x <> pos y) ->
        forall i, entries (atoms a') i i = entries (atoms a) i i).
Proof.
  intros Hh H1 H2 Hn Hr.
  assert (exists decode,
            (forall k, 0 <= pos k -> decode k = Some (pos k))
            /\ forall b fmt' b1 r3,
                 parseFormat "I" where_ b = Ok fmt' b1 ->
                 readBlock_int (width fmt') (reader b1) = Ok (block_of ts) r3 ->
                 handler (Z.of_nat (length ts)) b
                 = bond_loop decode (block_of ts) (set_reader r3 b))
    as (decode & Hd & Hrun).
  { destruct Hh as [Hh|[Hh|[]]]; injection Hh as <- <- <-.
    - exists decode_primary. split; [done|].
      intros b fmt' b1 r3 B1 B2.
      by apply (parseBonds_run _ _ _ _ _ _ B1 B2), block_size_checked.
    - exists decode_amoeba. split; [apply decode_amoeba_position|].
      intros b fmt' b1 r3 B1 B2.
      by apply (parseAmoebaRegularBondList_run _ _ _ _ _ _ B1 B2), block_size_checked. }
  destruct (bond_block_read decode pos ts a Hd Hr)
    as (l' & E & Hl & Has & Hu & Hlk & Hent & Hagain).
  exists (set_atoms l' (set_reader r2 a)). rewrite (Hrun a fmt a1 r2 H1 H2).
  cbn [atoms set_atoms set_reader].
  split; [apply E|]. split; [done|]. split; [done|]. split; [done|]. split.
  { intros Hdeg. apply list_eq. intros i. apply Hu. intros j.
    unfold designated. apply not_true_is_false. intros D.
    apply existsb_exists in D as ([[x y] z] & Hin & D).
    rewrite (Hdeg x y z Hin), Z.eqb_refl in D. discriminate D. }
  split; [done|]. split; [done|]. split.
  { intros x y z Hin Hne L1 L2. destruct (Hr x y z Hin Hne) as [Hx Hy].
    destruct (designated_in pos ts x y z Hin Hne) as [D1 D2]; [lia | lia |].
    rewrite !Hent, D1, D2. lia. }
  split.
  { intros b fmt' b1 r3 Hb B1 B2. rewrite (Hrun b fmt' b1 r3 B1 B2).
    apply Hagain. done. }
  intros Hinj i. rewrite Hent.
  destruct (designated pos ts i i) eqn:D; [|done].
  unfold designated in D. apply existsb_exists in D as ([[x y] z] & Hin & D).
  destruct (Z.eqb_spec x y) as [|Hne]; [done|]. cbn [negb andb] in D.
  exfalso. apply (Hinj x y z Hin Hne).
  apply orb_prop in D as [D|D]; apply andb_prop in D as [D1 D2];
    apply Z.eqb_eq in D1, D2; congruence.
Qed.

(** C6. Through the dispatch of [read]: under the tags BONDS_INC_HYDROGEN
    and BONDS_WITHOUT_HYDROGEN a stored index [k] designates the atom at
    position [k/3], under AMOEBA_REGULAR_BOND_LIST the atom at position
    [k-1]. The two atoms each non-degenerate triplet designates in this way
    become neighbours of each other, an atom no triplet designates is left as
    it was, no entry is added for a pair no triplet designates, and a block
    that differs in the third elements only gives the same atoms. So the
    atom at 0-based position [i] is the one stored as [3 i] in the primary
    sections and as [i + 1] in the Amoeba list. *)
Theorem bond_index_conventions
    (tag where_ : string) (n : Z) (pos : Z -> Z)
    (ts : list (Z * Z * Z)) (a : Amber) (fmt : FormatSpec) (a1 : Amber)
    (r2 : LineReader) :
  In (tag, where_, n, pos)
     [("BONDS_INC_HYDROGEN"%string, "bonds"%string, nbonh a,
       fun k => Z.quot k 3);
      ("BONDS_WITHOUT_HYDROGEN"%string, "bonds"%string, mbona a,
       fun k => Z.quot k 3);
      ("AMOEBA_REGULAR_BOND_LIST"%string, "amoeba_regular_bond_list"%string,
       _amoeba_regular_bond_num_list a, fun k => k - 1)] ->
  parseFormat "I" where_ a = Ok fmt a1 ->
  readBlock_int (width fmt) (reader a1) = Ok (block_of ts) r2 ->
  n = Z.of_nat (length ts) -> 3 * n < 2 ^ 32 ->
  (forall x y z, In (x, y, z) ts -> x <> y ->
     0 <= pos x < Z.of_nat (length (atoms a))
     /\ 0 <= pos y < Z.of_nat (length (atoms a))) ->
  exists a',
    dispatch tag a = Ok tt a'
    /\ (forall x y z, In (x, y, z) ts -> x <> y ->
          linked (atoms a') (Z.to_nat (pos x)) (Z.to_nat (pos y)))
    /\ (forall i, (forall j, designated pos ts i j = false) ->
          atoms a' !! i = atoms a !! i)
    /\ (forall i j, designated pos ts i j = false ->
          entries (atoms a') i j = entries (atoms a) i j)
    /\ (forall ts' rb fmt' b1 r3,
          map fst ts' = map fst ts ->
          parseFormat "I" where_ (set_reader rb a) = Ok fmt' b1 ->
          readBlock_int (width fmt') (reader b1) = Ok (block_of ts') r3 ->
          exists b', dispatch tag (set_reader rb a) = Ok tt b'
                     /\ atoms b' = atoms a')
    /\ (forall i,
          pos (if String.eqb tag "AMOEBA_REGULAR_BOND_LIST" then i + 1 else 3 * i)
          = i).
Proof.
  intros Hh H1 H2 Hn Hn32 Hr.
  assert (exists decode,
            (forall k, 0 <= pos k -> decode k = Some (pos k))
            /\ forall ts' rb fmt' b1 r3,
                 length ts' = length ts ->
                 parseFormat "I" where_ (set_reader rb a) = Ok fmt' b1 ->
                 readBlock_int (width fmt') (reader b1) = Ok (block_of ts') r3 ->
                 dispatch tag (set_reader rb a)
                 = bond_loop decode (block_of ts') (set_reader r3 a))
    as (decode & Hd & Hrun).
  { destruct Hh as [Hh|[Hh|[Hh|[]]]]; injection Hh as <- <- <- <-.
    - exists decode_primary. split; [done|].
      intros ts' rb fmt' b1 r3 Hlen B1 B2.
      change (dispatch "BONDS_INC_HYDROGEN" (set_reader rb a))
        with (parseBonds (nbonh a) (set_reader rb a)).
      rewrite (parseBonds_run _ _ _ _ _ _ B1 B2); [done|].
      rewrite Hn, <- Hlen. apply block_size_checked. rewrite Hlen. lia.
    - exists decode_primary. split; [done|].
      intros ts' rb fmt' b1 r3 Hlen B1 B2.
      change (dispatch "BONDS_WITHOUT_HYDROGEN" (set_reader rb a))
        with (parseBonds (mbona a) (set_reader rb a)).
      rewrite (parseBonds_run _ _ _ _ _ _ B1 B2); [done|].
      rewrite Hn, <- Hlen. apply block_size_checked. rewrite Hlen. lia.
    - exists decode_amoeba. split; [apply decode_amoeba_position|].
      intros ts' rb fmt' b1 r3 Hlen B1 B2.
      change (dispatch "AMOEBA_REGULAR_BOND_LIST" (set_reader rb a))
        with (parseAmoebaRegularBondList (_amoeba_regular_bond_num_list a)
                (set_reader rb a)).
      rewrite (parseAmoebaRegularBondList_run _ _ _ _ _ _ B1 B2); [done|].
      rewrite Hn, <- Hlen. apply block_size_checked. rewrite Hlen. lia. }
  destruct (bond_block_read decode pos ts a Hd Hr)
    as (l' & E & Hl & _ & Hu & Hlk & Hent & _).
  assert (set_reader (reader a) a = a) as Eid by (by destruct a).
  exists (set_atoms l' (set_reader r2 a)). split.
  { rewrite <- Eid at 1. rewrite <- Eid in H1.
    rewrite (Hrun ts (reader a) fmt a1 r2 eq_refl H1 H2). apply E. }
  cbn [atoms set_atoms set_reader].
  split; [done|]. split; [done|]. split.
  { intros i j D. by rewrite Hent, D. }
  split.
  { intros ts' rb fmt' b1 r3 Hts B1 B2.
    assert (length ts' = length ts) as Hlen.
    { by rewrite <- (length_map fst ts'), Hts, length_map. }
    rewrite (Hrun ts' rb fmt' b1 r3 Hlen B1 B2).
    rewrite (bond_loop_pairs decode ts' ts) by done.
    eexists. split; [apply E | done]. }
  destruct Hh as [Hh|[Hh|[Hh|[]]]]; injection Hh as <- <- <- <-; intros i;
    cbn [String.eqb Ascii.eqb Bool.eqb]; cbv beta iota.
  - rewrite Z.mul_comm. apply Z.quot_mul. lia.
  - rewrite Z.mul_comm. apply Z.quot_mul. lia.
  - lia.
Qed.

(** X11. If, before a bond section is read, the bond relation is symmetric
    and no atom lists a neighbour twice, it is so afterwards as well, whether
    the handler returns or throws, for the primary sections and for the
    Amoeba list. *)
Theorem bond_sections_keep_bonds_sound (n : Z) (a : Amber) :
  symmetric_bonds (atoms a) -> duplicate_free (atoms a) ->
  match parseBonds n a with
  | Ok _ a' | Throw _ a' => symmetric_bonds (atoms a') /\ duplicate_free (atoms a')
  | UB => True
  end
  /\ match parseAmoebaRegularBondList n a with
     | Ok _ a' | Throw _ a' => symmetric_bonds (atoms a') /\ duplicate_free (atoms a')
     | UB => True
     end.
Proof.
  intros Hs Hd.
  assert (forall (A : Type) (m : Amber -> outcome Amber A),
            keeps only_reader m -> keeps bonds_stay_sound m) as Hw.
  { intros A m. apply keeps_weaken, only_reader_bonds_stay_sound. }
  assert (forall decode l, keeps bonds_stay_sound (bond_loop decode l)) as Hl.
  { intros decode. apply keeps_bond_loop;
      [apply bonds_stay_sound_refl | apply bonds_stay_sound_trans
      | apply keeps_sound_bond_atoms]. }
  assert (keeps bonds_stay_sound (parseBonds n)) as K1.
  { unfold parseBonds.
    apply keeps_bind; [apply bonds_stay_sound_trans | apply Hw, keeps_parseFormat |].
    intros fmt.
    apply keeps_bind; [apply bonds_stay_sound_trans | apply Hw, keeps_readBlock |].
    intros l.
    apply keeps_bind; [apply bonds_stay_sound_trans
                      | apply keeps_get, bonds_stay_sound_refl |].
    intros s. destruct (negb _); [apply keeps_throw, bonds_stay_sound_refl | apply Hl]. }
  assert (keeps bonds_stay_sound (parseAmoebaRegularBondList n)) as K2.
  { unfold parseAmoebaRegularBondList.
    apply keeps_bind; [apply bonds_stay_sound_trans | apply Hw, keeps_parseFormat |].
    intros fmt.
    apply keeps_bind; [apply bonds_stay_sound_trans | apply Hw, keeps_readBlock |].
    intros l.
    apply keeps_bind; [apply bonds_stay_sound_trans
                      | apply keeps_get, bonds_stay_sound_refl |].
    intros s. destruct (negb _); [apply keeps_throw, bonds_stay_sound_refl | apply Hl]. }
  specialize (K1 a). specialize (K2 a). split.
  - destruct (parseBonds n a); try done; by apply K1.
  - destruct (parseAmoebaRegularBondList n a); try done; by apply K2.
Qed.

(** X12. A tag that is none of the eleven the reader knows is skipped: the
    object is left as it was. *)
Theorem unknown_tags_are_skipped (tag : string) (a : Amber) :
  ~ In tag ["TITLE"; "POINTERS"; "ATOM_NAME"; "CHARGE"; "MASS"; "RESIDUE_LABEL";
            "RESIDUE_POINTER"; "BONDS_INC_HYDROGEN"; "BONDS_WITHOUT_HYDROGEN";
            "AMOEBA_REGULAR_BOND_NUM_LIST"; "AMOEBA_REGULAR_BOND_LIST"]%string ->
  dispatch tag a = Ok tt a.
Proof.
  intros H. unfold dispatch.
  repeat match goal with
         | |- context [String.eqb tag ?s] =>
             destruct (String.eqb_spec tag s) as [->|_];
               [exfalso; apply H; cbn; tauto|]
         end.
  reflexivity.
Qed.

(** X13. Reading a stream that has no line into an object with no residue
    declared runs into the undefined behaviour of [assignResidues],
    whatever the final calls would do. *)
Theorem reading_no_line_is_undefined finish (fuel : nat) (a : Amber) :
  fst (getNext (reader a)) = false ->
  nres a = 0 -> residue_labels a = [] -> residue_pointers a = [] ->
  read finish (S fuel) a = Some UB.
Proof.
  intros Hnext Hn Hl Hp. unfold read. cbn [read_lines]. unfold reader_getNext.
  destruct (getNext (reader a)) as [b r]. cbn [fst] in Hnext. subst b.
  unfold bind.
  by rewrite (assignResidues_without_residue (set_reader r a)).
Qed.

End Facts.

#[local] Existing Instance ListReader.collaborators.

Lemma parseFormat_grammars_witness :
  parseFormat "I" "pointers" (ListReader.fresh ["%FORMAT(20I8)"%string])
  = Ok {| repeat := 20; type := "I"; width := 8; precision := 0 |}
       (set_reader (snd (getNext (reader (ListReader.fresh ["%FORMAT(20I8)"%string]))))
          (ListReader.fresh ["%FORMAT(20I8)"%string]))
  /\ parseFormat "I" "pointers" (ListReader.fresh ["%FORMAT(5E16.8)"%string])
     = Throw (FileParseError "Invalid format type for pointers" 1)
          (set_reader (snd (getNext (reader (ListReader.fresh ["%FORMAT(5E16.8)"%string]))))
             (ListReader.fresh ["%FORMAT(5E16.8)"%string]))
  /\ parseFormat "a" "title" (ListReader.fresh ["%FORMAT(a4)"%string])
     = Ok {| repeat := 0; type := "a"; width := 4; precision := 0 |}
          (set_reader (snd (getNext (reader (ListReader.fresh ["%FORMAT(a4)"%string]))))
             (ListReader.fresh ["%FORMAT(a4)"%string]))
  /\ parseFormat "a" "title" (ListReader.fresh ["%FORMAT(a)"%string])
     = Ok {| repeat := 0; type := "a"; width := 0; precision := 0 |}
          (set_reader (snd (getNext (reader (ListReader.fresh ["%FORMAT(a)"%string]))))
             (ListReader.fresh ["%FORMAT(a)"%string]))
  /\ parseFormat "a" "title" (ListReader.fresh ["%FORMAT( )"%string])
     = Throw (FileParseError "Cannot parse format for title" 1)
          (set_reader (snd (getNext (reader (ListReader.fresh ["%FORMAT( )"%string]))))
             (ListReader.fresh ["%FORMAT( )"%string]))
  /\ parseFormat "a" "title" (ListReader.fresh ["garbage"%string])
     = Throw (FileParseError "Expected format for title" 1)
          (set_reader (snd (getNext (reader (ListReader.fresh ["garbage"%string]))))
             (ListReader.fresh ["garbage"%string]))
  /\ parseFormat "a" "title" (ListReader.fresh ["%FORMAT"%string]) = UB.
Proof.
  repeat apply conj.
  - pose proof (parseFormat_grammars "I" "pointers"
                  (ListReader.fresh ["%FORMAT(20I8)"%string])) as H.
    cbv zeta in H. destruct H as (H & _). exact (H eq_refl eq_refl).
  - pose proof (parseFormat_grammars "I" "pointers"
                  (ListReader.fresh ["%FORMAT(5E16.8)"%string])) as H.
    cbv zeta in H. destruct H as (_ & _ & _ & _ & _ & H & _).
    exact (H eq_refl eq_refl).
  - pose proof (parseFormat_grammars "a" "title"
                  (ListReader.fresh ["%FORMAT(a4)"%string])) as H.
    cbv zeta in H. destruct H as (_ & _ & H & _). exact (H eq_refl eq_refl).
  - pose proof (parseFormat_grammars "a" "title"
                  (ListReader.fresh ["%FORMAT(a)"%string])) as H.
    cbv zeta in H. destruct H as (_ & _ & _ & H & _). exact (H eq_refl eq_refl).
  - pose proof (parseFormat_grammars "a" "title"
                  (ListReader.fresh ["%FORMAT( )"%string])) as H.
    cbv zeta in H. destruct H as (_ & _ & _ & _ & H & _). exact (H eq_refl).
  - pose proof (parseFormat_grammars "a" "title"
                  (ListReader.fresh ["garbage"%string])) as H.
    cbv zeta in H. destruct H as (_ & _ & _ & _ & _ & _ & H & _).
    apply H. discriminate.
  - pose proof (parseFormat_grammars "a" "title"
                  (ListReader.fresh ["%FORMAT"%string])) as H.
    cbv zeta in H. destruct H as (_ & _ & _ & _ & _ & _ & _ & _ & _ & H & _).
    exact (H (or_introl eq_refl)).
Defined.

Lemma parsePointers_builds_atoms_witness :
  (exists a',
     parsePointers (ListReader.fresh two_atom_file) = Ok tt a'
     /\ natoms a' = 2
     /\ length (atoms a') = 2%nat
     /\ exists x, atoms a' !! 1%nat = Some x /\ id x = 2)
  /\ parsePointers pointers_again
     = Throw (logic_error
         "Internal error: trying to read in an amber parmtop into a non-empty group!")
         (set_counts 2 1 0 1
            (set_reader (snd (getNext (snd (getNext (reader pointers_again)))))
               pointers_again)).
Proof.
  split.
  - destruct (parsePointers_builds_atoms (ListReader.fresh two_atom_file)
                {| repeat := 10; type := "I"; width := 8; precision := 0 |}
                (set_reader (snd (getNext (reader (ListReader.fresh two_atom_file))))
                   (ListReader.fresh two_atom_file))
                [2; 0; 1; 0; 0; 0; 0; 0; 0; 0; 0; 1]
                (snd (getNext (snd (getNext (reader (ListReader.fresh two_atom_file))))))
                2 1 0 1 eq_refl eq_refl eq_refl eq_refl eq_refl eq_refl
                ltac:(lia)) as (_ & H & _).
    destruct (H eq_refl) as (a' & E & Hn & _ & _ & _ & _ & Hl & Hi).
    destruct (Hi 1%nat ltac:(simpl; lia)) as (x & Hx & Hid & _).
    exists a'. split; [exact E|]. split; [exact Hn|]. split; [exact Hl|].
    exists x. split; [exact Hx | exact Hid].
  - destruct (parsePointers_builds_atoms pointers_again
                {| repeat := 10; type := "I"; width := 8; precision := 0 |}
                (set_reader (snd (getNext (reader pointers_again))) pointers_again)
                [2; 0; 1; 0; 0; 0; 0; 0; 0; 0; 0; 1]
                (snd (getNext (snd (getNext (reader pointers_again)))))
                2 1 0 1 eq_refl eq_refl eq_refl eq_refl eq_refl eq_refl
                ltac:(lia)) as (H & _).
    apply H. discriminate.
Defined.

Lemma parsePointers_parse_error_comes_first :
  atoms garbage_for_pointers <> []
  /\ parsePointers garbage_for_pointers
     = Throw (FileParseError "Expected format for pointers" 1)
         (set_reader (snd (getNext (reader garbage_for_pointers)))
            garbage_for_pointers)
  /\ (forall msg, FileParseError "Expected format for pointers" 1 <> logic_error msg).
Proof. split; [discriminate|]. split; [reflexivity | intros msg; discriminate]. Qed.



Lemma bond_decoding_idempotent_witness :
  exists a',
    parseBonds 2 bonds_twice = Ok tt a'
    /\ map bonds (atoms a') = [[2%nat]; []; [0%nat]]
    /\ linked (atoms a') 0 2
    /\ entries (atoms a') 0 2 = 1%nat
    /\ entries (atoms a') 2 0 = 1%nat
    /\ exists a'', parseBonds 2 a' = Ok tt a'' /\ atoms a'' = atoms a'.
Proof.
  set (fmt := {| repeat := 10; type := "I"%char; width := 8; precision := 0 |}).
  assert (forall x y z : Z, In (x, y, z) [(0, 6, 1); (3, 3, 1)] -> x <> y ->
            0 <= Z.quot x 3 < Z.of_nat (length (atoms bonds_twice))
            /\ 0 <= Z.quot y 3 < Z.of_nat (length (atoms bonds_twice))) as Hr.
  { intros x y z [H|[H|[]]] Hne; injection H as <- <- <-;
      [vm_compute; repeat split; congruence | congruence]. }
  assert (parseFormat "I" "bonds" bonds_twice
          = Ok fmt (set_reader (snd (getNext (reader bonds_twice))) bonds_twice)) as H1
    by reflexivity.
  assert (readBlock_int (width fmt)
            (reader (set_reader (snd (getNext (reader bonds_twice))) bonds_twice))
          = Ok (block_of [(0, 6, 1); (3, 3, 1)])
               (snd (getNext (snd (getNext (reader bonds_twice)))))) as H2
    by reflexivity.
  assert (3 * Z.of_nat (length [(0, 6, 1); (3, 3, 1)]) < 2 ^ 32) as H3
    by (vm_compute; reflexivity).
  destruct (bond_decoding_idempotent parseBonds "bonds" (fun k => Z.quot k 3)
              [(0, 6, 1); (3, 3, 1)] bonds_twice fmt _ _
              (or_introl eq_refl) H1 H2 H3 Hr)
    as (a' & E & _ & _ & _ & _ & L & _ & One & Again & _).
  destruct (One 0 6 1 (or_introl eq_refl) ltac:(lia)
              ltac:(vm_compute; lia) ltac:(vm_compute; lia)) as [O1 O2].
  exists a'. split; [exact E|].
  assert (Ok tt a'
          = Ok tt (set_atoms [addBond 2 ListReader.blank_atom; ListReader.blank_atom;
                              addBond 0 ListReader.blank_atom]
                     (set_reader (snd (getNext (snd (getNext (reader bonds_twice)))))
                        bonds_twice))) as E0 by (rewrite <- E; reflexivity).
  injection E0 as E0.
  split; [by rewrite E0|].
  split; [exact (L 0 6 1 (or_introl eq_refl) ltac:(lia))|].
  split; [exact O1|]. split; [exact O2|].
  assert (parseFormat "I" "bonds" a'
          = Ok fmt (set_reader (snd (getNext (reader a'))) a')) as B1
    by (rewrite E0; reflexivity).
  assert (readBlock_int (width fmt)
            (reader (set_reader (snd (getNext (reader a'))) a'))
          = Ok (block_of [(0, 6, 1); (3, 3, 1)])
               (snd (getNext (snd (getNext (reader a')))))) as B2
    by (rewrite E0; reflexivity).
  eexists. split; [exact (Again a' fmt _ _ eq_refl B1 B2) | reflexivity].
Defined.

(** The two indices are compared as stored: 3 and 4 differ, designate the
    same atom of a primary section, and that atom gets itself as a
    neighbour, once. *)
Example stored_3_and_4_designate_one_atom :
  parseBonds 1 stored_3_4
  = Ok tt (set_atoms [ListReader.blank_atom; addBond 1 ListReader.blank_atom;
                      ListReader.blank_atom]
             (set_reader (snd (getNext (snd (getNext (reader stored_3_4)))))
                stored_3_4)).
Proof. reflexivity. Qed.

Lemma bond_index_conventions_witness :
  (exists a',
     dispatch "BONDS_INC_HYDROGEN" six_atoms = Ok tt a'
     /\ linked (atoms a') 1 2
     /\ atoms a' !! 5%nat = Some ListReader.blank_atom)
  /\ (exists a',
        dispatch "AMOEBA_REGULAR_BOND_LIST" six_atoms = Ok tt a'
        /\ linked (atoms a') 2 5
        /\ atoms a' !! 1%nat = Some ListReader.blank_atom).
Proof.
  set (fmt := {| repeat := 10; type := "I"%char; width := 8; precision := 0 |}).
  assert (readBlock_int (width fmt)
            (reader (set_reader (snd (getNext (reader six_atoms))) six_atoms))
          = Ok (block_of [(3, 6, 1)])
               (snd (getNext (snd (getNext (reader six_atoms)))))) as H2
    by reflexivity.
  split.
  - assert (forall x y z : Z, In (x, y, z) [(3, 6, 1)] -> x <> y ->
              0 <= Z.quot x 3 < Z.of_nat (length (atoms six_atoms))
              /\ 0 <= Z.quot y 3 < Z.of_nat (length (atoms six_atoms))) as Hr.
    { intros x y z [H|[]] Hne; injection H as <- <- <-.
      vm_compute; repeat split; congruence. }
    assert (parseFormat "I" "bonds" six_atoms
            = Ok fmt (set_reader (snd (getNext (reader six_atoms))) six_atoms)) as H1
      by reflexivity.
    destruct (bond_index_conventions "BONDS_INC_HYDROGEN" "bonds" (nbonh six_atoms)
                (fun k => Z.quot k 3) [(3, 6, 1)] six_atoms fmt _ _
                (or_introl eq_refl) H1 H2 eq_refl eq_refl Hr)
      as (a' & E & L & U & _).
    exists a'. split; [exact E|].
    split; [exact (L 3 6 1 (or_introl eq_refl) ltac:(lia))|].
    etransitivity; [apply (U 5%nat); intros j; reflexivity | reflexivity].
  - assert (forall x y z : Z, In (x, y, z) [(3, 6, 1)] -> x <> y ->
              0 <= x - 1 < Z.of_nat (length (atoms six_atoms))
              /\ 0 <= y - 1 < Z.of_nat (length (atoms six_atoms))) as Hr.
    { intros x y z [H|[]] Hne; injection H as <- <- <-.
      vm_compute; repeat split; congruence. }
    assert (parseFormat "I" "amoeba_regular_bond_list" six_atoms
            = Ok fmt (set_reader (snd (getNext (reader six_atoms))) six_atoms)) as H1
      by reflexivity.
    destruct (bond_index_conventions "AMOEBA_REGULAR_BOND_LIST"
                "amoeba_regular_bond_list" (_amoeba_regular_bond_num_list six_atoms)
                (fun k => k - 1) [(3, 6, 1)] six_atoms fmt _ _
                (or_intror (or_intror (or_introl eq_refl))) H1 H2 eq_refl eq_refl Hr)
      as (a' & E & L & U & _).
    exists a'. split; [exact E|].
    split; [exact (L 3 6 1 (or_introl eq_refl) ltac:(lia))|].
    etransitivity; [apply (U 1%nat); intros j; reflexivity | reflexivity].
Defined.

Lemma assignResidues_stamps_witness :
  (exists a',
     assignResidues ten_atoms = Ok tt a'
     /\ map resid (atoms a') = [1; 1; 1; 1; 2; 2; 2; 2; 3; 3])
  /\ (exists a',
        assignResidues ten_atoms = Ok tt a'
        /\ atoms a' !! 4%nat = Some (stamp_atom 2 "GLY" ListReader.blank_atom)).
Proof.
  split.
  - pose proof (proj2 (assignResidues_stamps ten_atoms) _ _ _ _ _ _ _ _ _ _ _ _ _
                  eq_refl eq_refl eq_refl eq_refl eq_refl) as E.
    eexists. split; [exact E | reflexivity].
  - destruct (proj1 (assignResidues_stamps ten_atoms)) as (a' & E & _ & _ & H).
    + vm_compute. split; congruence.
    + reflexivity.
    + reflexivity.
    + reflexivity.
    + vm_compute. reflexivity.
    + split.
      * intros r s pr ps Hrs Hr Hs.
        destruct r as [|[|[|r]]], s as [|[|[|s]]]; cbn in Hr, Hs;
          try discriminate; try lia;
          injection Hr as <-; injection Hs as <-; lia.
      * intros r pr Hr.
        destruct r as [|[|[|r]]]; cbn in Hr; try discriminate;
          injection Hr as <-; cbn; lia.
    + exists a'. split; [exact E|].
      apply (proj1 (H 4%nat ListReader.blank_atom eq_refl) 1%nat 5 9 "GLY"%string);
        [reflexivity | reflexivity | reflexivity | lia].
Defined.

Lemma residue_ids_start_at_one :
  match assignResidues ten_atoms with
  | Ok _ a' => map resid (atoms a') = [1; 1; 1; 1; 2; 2; 2; 2; 3; 3]
  | _ => False
  end
  /\ [1; 1; 1; 1; 2; 2; 2; 2; 3; 3] <> [0; 0; 0; 0; 1; 1; 1; 1; 2; 2].
Proof. split; [vm_compute; reflexivity | discriminate]. Qed.

Lemma section_size_enforced_witness :
  parseAtomNames one_name_short
  = Throw (FileParseError "Error parsing atom names" 2)
      (set_reader (snd (getNext (snd (getNext (reader one_name_short)))))
         one_name_short).
Proof.
  apply (proj1 (section_size_enforced one_name_short)
           {| repeat := 20; type := "a"; width := 4; precision := 0 |}
           (set_reader (snd (getNext (reader one_name_short))) one_name_short)
           ["C1"%string]
           (snd (getNext (snd (getNext (reader one_name_short)))))
           eq_refl eq_refl).
  cbn. lia.
Defined.

Lemma assignResidues_zero_residues_witness :
  wrap32 (nres (ListReader.fresh []) - 1) = 4294967295
  /\ (forall e a', assignResidues (ListReader.fresh []) <> Throw e a')
  /\ assignResidues (ListReader.fresh []) = UB.
Proof.
  apply (assignResidues_zero_residues (ListReader.fresh [])); reflexivity.
Defined.

Lemma reading_no_line_is_undefined_witness :
  read (ret tt) 1 (ListReader.fresh []) = Some UB.
Proof.
  apply (reading_no_line_is_undefined (ret tt) 0 (ListReader.fresh [])); reflexivity.
Defined.

Lemma per_atom_sections_assign_witness :
  exists a',
    parseAtomNames two_named = Ok tt a'
    /\ exists x, atoms a' !! 1%nat = Some x /\ name x = "C2"%string /\ id x = 0.
Proof.
  destruct (proj1 (per_atom_sections_assign two_named)
              {| repeat := 20; type := "a"; width := 4; precision := 0 |}
              (set_reader (snd (getNext (reader two_named))) two_named)
              ["C1"; "C2"]%string
              (snd (getNext (snd (getNext (reader two_named)))))
              eq_refl eq_refl eq_refl eq_refl) as (a' & E & _ & _ & H).
  exists a'. split; [exact E|].
  destruct (H 1%nat "C2"%string ListReader.blank_atom eq_refl eq_refl)
    as (x & Hx & Hn & Hid & _).
  exists x. split; [exact Hx|]. split; [exact Hn | exact Hid].
Defined.

Lemma residue_sections_store_before_checking_witness :
  parseResidueLabels labels_short
  = Throw (FileParseError "Error parsing residue labels from amber file" 2)
      (set_residue_labels ["ALA"; "GLY"]%string
         (set_reader (snd (getNext (snd (getNext (reader labels_short)))))
            labels_short)).
Proof.
  exact (proj1 (residue_sections_store_before_checking labels_short)
           {| repeat := 20; type := "a"; width := 4; precision := 0 |}
           (set_reader (snd (getNext (reader labels_short))) labels_short)
           ["ALA"; "GLY"]%string
           (snd (getNext (snd (getNext (reader labels_short)))))
           eq_refl eq_refl).
Defined.

Lemma bond_sections_keep_bonds_sound_witness :
  match parseBonds 1 one_bond with
  | Ok _ a' | Throw _ a' => symmetric_bonds (atoms a') /\ duplicate_free (atoms a')
  | UB => True
  end.
Proof.
  assert (symmetric_bonds (atoms one_bond)) as Hs.
  { intros i j xi xj Hi Hj. unfold one_bond in Hi, Hj. cbn [atoms] in Hi, Hj.
    assert (bonds xi = [] /\ bonds xj = []) as [Ei Ej].
    { split.
      - destruct i as [|[|[|i]]]; cbn in Hi; try discriminate; by injection Hi as <-.
      - destruct j as [|[|[|j]]]; cbn in Hj; try discriminate; by injection Hj as <-. }
    unfold isBoundTo. by rewrite Ei, Ej. }
  assert (duplicate_free (atoms one_bond)) as Hd.
  { intros i x Hi. unfold one_bond in Hi. cbn [atoms] in Hi.
    assert (bonds x = []) as ->; [|apply NoDup_nil_2].
    destruct i as [|[|[|i]]]; cbn in Hi; try discriminate; by injection Hi as <-. }
  exact (proj1 (bond_sections_keep_bonds_sound 1 one_bond Hs Hd)).
Defined.

Lemma unknown_tags_are_skipped_witness :
  dispatch "SOLVENT_POINTERS" (ListReader.fresh []) = Ok tt (ListReader.fresh []).
Proof.
  apply unknown_tags_are_skipped. cbn. intuition discriminate.
Defined.

End ParmtopFacts.
